(** * Call-conversation orchestration core of the calling agent

    A shallow embedding of the conversation service
    (src/services/twilioService.js, class ConversationService), of the
    lead score update (src/models/Lead.js) and of the string primitives
    they rest on, with the properties of the natural-language
    specification stated and proved over it.

    Conventions.
    - A JavaScript string is a [string]: a sequence of code units below
      256 (the Latin-1 range).  On that range [toLowerCase], [trim],
      [includes] and [replace] below are the ECMAScript functions.
    - Numbers that the code only adds, compares and clamps (score,
      counters, millisecond timestamps) are [Z].
    - A JavaScript [Map] is a [gmap]; an object that is mutated through
      more than one reference lives in a heap and is named by a location.
    - What an external collaborator answers (language model, database,
      clock, time zone) is an argument of the operation that awaits it.
      A reply of the language model is any value that [JSON.parse] can
      return, [null] included.
    - An [async] function that other handlers can interleave with is
      given in two halves, up to its first wait and from there on; the
      function under its own name is the run in which nothing comes in
      between. *)

From Stdlib Require Import ZArith Ascii.
From stdpp Require Import gmap strings list fin_maps.

Local Open Scope Z_scope.

(** ** JavaScript strings *)

Module JsString.

(** [String.prototype.toLowerCase] on one code unit: A-Z, and the
    Latin-1 capitals U+00C0..U+00DE without the multiplication sign
    U+00D7, move up by 32. *)
Definition lowerChar (c : ascii) : ascii :=
  let n := N_of_ascii c in
  if ((65 <=? n)%N && (n <=? 90)%N)
     || ((192 <=? n)%N && (n <=? 222)%N && negb (n =? 215)%N)
  then ascii_of_N (n + 32)%N
  else c.

Fixpoint toLowerCase (s : string) : string :=
  match s with
  | EmptyString => EmptyString
  | String c s' => String (lowerChar c) (toLowerCase s')
  end.

(** [s.startsWith(p)]: [p] is a prefix of [s]. *)
Fixpoint startsWith (p s : string) : bool :=
  match p, s with
  | EmptyString, _ => true
  | String _ _, EmptyString => false
  | String a p', String b s' => Ascii.eqb a b && startsWith p' s'
  end.

(** [s.includes(p)]: [p] occurs in [s] at some position. *)
Fixpoint includes (s p : string) : bool :=
  startsWith p s ||
  match s with
  | EmptyString => false
  | String _ s' => includes s' p
  end.

(** [occurs c s]: the code unit [c] occurs in [s]. *)
Fixpoint occurs (c : ascii) (s : string) : bool :=
  match s with
  | EmptyString => false
  | String d s' => Ascii.eqb c d || occurs c s'
  end.

(** WhiteSpace and LineTerminator code units below 256:
    TAB, LF, VT, FF, CR, SP and NBSP. *)
Definition isWhiteSpace (c : ascii) : bool :=
  let n := N_of_ascii c in
  ((9 <=? n)%N && (n <=? 13)%N) || (n =? 32)%N || (n =? 160)%N.

Fixpoint trimStart (s : string) : string :=
  match s with
  | EmptyString => EmptyString
  | String c s' => if isWhiteSpace c then trimStart s' else s
  end.

Fixpoint trimEnd (s : string) : string :=
  match s with
  | EmptyString => EmptyString
  | String c s' =>
      match trimEnd s' with
      | EmptyString => if isWhiteSpace c then EmptyString else String c EmptyString
      | r => String c r
      end
  end.

(** [String.prototype.trim]. *)
Definition trim (s : string) : string := trimEnd (trimStart s).

Fixpoint dropStr (n : nat) (s : string) : string :=
  match n, s with
  | O, _ => s
  | S _, EmptyString => EmptyString
  | S k, String _ s' => dropStr k s'
  end.

(** GetSubstitution of ECMAScript for a pattern without capture
    groups: in the replacement text [$$] is a dollar sign, [$&] the
    matched text, [$`] the text before the match, [$'] the text after
    it; any other use of [$] stands for itself. *)
Fixpoint getSubstitution (matched before after repl : string) : string :=
  match repl with
  | EmptyString => EmptyString
  | String c r =>
      if Ascii.eqb c "$" then
        match r with
        | EmptyString => String c EmptyString
        | String d r' =>
            if Ascii.eqb d "$" then
              String "$" (getSubstitution matched before after r')
            else if Ascii.eqb d "&" then
              matched +:+ getSubstitution matched before after r'
            else if Ascii.eqb d "`" then
              before +:+ getSubstitution matched before after r'
            else if Ascii.eqb d "'" then
              after +:+ getSubstitution matched before after r'
            else String c (getSubstitution matched before after r)
        end
      else String c (getSubstitution matched before after r)
  end.

(** [s.replace(/pat/g, repl)] for a pattern [pat] that is a literal,
    non-empty text: matches are found left to right and do not overlap.
    [skip] counts the code units of the current match still to be passed
    over, [before] is the text already scanned. *)
Fixpoint replaceFrom (pat repl : string) (skip : nat) (before s : string) : string :=
  match s with
  | EmptyString => EmptyString
  | String c s' =>
      match skip with
      | S k => replaceFrom pat repl k (before +:+ String c EmptyString) s'
      | O =>
          if startsWith pat s then
            getSubstitution pat before (dropStr (String.length pat) s) repl
            +:+ replaceFrom pat repl (String.length pat - 1)%nat
                  (before +:+ String c EmptyString) s'
          else
            String c (replaceFrom pat repl 0%nat (before +:+ String c EmptyString) s')
      end
  end.

Definition replaceAll (pat repl s : string) : string :=
  replaceFrom pat repl 0%nat EmptyString s.

End JsString.

Import JsString.

(** ** JavaScript values and completions *)

(** A value as [JSON.parse] can return it, with [undefined] for a
    property that is absent.  A number is integer-valued here: the code
    under study only tests one for being zero. *)
#[warnings="-register-all"] Inductive JsVal : Type :=
  | JUndefined
  | JNull
  | JBool (b : bool)
  | JNum (n : Z)
  | JStr (s : string)
  | JArr (items : list JsVal)
  | JObj (fields : list (string * JsVal)).

(** ToBoolean. *)
Definition truthy (v : JsVal) : bool :=
  match v with
  | JUndefined | JNull => false
  | JBool b => b
  | JNum n => negb (n =? 0)
  | JStr s => negb (String.eqb s "")
  | JArr _ | JObj _ => true
  end.

(** [v === 'text']. *)
Definition strictEqStr (v : JsVal) (text : string) : bool :=
  match v with
  | JStr s => String.eqb s text
  | _ => false
  end.

(** How a call ends: with a value, or with a thrown error (for an
    [async] function: a resolved or a rejected promise). *)
Inductive Completion (A : Type) : Type :=
  | Normal (a : A)
  | Throw (error : string).
Arguments Normal {A} a.
Arguments Throw {A} error.

(** [v.includes(text)]: a substring test on a string, a membership test
    on an array, a TypeError on a value without that method. *)
Definition jsIncludes (v : JsVal) (text : string) : Completion bool :=
  match v with
  | JStr s => Normal (includes s text)
  | JArr items => Normal (existsb (fun x => strictEqStr x text) items)
  | _ => Throw "TypeError: includes is not a function"
  end.

(** An object read as a record of properties; [obj.name] is [undefined]
    when the property is absent. *)
Definition getProp (obj : gmap string JsVal) (name : string) : JsVal :=
  default JUndefined (obj !! name).

(** The empty object [{}]. *)
#[global] Instance JsVal_empty : Empty JsVal := JObj [].

(** [null] and [undefined]: the values on which reading a property
    throws a TypeError. *)
Definition nullish (v : JsVal) : bool :=
  match v with
  | JUndefined | JNull => true
  | _ => false
  end.

(** The properties of a value, for the reads [v.name] of the code under
    study (none of its names is a property of a string, a number, a
    boolean or an array): those of an object as [JSON.parse] builds it,
    where a later duplicate of a name overrides an earlier one; none for
    any other value; [None] for [null] and [undefined], on which the read
    throws. *)
Definition props (v : JsVal) : option (gmap string JsVal) :=
  match v with
  | JUndefined | JNull => None
  | JObj fields => Some (list_to_map (reverse fields))
  | _ => Some ∅
  end.

(** ** Data model *)

Inductive Speaker : Type := agent | customer.

#[global] Instance Speaker_eq_dec : EqDecision Speaker.
Proof. solve_decision. Defined.

(** One entry of [conversationHistory]. *)
Record Turn : Type := mkTurn {
  speaker : Speaker;
  message : string;
  timestamp : Z
}.

(** A sentiment as [updateScore] reads it: the two properties of the
    argument that the code looks at. *)
Record Sentiment : Type := mkSentiment {
  overall : JsVal;
  sentimentScore : JsVal
}.

(** The fields of the lead that the conversation fills in. *)
Record LeadProfile : Type := mkLeadProfile {
  budget : JsVal;
  timeframe : JsVal;
  decisionMaker : JsVal;
  topics : list string;
  objections : list string
}.

(** A lead document (src/models/Lead.js), with the fields the
    conversation service reads or writes. *)
Record Lead : Type := mkLead {
  lead_id : string;
  firstName : string;
  lastName : option string;
  phoneNumber : string;
  company : option string;
  jobTitle : option string;
  status : string;
  score : Z;
  totalCalls : Z;
  lastCallDate : option Z;
  nextCallDate : option Z;
  doNotCall : bool;
  doNotCallReason : option string;
  profile : LeadProfile
}.

(** [x || ''] for an optional string. *)
Definition orEmpty (x : option string) : string := default "" x.

(** The virtual [fullName]. *)
Definition fullName (lead : Lead) : string :=
  trim (firstName lead +:+ " " +:+ orEmpty (lastName lead)).

(** The virtual [isCallable]. *)
Definition isCallable (lead : Lead) : bool :=
  if doNotCall lead then false
  else if String.eqb (status lead) "do-not-call" then false
  else if String.eqb (status lead) "converted" then false
  else true.

(** ** Lead feedback: [updateScore] (src/models/Lead.js) *)

Definition setOutcome (lead : Lead) (newStatus : string) : Lead :=
  mkLead (lead_id lead) (firstName lead) (lastName lead) (phoneNumber lead)
    (company lead) (jobTitle lead) newStatus (score lead) (totalCalls lead)
    (lastCallDate lead) (nextCallDate lead) (doNotCall lead)
    (doNotCallReason lead) (profile lead).

Definition setDoNotCall (lead : Lead) (reason : string) : Lead :=
  mkLead (lead_id lead) (firstName lead) (lastName lead) (phoneNumber lead)
    (company lead) (jobTitle lead) (status lead) (score lead) (totalCalls lead)
    (lastCallDate lead) (nextCallDate lead) true (Some reason) (profile lead).

Definition setTracking (lead : Lead) (newScore newTotal : Z) (now : Z) : Lead :=
  mkLead (lead_id lead) (firstName lead) (lastName lead) (phoneNumber lead)
    (company lead) (jobTitle lead) (status lead) newScore newTotal
    (Some now) (nextCallDate lead) (doNotCall lead)
    (doNotCallReason lead) (profile lead).

(** The [switch (callOutcome)]: the score change and the lead with its
    status fields set. *)
Definition outcomeSwitch (lead : Lead) (callOutcome : string) : Z * Lead :=
  if String.eqb callOutcome "sale" then (30, setOutcome lead "converted")
  else if String.eqb callOutcome "interested" then (20, setOutcome lead "interested")
  else if String.eqb callOutcome "callback" then (10, setOutcome lead "callback")
  else if String.eqb callOutcome "not-interested" then (-15, setOutcome lead "not-interested")
  else if String.eqb callOutcome "wrong-number" then
    (-30, setDoNotCall (setOutcome lead "do-not-call") "Wrong number")
  else (-5, lead).

(** The sentiment adjustment of the score change; [sentiment] is [None]
    when the argument is absent. *)
Definition sentimentAdjust (scoreChange : Z) (sentiment : option Sentiment) : Z :=
  match sentiment with
  | Some s =>
      if strictEqStr (overall s) "positive" then scoreChange + 5
      else if strictEqStr (overall s) "negative" then scoreChange - 5
      else scoreChange
  | None => scoreChange
  end.

(** [lead.updateScore(callOutcome, sentiment)], run at time [now]: the
    lead as it is handed to [save]. *)
Definition updateScore (lead : Lead) (callOutcome : string)
    (sentiment : option Sentiment) (now : Z) : Lead :=
  let '(scoreChange, lead1) := outcomeSwitch lead callOutcome in
  let scoreChange := sentimentAdjust scoreChange sentiment in
  setTracking lead1
    (Z.max 0 (Z.min 100 (score lead1 + scoreChange)))
    (totalCalls lead1 + 1) now.

(** The argument [sentiment] as [updateScore] reads it: skipped when
    falsy, else with the properties [overall] and [score] it has. *)
Definition sentimentOf (v : JsVal) : option Sentiment :=
  if truthy v then
    match props v with
    | Some fields => Some (mkSentiment (getProp fields "overall") (getProp fields "score"))
    | None => None
    end
  else None.

(** ** Dates *)

(** A [Date] holds a time value, the milliseconds since the epoch; the
    functions below are those of the ECMAScript specification.  Time
    values are taken within the range of [Date], where [TimeClip] changes
    nothing. *)
Definition msPerDay : Z := 86400000.
Definition msPerHour : Z := 3600000.

Definition Day (t : Z) : Z := t / msPerDay.
Definition TimeWithinDay (t : Z) : Z := t mod msPerDay.

(** The time zone of the host: [LocalTZA(t, isUTC)], the offset of local
    time from UTC in milliseconds, at the UTC time [t] or at the local
    time [t]. *)
Definition TimeZone : Type := Z → bool → Z.

Definition LocalTime (tz : TimeZone) (t : Z) : Z := t + tz t true.
Definition UTC (tz : TimeZone) (t : Z) : Z := t - tz t false.

(** [d.setDate(d.getDate() + 1)]: [MakeDay] of the local year and month
    with the local day of the month plus one is the day after the local
    day, and the time within the day is kept, so the new local time is
    the old one plus one day. *)
Definition setDateNextDay (tz : TimeZone) (t : Z) : Z :=
  UTC tz (LocalTime tz t + msPerDay).

(** [d.setHours(9, 0, 0, 0)]: nine o'clock of the local day. *)
Definition setHoursNine (tz : TimeZone) (t : Z) : Z :=
  UTC tz (Day (LocalTime tz t) * msPerDay + 9 * msPerHour).

(** [d.setHours(d.getHours() + hours)]: minutes, seconds and
    milliseconds of the local time are kept. *)
Definition setHoursLater (tz : TimeZone) (hours : Z) (t : Z) : Z :=
  UTC tz (LocalTime tz t + hours * msPerHour).

(** ** Pure parts of the conversation service *)

Definition terminationPhrases : list string :=
  [ "remove me"; "take me off"; "do not call"; "not interested";
    "stop calling"; "unsubscribe"; "wrong number"; "goodbye";
    "hang up"; "end call" ].

Definition shouldEndCall (customerSpeech : string) : bool :=
  let lowerSpeech := toLowerCase customerSpeech in
  existsb (fun phrase => includes lowerSpeech phrase) terminationPhrases.

Definition stepKeywords : list (string * list string) :=
  [ ("qualification", ["qualify"; "budget"; "timeline"; "decision"]);
    ("presentation", ["solution"; "product"; "service"; "benefit"]);
    ("objection", ["concern"; "but"; "however"; "objection"]);
    ("closing", ["next step"; "schedule"; "sign up"; "purchase"]) ].

(** The loop of [updateConversationStep]: the first step with a keyword
    in the response, if there is one. *)
Fixpoint firstStep (entries : list (string * list string)) (lowerResponse : string)
    : option string :=
  match entries with
  | [] => None
  | (step, keywords) :: rest =>
      if existsb (fun keyword => includes lowerResponse keyword) keywords
      then Some step
      else firstStep rest lowerResponse
  end.

(** [updateConversationStep], as the new value of [currentStep]. *)
Definition updateConversationStep (currentStep response : string) : string :=
  default currentStep (firstStep stepKeywords (toLowerCase response)).

Definition customerMessages (conversationHistory : list Turn) : list Turn :=
  filter (fun msg => speaker msg = customer) conversationHistory.

Definition determineCallOutcome (conversationHistory : list Turn)
    (extractedInfo : gmap string JsVal) (reason : string) : Completion string :=
  if String.eqb reason "customer-requested" then Normal "not-interested"
  else if truthy (getProp extractedInfo "nextSteps")
          || truthy (getProp extractedInfo "interests")
  then Normal "interested"
  else
    match (if truthy (getProp extractedInfo "nextSteps")
           then jsIncludes (getProp extractedInfo "nextSteps") "callback"
           else Normal false) with
    | Throw e => Throw e
    | Normal true => Normal "callback"
    | Normal false =>
        if (length (customerMessages conversationHistory) <? 2)%nat
        then Normal "no-answer"
        else if (5 <? length (customerMessages conversationHistory))%nat
        then Normal "interested"
        else Normal "not-interested"
    end.

Definition replacePlaceholders (text : string) (lead : Lead) : string :=
  replaceAll "{jobTitle}" (orEmpty (jobTitle lead))
    (replaceAll "{company}" (orEmpty (company lead))
      (replaceAll "{fullName}" (fullName lead)
        (replaceAll "{lastName}" (orEmpty (lastName lead))
          (replaceAll "{firstName}" (firstName lead) text)))).

(** ** The conversation service: state *)

Record Campaign : Type := mkCampaign {
  campaign_id : string;
  scriptOpening : option string;
  scriptClosing : option string;
  voiceSetting : option string;
  languageSetting : option string
}.

Record CallContext : Type := mkCallContext {
  callNumber : Z;
  timeOfDay : string
}.

(** The conversation context built by [initializeConversation]. *)
Record Conversation : Type := mkConversation {
  callSid : string;
  leadId : string;
  campaignId : string;
  lead : Lead;
  campaign : Campaign;
  conversationHistory : list Turn;
  currentStep : string;
  startTime : Z;
  callContext : CallContext
}.

(** A document of the Call collection (src/models/Call.js). *)
Record CallDoc : Type := mkCallDoc {
  doc_callSid : string;
  doc_campaignId : option string;
  doc_leadId : option string;
  doc_phoneNumber : option string;
  doc_status : string;
  doc_startedAt : option Z;
  doc_endedAt : option Z;
  doc_duration : option Z;
  doc_conversation : list Turn;
  doc_sentiment : option JsVal;
  doc_outcome : string;
  doc_notes : option string
}.

Inductive LogLevel : Type := LDebug | LInfo | LWarn | LError.

(** The state the conversation service works on: the [Map] of active
    conversations (call SID to conversation object), the conversation
    objects themselves, the Call and Lead collections of the database,
    and the log lines the service has written. *)
Record World : Type := mkWorld {
  activeConversations : gmap string nat;
  heap : list Conversation;
  callDocs : list CallDoc;
  leadDocs : gmap string Lead;
  logs : list (LogLevel * string)
}.

Definition emptyWorld : World := mkWorld ∅ [] [] ∅ [].

(** [this.activeConversations.get(callSid)]. *)
Definition lookupConversation (w : World) (sid : string) : option (nat * Conversation) :=
  match activeConversations w !! sid with
  | Some l =>
      match heap w !! l with
      | Some conversation => Some (l, conversation)
      | None => None
      end
  | None => None
  end.

Definition logMsg (level : LogLevel) (text : string) (w : World) : World :=
  mkWorld (activeConversations w) (heap w) (callDocs w) (leadDocs w)
    (logs w ++ [(level, text)]).

Definition setActive (m : gmap string nat) (w : World) : World :=
  mkWorld m (heap w) (callDocs w) (leadDocs w) (logs w).

Definition setHeap (h : list Conversation) (w : World) : World :=
  mkWorld (activeConversations w) h (callDocs w) (leadDocs w) (logs w).

Definition setCallDocs (docs : list CallDoc) (w : World) : World :=
  mkWorld (activeConversations w) (heap w) docs (leadDocs w) (logs w).

Definition setLeadDocs (docs : gmap string Lead) (w : World) : World :=
  mkWorld (activeConversations w) (heap w) (callDocs w) docs (logs w).

Definition withHistory (history : list Turn) (c : Conversation) : Conversation :=
  mkConversation (callSid c) (leadId c) (campaignId c) (lead c) (campaign c)
    history (currentStep c) (startTime c) (callContext c).

Definition withStep (step : string) (c : Conversation) : Conversation :=
  mkConversation (callSid c) (leadId c) (campaignId c) (lead c) (campaign c)
    (conversationHistory c) step (startTime c) (callContext c).

Definition withLead (newLead : Lead) (c : Conversation) : Conversation :=
  mkConversation (callSid c) (leadId c) (campaignId c) newLead (campaign c)
    (conversationHistory c) (currentStep c) (startTime c) (callContext c).

(** [conversation.conversationHistory.push(turn)] on the object at [l]. *)
Definition pushTurn (l : nat) (turn : Turn) (w : World) : World :=
  setHeap (alter (fun c => withHistory (conversationHistory c ++ [turn]) c) l (heap w)) w.

(** ** TwiML documents (class TwilioService) *)

Inductive Verb : Type :=
  | Say (voice language text : string)
  | Gather (action : option string) (timeout : Z) (voice language text : string)
  | Pause (seconds : Z)
  | Redirect (url : string)
  | Hangup.

Record TwiMLOptions : Type := mkTwiMLOptions {
  optVoice : string;
  optLanguage : string;
  continueUrl : option string;
  gatherInput : bool;
  gatherAction : option string;
  gatherTimeout : option Z;
  noInputMessage : option string
}.

(** [a || b] on optional strings: the empty string is falsy. *)
Definition orElseStr (a : option string) (b : string) : string :=
  match a with
  | Some s => if String.eqb s "" then b else s
  | None => b
  end.

(** [generateTwiML(message, options)].  The attributes of the Gather are
    an object literal that ends in [...gatherOptions]: an [action] or a
    [timeout] that [gatherOptions] has is the one that is used, whatever
    its value, and the defaults [continueUrl] and 5 stand only when
    [gatherOptions] has none. *)
Definition generateTwiML (text : string) (options : TwiMLOptions) : list Verb :=
  (if gatherInput options then
     Gather (match gatherAction options with
             | Some a => Some a
             | None => continueUrl options
             end)
            (match gatherTimeout options with
             | Some t => t
             | None => 5
             end)
            (optVoice options) (optLanguage options) text
     :: match noInputMessage options with
        | Some m => if String.eqb m "" then [] else [Say (optVoice options) (optLanguage options) m]
        | None => []
        end
   else [Say (optVoice options) (optLanguage options) text])
  ++ [Pause 1]
  ++ match continueUrl options with
     | Some url =>
         if gatherInput options || String.eqb url "" then [] else [Redirect url]
     | None => []
     end.

Definition generateHangupTwiML (text : string) : list Verb :=
  [Say "alice" "en-US" text; Hangup].
(** ** The conversation service: operations *)

Definition getTimeOfDay (hour : Z) : string :=
  if hour <? 12 then "morning"
  else if hour <? 17 then "afternoon"
  else "evening".

(** The URL of the speech webhook of a call; [baseUrl] is
    [process.env.BASE_URL]. *)
Definition gatherUrl (baseUrl sid : string) : string :=
  baseUrl +:+ "/api/webhooks/twilio/gather?callSid=" +:+ sid.

(** The object literal [conversationContext] of [initializeConversation]:
    empty history, step opening, start time [now]. *)
Definition freshConversation (sid : string) (lead0 : Lead) (campaign0 : Campaign)
    (now hour : Z) : Conversation :=
  mkConversation sid (lead_id lead0) (campaign_id campaign0) lead0 campaign0
    [] "opening" now (mkCallContext (totalCalls lead0 + 1) (getTimeOfDay hour)).

(** [initializeConversation(callSid, lead, campaign)] run at time [now],
    local hour [hour]: a new conversation object is built and stored
    under [callSid]; the object (its location) is returned. *)
Definition initializeConversation (sid : string) (lead0 : Lead) (campaign0 : Campaign)
    (now hour : Z) (w : World) : Completion nat * World :=
  let conversationContext := freshConversation sid lead0 campaign0 now hour in
  let l := length (heap w) in
  (Normal l,
   logMsg LInfo "Conversation initialized"
     (setActive (<[sid := l]> (activeConversations w))
        (setHeap (heap w ++ [conversationContext]) w))).

(** [generateOpeningMessage(conversation)] for the object at [l], at
    time [now].  Without an object the destructuring throws, and so does
    the [catch] block when it reads [conversation.callSid] for its log
    line. *)
Definition generateOpeningMessage (baseUrl : string) (l : nat) (now : Z) (w : World)
    : Completion (list Verb) * World :=
  match heap w !! l with
  | None => (Throw "TypeError", w)
  | Some conversation =>
      let openingMessage :=
        replacePlaceholders
          (orElseStr (scriptOpening (campaign conversation))
             ("Hello, this is an automated sales call. Am I speaking with "
              +:+ firstName (lead conversation) +:+ "?"))
          (lead conversation) in
      let w1 := pushTurn l (mkTurn agent openingMessage now) w in
      let url := gatherUrl baseUrl (callSid conversation) in
      (Normal
         (generateTwiML openingMessage
            (mkTwiMLOptions
               (orElseStr (voiceSetting (campaign conversation)) "alice")
               (orElseStr (languageSetting (campaign conversation)) "en-US")
               (Some url) true (Some url) (Some 5) (Some "Hello? Are you there?"))),
       logMsg LInfo "Opening message generated" w1)
  end.

(** ** Analysis of a transcript (src/services/openaiService.js) *)

(** [parts.join(' ')]. *)
Fixpoint joinSpace (parts : list string) : string :=
  match parts with
  | [] => EmptyString
  | [s] => s
  | s :: rest => s +:+ " " +:+ joinSpace rest
  end.

Definition neutralSentiment : JsVal :=
  JObj [("overall", JStr "neutral"); ("score", JNum 0); ("confidence", JNum 0)].

(** [analyzeSentiment(conversationHistory)]; [answer] is what
    [JSON.parse] makes of the model's reply, or the error of the request
    or of the parse. *)
Definition analyzeSentiment (conversationHistory : list Turn)
    (answer : Completion JsVal) : JsVal :=
  let conversationText :=
    joinSpace (map message (customerMessages conversationHistory)) in
  if String.eqb (trim conversationText) "" then neutralSentiment
  else match answer with
       | Normal sentiment => sentiment
       | Throw _ => neutralSentiment
       end.

(** A text of white space only. *)
Fixpoint isBlank (s : string) : bool :=
  match s with
  | EmptyString => true
  | String c s' => isWhiteSpace c && isBlank s'
  end.

(** [extractInformation(conversationHistory)]; [answer] as for
    [analyzeSentiment].  What [JSON.parse] returns is handed on as it
    is, an object or not; the empty object stands in for a failure. *)
Definition extractInformation (answer : Completion JsVal) : JsVal :=
  match answer with
  | Normal extractedInfo => extractedInfo
  | Throw _ => JObj []
  end.

(** ** Finalizing a call *)

(** What the collaborators answer while one [endConversation] runs: the
    clock, the model behind [analyzeSentiment] and [extractInformation]
    (its reply as [JSON.parse] reads it, or the failure of the request or
    of the parse), [generateCallSummary], the database ([call.save()],
    the three saves of the lead, in [updateScore], in [scheduleNextCall]
    and in [updateLeadFromConversation] itself, and
    [campaign.updateStats()]), and the time zone of the host. *)
Record EndEnv : Type := mkEndEnv {
  endTime : Z;
  sentimentReply : Completion JsVal;
  extractionReply : Completion JsVal;
  summaryAnswer : string;
  callSaved : bool;
  newCallId : string;
  scoreTime : Z;
  scoreSaved : bool;
  scheduleTime : Z;
  localTZA : TimeZone;
  scheduleSaved : bool;
  leadSaved : bool;
  statsUpdated : bool
}.

Definition withProfile (p : LeadProfile) (x : Lead) : Lead :=
  mkLead (lead_id x) (firstName x) (lastName x) (phoneNumber x)
    (company x) (jobTitle x) (status x) (score x) (totalCalls x)
    (lastCallDate x) (nextCallDate x) (doNotCall x) (doNotCallReason x) p.

Definition withNextCall (date : Z) (x : Lead) : Lead :=
  mkLead (lead_id x) (firstName x) (lastName x) (phoneNumber x)
    (company x) (jobTitle x) (status x) (score x) (totalCalls x)
    (lastCallDate x) (Some date) (doNotCall x) (doNotCallReason x) (profile x).

(** [lead.scheduleNextCall(retryDelayHours)] at time [now] in the time
    zone [tz]: the lead as it is handed to [save]. *)
Definition scheduleNextCall (x : Lead) (retryDelayHours : Z) (tz : TimeZone) (now : Z)
    : Lead :=
  if String.eqb (status x) "callback"
  then withNextCall (setHoursNine tz (setDateNextDay tz now)) x
  else if String.eqb (status x) "new" || String.eqb (status x) "contacted"
  then withNextCall (setHoursLater tz retryDelayHours now) x
  else x.

(** [s.split(sep)] for a separator of one code unit. *)
Fixpoint split (sep : ascii) (s : string) : list string :=
  match s with
  | EmptyString => [EmptyString]
  | String c s' =>
      if Ascii.eqb c sep then EmptyString :: split sep s'
      else match split sep s' with
           | h :: t => String c h :: t
           | [] => [String c EmptyString]
           end
  end.

(** [list.push(...v.split(',').map(t => t.trim()))] when [v] is truthy. *)
Definition pushTrimmed (v : JsVal) (items : list string) : Completion (list string) :=
  if truthy v then
    match v with
    | JStr s => Normal (items ++ map trim (split "," s))
    | _ => Throw "TypeError: split is not a function"
    end
  else Normal items.

(** [determineCallOutcome(conversationHistory, extractedInfo, reason)]
    for whatever [extractInformation] has returned: [determineCallOutcome]
    above on the properties of the value; [null] has none, and the read
    of [extractedInfo.nextSteps] throws, unless the reason has decided
    before. *)
Definition determineCallOutcomeOf (conversationHistory : list Turn)
    (extractedInfo : JsVal) (reason : string) : Completion string :=
  match props extractedInfo with
  | Some info => determineCallOutcome conversationHistory info reason
  | None =>
      if String.eqb reason "customer-requested" then Normal "not-interested"
      else Throw "TypeError: Cannot read properties of null (reading 'nextSteps')"
  end.

(** The end of [updateLeadFromConversation], from [lead.save()] on:
    [x] is the lead object, [written] the version of it last written to
    the database. *)
Definition saveLead (x written : Lead) (env : EndEnv) : Lead * option Lead * bool :=
  if leadSaved env then (x, Some x, true) else (x, Some written, false).

(** [updateLeadFromConversation(lead, extractedInfo, outcome, sentiment)]:
    the lead object after the call, the version of it last written to
    the database, if any, and whether the body ran to its end.  The
    function catches its own errors: a save that is rejected, the read
    of a property of [null], a [split] that is no function. *)
Definition updateLeadFromConversation (lead0 : Lead) (extractedInfo : JsVal)
    (outcome : string) (sentiment : JsVal) (env : EndEnv)
    : Lead * option Lead * bool :=
  let lead1 := updateScore lead0 outcome (sentimentOf sentiment) (scoreTime env) in
  if negb (scoreSaved env) then (lead1, None, false)
  else
    match props extractedInfo with
    | None => (lead1, Some lead1, false)
    | Some info =>
        let p := profile lead1 in
        let budget1 :=
          if truthy (getProp info "budget")
          then JObj [("min", getProp info "budget")] else budget p in
        let timeframe1 :=
          if truthy (getProp info "timeline")
          then getProp info "timeline" else timeframe p in
        let decisionMaker1 :=
          match getProp info "decisionMaker" with
          | JNull => decisionMaker p
          | v => v
          end in
        match pushTrimmed (getProp info "interests") (topics p) with
        | Throw _ =>
            (withProfile (mkLeadProfile budget1 timeframe1 decisionMaker1
                            (topics p) (objections p)) lead1,
             Some lead1, false)
        | Normal topics1 =>
            match pushTrimmed (getProp info "objections") (objections p) with
            | Throw _ =>
                (withProfile (mkLeadProfile budget1 timeframe1 decisionMaker1
                                topics1 (objections p)) lead1,
                 Some lead1, false)
            | Normal objections1 =>
                let lead2 :=
                  withProfile (mkLeadProfile budget1 timeframe1 decisionMaker1
                                 topics1 objections1) lead1 in
                if String.eqb outcome "callback" then
                  let lead3 :=
                    scheduleNextCall lead2 24 (localTZA env) (scheduleTime env) in
                  if scheduleSaved env then saveLead lead3 lead3 env
                  else (lead3, Some lead1, false)
                else if String.eqb outcome "interested" then
                  let lead3 :=
                    scheduleNextCall lead2 72 (localTZA env) (scheduleTime env) in
                  if scheduleSaved env then saveLead lead3 lead3 env
                  else (lead3, Some lead1, false)
                else saveLead lead2 lead1 env
            end
        end
    end.

(** What [endConversation] returns for a call it has ended. *)
Record CallSummary : Type := mkCallSummary {
  callId : string;
  outcome : string;
  duration : Z;
  summarySentiment : JsVal;
  extractedInfo : JsVal
}.

(** The [callData] of [endConversation]: the document of a finished call. *)
Definition completedCallDoc (sid : string) (conversation : Conversation)
    (env : EndEnv) (seconds : Z) (sentiment : JsVal) (result : string) : CallDoc :=
  mkCallDoc sid (Some (campaignId conversation))
    (Some (leadId conversation))
    (Some (phoneNumber (lead conversation)))
    "completed" (Some (startTime conversation)) (Some (endTime env))
    (Some seconds) (conversationHistory conversation)
    (Some sentiment) result (Some (summaryAnswer env)).

(** [endConversation] up to its first wait for the model: either it has
    returned, or it is suspended holding the conversation object [l],
    the duration it has computed and, here, the sentiment that
    [analyzeSentiment] is going to return; the text that
    [analyzeSentiment] judges is the customer's of this moment. *)
Inductive EndStep : Type :=
  | Ended (result : Completion (option CallSummary)) (w : World)
  | AwaitingAnalysis (l : nat) (seconds : Z) (sentiment : JsVal) (w : World).

Definition endConversation_begin (sid : string) (env : EndEnv) (w : World) : EndStep :=
  match lookupConversation w sid with
  | None =>
      Ended (Normal None)
        (logMsg LWarn "Attempted to end non-existent conversation" w)
  | Some (l, conversation) =>
      AwaitingAnalysis l
        ((endTime env - startTime conversation + 500) / 1000)
        (analyzeSentiment (conversationHistory conversation) (sentimentReply env))
        w
  end.

(** [endConversation] from there on, its later waits taken with nothing
    in between.  The last line before the [return] reads
    [sentiment.score] for the log, after the call has been removed from
    the active map: it throws when the sentiment is [null]. *)
Definition endConversation_resume (sid reason : string) (l : nat) (seconds : Z)
    (sentiment : JsVal) (env : EndEnv) (w : World)
    : Completion (option CallSummary) * World :=
  match heap w !! l with
  | None => (Throw "TypeError", logMsg LError "Failed to end conversation" w)
  | Some conversation =>
      let extractedInfo := extractInformation (extractionReply env) in
      match determineCallOutcomeOf (conversationHistory conversation)
              extractedInfo reason with
      | Throw e => (Throw e, logMsg LError "Failed to end conversation" w)
      | Normal result =>
          if negb (callSaved env)
          then (Throw "call.save() rejected",
                logMsg LError "Failed to end conversation" w)
          else
            let doc :=
              completedCallDoc sid conversation env seconds sentiment result in
            let w1 := setCallDocs (callDocs w ++ [doc]) w in
            let '(leadAfter, written, finished) :=
              updateLeadFromConversation (lead conversation) extractedInfo
                result sentiment env in
            let w2 := setHeap (alter (withLead leadAfter) l (heap w1)) w1 in
            let w3 :=
              match written with
              | Some x => setLeadDocs (<[lead_id x := x]> (leadDocs w2)) w2
              | None => w2
              end in
            let w4 :=
              if finished
              then logMsg LDebug "Lead updated from conversation" w3
              else logMsg LError "Failed to update lead from conversation" w3 in
            if negb (statsUpdated env)
            then (Throw "campaign.updateStats() rejected",
                  logMsg LError "Failed to end conversation" w4)
            else
              let w5 := setActive (delete sid (activeConversations w4)) w4 in
              if nullish sentiment
              then (Throw "TypeError: Cannot read properties of null (reading 'score')",
                    logMsg LError "Failed to end conversation" w5)
              else
                (Normal (Some (mkCallSummary (newCallId env) result seconds
                                 sentiment extractedInfo)),
                 logMsg LInfo "Conversation ended successfully" w5)
      end
  end.

(** [endConversation(callSid, reason)] when nothing else runs during its
    waits. *)
Definition endConversation (sid reason : string) (env : EndEnv) (w : World)
    : Completion (option CallSummary) * World :=
  match endConversation_begin sid env w with
  | Ended result w' => (result, w')
  | AwaitingAnalysis l seconds sentiment w' =>
      endConversation_resume sid reason l seconds sentiment env w'
  end.

(** [Call.findOneAndUpdate({callSid}, {conversation, status}, {upsert})]:
    the first document of the call is updated; [None] when there is none. *)
Fixpoint updateFirstDoc (sid : string) (history : list Turn) (docs : list CallDoc)
    : option (list CallDoc) :=
  match docs with
  | [] => None
  | d :: rest =>
      if String.eqb (doc_callSid d) sid then
        Some (mkCallDoc (doc_callSid d) (doc_campaignId d) (doc_leadId d)
                (doc_phoneNumber d) "in-progress" (doc_startedAt d) (doc_endedAt d)
                (doc_duration d) history (doc_sentiment d) (doc_outcome d)
                (doc_notes d) :: rest)
      else option_map (cons d) (updateFirstDoc sid history rest)
  end.

Definition upsertConversation (sid : string) (history : list Turn) (docs : list CallDoc)
    : list CallDoc :=
  match updateFirstDoc sid history docs with
  | Some docs' => docs'
  | None =>
      docs ++ [mkCallDoc sid None None None "in-progress" None None None
                 history None "no-answer" None]
  end.

(** [saveConversationState(conversation)]; [stored] tells whether the
    database accepted the update.  The function catches its own errors. *)
Definition saveConversationState (conversation : Conversation) (stored : bool)
    (w : World) : World :=
  if stored then
    setCallDocs (upsertConversation (callSid conversation)
                   (conversationHistory conversation) (callDocs w)) w
  else logMsg LError "Failed to save conversation state" w.

(** What the collaborators answer while one [handleCustomerSpeech] runs. *)
Record SpeechEnv : Type := mkSpeechEnv {
  heardAt : Z;
  endAnswers : EndEnv;
  generatorAnswer : string;
  answeredAt : Z;
  stateStored : bool
}.

(** The reply of the [catch] block of [handleCustomerSpeech]. *)
Definition repeatTwiML (baseUrl sid : string) : list Verb :=
  generateTwiML "I apologize, I didn't quite catch that. Could you please repeat?"
    (mkTwiMLOptions "alice" "en-US" None true (Some (gatherUrl baseUrl sid))
       (Some 5) None).

(** [handleCustomerSpeech] up to its wait for the response generator:
    either it has replied, or it is suspended holding the conversation
    object [l]. *)
Inductive SpeechStep : Type :=
  | Replied (twiml : list Verb) (w : World)
  | AwaitingResponse (l : nat) (w : World).

Definition handleCustomerSpeech_begin (baseUrl sid customerSpeech : string)
    (env : SpeechEnv) (w : World) : SpeechStep :=
  match lookupConversation w sid with
  | None =>
      Replied (generateHangupTwiML "Thank you for calling. Goodbye!")
        (logMsg LError "No active conversation found" w)
  | Some (l, conversation) =>
      let w1 := pushTurn l (mkTurn customer customerSpeech (heardAt env)) w in
      let w2 := logMsg LInfo "Customer speech received" w1 in
      if shouldEndCall customerSpeech then
        match endConversation sid "customer-requested" (endAnswers env) w2 with
        | (Normal _, w3) =>
            Replied
              (generateHangupTwiML
                 (orElseStr (scriptClosing (campaign conversation))
                    "Thank you for your time. Goodbye!"))
              w3
        | (Throw _, w3) =>
            Replied (repeatTwiML baseUrl sid)
              (logMsg LError "Failed to handle customer speech" w3)
        end
      else AwaitingResponse l w2
  end.

(** [handleCustomerSpeech] from the moment the response generator has
    answered [generatorAnswer env]. *)
Definition handleCustomerSpeech_resume (baseUrl sid : string) (l : nat)
    (env : SpeechEnv) (w : World) : list Verb * World :=
  let w0 := logMsg LDebug "AI response generated" w in
  match heap w0 !! l with
  | None =>
      (repeatTwiML baseUrl sid, logMsg LError "Failed to handle customer speech" w0)
  | Some c =>
      let aiResponse := generatorAnswer env in
      let c1 :=
        withHistory (conversationHistory c ++ [mkTurn agent aiResponse (answeredAt env)]) c in
      let conversation :=
        withStep (updateConversationStep (currentStep c1) aiResponse) c1 in
      let w1 := setHeap (<[l := conversation]> (heap w0)) w0 in
      let url := gatherUrl baseUrl sid in
      (generateTwiML aiResponse
         (mkTwiMLOptions
            (orElseStr (voiceSetting (campaign conversation)) "alice")
            (orElseStr (languageSetting (campaign conversation)) "en-US")
            (Some url) true (Some url) (Some 5)
            (Some "I didn't hear anything. Are you still there?")),
       saveConversationState conversation (stateStored env) w1)
  end.

(** [handleCustomerSpeech(callSid, customerSpeech)] when nothing else
    runs during its wait for the response generator. *)
Definition handleCustomerSpeech (baseUrl sid customerSpeech : string)
    (env : SpeechEnv) (w : World) : list Verb * World :=
  match handleCustomerSpeech_begin baseUrl sid customerSpeech env w with
  | Replied twiml w' => (twiml, w')
  | AwaitingResponse l w' => handleCustomerSpeech_resume baseUrl sid l env w'
  end.

(** The promise that [handleCustomerSpeech] returns to the route
    handler that awaits it: the body is one [try] block and its [catch]
    block returns a document, so on every path the promise is fulfilled
    with a document and never rejected. *)
Definition handleCustomerSpeech_promise (baseUrl sid customerSpeech : string)
    (env : SpeechEnv) (w : World) : Completion (list Verb) * World :=
  let '(twiml, w') := handleCustomerSpeech baseUrl sid customerSpeech env w in
  (Normal twiml, w').

(** ** The outcome labels of a call document and the score table *)

(** The [enum] of [outcome] in src/models/Call.js. *)
Definition callOutcomeEnum : list string :=
  [ "sale"; "interested"; "not-interested"; "callback"; "voicemail";
    "wrong-number"; "no-answer" ].

(** The score table as the specification words it: the change by
    outcome, and the change by overall sentiment. *)
Definition specOutcomeDelta (outcome : string) : Z :=
  if String.eqb outcome "sale" then 30
  else if String.eqb outcome "interested" then 20
  else if String.eqb outcome "callback" then 10
  else if String.eqb outcome "not-interested" then -15
  else if String.eqb outcome "wrong-number" then -30
  else -5.

Definition specSentimentDelta (sentiment : option Sentiment) : Z :=
  match sentiment with
  | Some s =>
      match overall s with
      | JStr polarity =>
          if String.eqb polarity "positive" then 5
          else if String.eqb polarity "negative" then -5
          else 0
      | _ => 0
      end
  | None => 0
  end.

(** ** Placeholders in a template *)

(** The five patterns of [replacePlaceholders]. *)
Definition knownPlaceholders : list string :=
  [ "{firstName}"; "{lastName}"; "{fullName}"; "{company}"; "{jobTitle}" ].

(** A text holds a literal placeholder when an opening brace is
    followed, anywhere later, by a closing brace (the innermost such pair
    then encloses a brace-free name). *)
Fixpoint containsPlaceholder (s : string) : bool :=
  match s with
  | EmptyString => false
  | String c s' => (Ascii.eqb c "{" && occurs "}" s') || containsPlaceholder s'
  end.

(** Every opening brace of the text starts one of the five known
    placeholders; [skip] counts the code units of the current
    placeholder still to be passed over. *)
Fixpoint knownOnlyFrom (skip : nat) (s : string) : bool :=
  match s with
  | EmptyString => true
  | String c s' =>
      match skip with
      | S k => knownOnlyFrom k s'
      | O =>
          if Ascii.eqb c "{" then
            match List.find (fun p => startsWith p s) knownPlaceholders with
            | Some p => knownOnlyFrom (String.length p - 1) s'
            | None => false
            end
          else knownOnlyFrom 0 s'
      end
  end.

Definition knownOnly (s : string) : bool := knownOnlyFrom 0 s.

(** A field value without an opening brace and without a dollar sign. *)
Definition cleanValue (s : string) : bool :=
  negb (occurs "{" s) && negb (occurs "$" s).

Definition cleanLead (x : Lead) : bool :=
  cleanValue (firstName x) && cleanValue (orEmpty (lastName x))
  && cleanValue (orEmpty (company x)) && cleanValue (orEmpty (jobTitle x)).

(** A text built from code units other than the opening brace and from
    placeholders of the list [P]. *)
Inductive Template (P : list string) : string → Prop :=
  | template_end : Template P EmptyString
  | template_char c s :
      Ascii.eqb c "{" = false → Template P s → Template P (String c s)
  | template_placeholder p s :
      p ∈ P → Template P s → Template P (p +:+ s).

(** A template as the specification reads it: a sequence of literal
    code units and of placeholders. *)
Inductive Part : Type :=
  | Lit (c : ascii)
  | Placeholder (p : string).

(** The text of a template in which each placeholder [p] stands as
    [value p]. *)
Fixpoint renderWith (value : string → string) (parts : list Part) : string :=
  match parts with
  | [] => EmptyString
  | Lit c :: rest => String c (renderWith value rest)
  | Placeholder p :: rest => value p +:+ renderWith value rest
  end.

(** The template as it is written. *)
Definition templateText (parts : list Part) : string :=
  renderWith (fun p => p) parts.

(** What the specification puts for a placeholder: the field of the
    lead, the empty string for an absent one. *)
Definition placeholderValue (x : Lead) (p : string) : string :=
  if String.eqb p "{firstName}" then firstName x
  else if String.eqb p "{lastName}" then orEmpty (lastName x)
  else if String.eqb p "{fullName}" then fullName x
  else if String.eqb p "{company}" then orEmpty (company x)
  else if String.eqb p "{jobTitle}" then orEmpty (jobTitle x)
  else p.

(** The rendering of a template as the specification words it. *)
Definition render (parts : list Part) (x : Lead) : string :=
  renderWith (placeholderValue x) parts.

(** A literal code unit other than the opening brace, or one of the
    five known placeholders. *)
Definition knownPart (part : Part) : Prop :=
  match part with
  | Lit c => c ≠ "{"%char
  | Placeholder p => p ∈ knownPlaceholders
  end.

(** The values of the placeholders after one more [replace] pass. *)
Definition replaced (pat repl : string) (value : string → string) (p : string)
    : string :=
  if String.eqb p pat then repl else value p.

(** ** Further functions of the services *)

(** [\d] of a regular expression without the unicode flag. *)
Definition isDigit (c : ascii) : bool :=
  let n := N_of_ascii c in (48 <=? n)%N && (n <=? 57)%N.

(** [phoneNumber.replace(/\D/g, '')]. *)
Fixpoint removeNonDigits (s : string) : string :=
  match s with
  | EmptyString => EmptyString
  | String c s' =>
      if isDigit c then String c (removeNonDigits s') else removeNonDigits s'
  end.

(** [formatPhoneNumber(phoneNumber)] of class TwilioService. *)
Definition formatPhoneNumber (phoneNumber : string) : string :=
  let digits := removeNonDigits phoneNumber in
  if (String.length digits =? 10)%nat then "+1" +:+ digits
  else if (String.length digits =? 11)%nat && startsWith "1" digits
  then "+" +:+ digits
  else if (11 <? String.length digits)%nat then "+" +:+ digits
  else phoneNumber.

(** [getActiveConversationCount()]: [this.activeConversations.size]. *)
Definition getActiveConversationCount (w : World) : nat :=
  size (activeConversations w).

(** ** Invariants of the conversation state *)

(** Every active call SID names a conversation object that carries this
    SID. *)
Definition wellFormed (w : World) : Prop :=
  ∀ sid l, activeConversations w !! sid = Some l →
           ∃ c, heap w !! l = Some c ∧ callSid c = sid.

(** [c'] is a later state of the conversation [c]: the same call, lead,
    campaign and start time, and a transcript that starts with the
    transcript of [c]. *)
Definition continues (c c' : Conversation) : Prop :=
  callSid c' = callSid c ∧ leadId c' = leadId c ∧
  campaignId c' = campaignId c ∧ startTime c' = startTime c ∧
  conversationHistory c `prefix_of` conversationHistory c'.

(** From [w] to [w'] no conversation object is lost or re-identified, no
    transcript loses or changes a turn, and no call document is removed. *)
Definition grows (w w' : World) : Prop :=
  (∀ l c, heap w !! l = Some c → ∃ c', heap w' !! l = Some c' ∧ continues c c') ∧
  (length (callDocs w) ≤ length (callDocs w'))%nat.

(** The conversation [c] after one exchange: the customer's turn, the
    agent's answer, and the step the answer classifies to. *)
Definition answered (c : Conversation) (speech : string) (env : SpeechEnv)
    : Conversation :=
  withStep (updateConversationStep (currentStep c) (generatorAnswer env))
    (withHistory
       (conversationHistory c
        ++ [mkTurn customer speech (heardAt env);
            mkTurn agent (generatorAnswer env) (answeredAt env)]) c).

(** ** Sample data *)

Definition emptyProfile : LeadProfile :=
  mkLeadProfile JUndefined (JStr "no-timeline") (JBool false) [] [].

Definition ana : Lead :=
  mkLead "L1" "Ana" (Some "Lee") "+15550100" None None "new" 50 0 None None
    false None emptyProfile.

Definition lee : Lead :=
  mkLead "L3" "Ana" (Some "Lee") "+15550102" (Some "Acme") (Some "CTO") "new" 50 0
    None None false None emptyProfile.

Definition named (first : string) : Lead :=
  mkLead "L2" first None "+15550101" None None "new" 50 0 None None
    false None emptyProfile.

Definition customerTurns (n : nat) : list Turn :=
  replicate n (mkTurn customer "yes" 0).

Definition acme : Campaign :=
  mkCampaign "K1" (Some "Hi {firstName}, is this {fullName}?") None None None.

(** A neutral answer of the model, and a host on UTC. *)
Definition neutral : JsVal :=
  JObj [("overall", JStr "neutral"); ("score", JNum 0); ("confidence", JNum 0)].

Definition utc : TimeZone := fun _ _ => 0.

Definition quietEnd : EndEnv :=
  mkEndEnv 9000 (Normal neutral) (Normal ∅) "Call completed." true "D1"
    9100 true 9200 utc true true true.

Definition quietSpeech : SpeechEnv :=
  mkSpeechEnv 3000 quietEnd "Sure, what is your budget?" 9500 true.

(** A call that has been connected and greeted. *)
Definition connectedWorld : World :=
  (generateOpeningMessage "https://host" 0 2000
     (initializeConversation "CA1" ana acme 1000 10 emptyWorld).2).2.

(** The race of a status webhook with a speech webhook: the speech
    handler is suspended on the response generator, the call is ended
    and finalized, then the generator answers. *)
Definition raceSuspended : SpeechStep :=
  handleCustomerSpeech_begin "https://host" "CA1" "tell me more" quietSpeech
    connectedWorld.

Definition raceEnded : Completion (option CallSummary) * World :=
  match raceSuspended with
  | AwaitingResponse _ w => endConversation "CA1" "completed" quietEnd w
  | Replied _ w => (Throw "not suspended", w)
  end.

Definition raceResumed : list Verb * World :=
  match raceSuspended with
  | AwaitingResponse l _ =>
      handleCustomerSpeech_resume "https://host" "CA1" l quietSpeech raceEnded.2
  | Replied twiml w => (twiml, w)
  end.

(** Collaborators of which one fails: the campaign statistics cannot be
    written, or the call document cannot. *)
Definition statsFail : EndEnv :=
  mkEndEnv 9000 (Normal neutral) (Normal ∅) "Call completed." true "D1"
    9100 true 9200 utc true true false.

Definition saveFail : EndEnv :=
  mkEndEnv 9000 (Normal neutral) (Normal ∅) "Call completed." false "D1"
    9100 true 9200 utc true true true.

(** An end of the sample call that fails on the campaign statistics,
    and the retry, with a database that accepts a second document for
    the call SID and with one that refuses it. *)
Definition failedEnd : Completion (option CallSummary) * World :=
  endConversation "CA1" "completed" statsFail connectedWorld.

Definition retriedEnd : Completion (option CallSummary) * World :=
  endConversation "CA1" "completed" quietEnd failedEnd.2.

Definition refusedEnd : Completion (option CallSummary) * World :=
  endConversation "CA1" "completed" saveFail failedEnd.2.

(** A model that answers the text null to both requests. *)
Definition nullEnd : EndEnv :=
  mkEndEnv 9000 (Normal JNull) (Normal JNull) "Call completed." true "D1"
    9100 true 9200 utc true true true.

Definition speechWith (answers : EndEnv) : SpeechEnv :=
  mkSpeechEnv 3000 answers "Sure, what is your budget?" 9500 true.

(** Two calls in progress. *)
Definition twoCalls : World :=
  (initializeConversation "CA2" (named "Bo") acme 1500 10 connectedWorld).2.

(** ** Proof tools *)

(** Closed facts about membership in a list of literal strings. *)
Ltac decide_all :=
  repeat match goal with |- _ ∧ _ => split end;
  (eapply bool_decide_unpack; vm_compute; exact I).

(** The side condition of a [replace] pass, for lists of literal
    placeholders. *)
Ltac placeholder_cases :=
  intros p Hp; rewrite !elem_of_cons, elem_of_nil in Hp;
  repeat (destruct Hp as [->|Hp];
          [ first [ by left
                  | right; split;
                    [ eapply bool_decide_unpack; vm_compute; exact I
                    | eexists; split;
                      [ reflexivity
                      | split; [ reflexivity | intros ?; reflexivity ] ] ] ] | ]);
  done.

(** The value of a placeholder after some [replace] passes. *)
Ltac value_simpl :=
  repeat first [ rewrite (proj1 (String.eqb_eq _ _) eq_refl)
               | progress unfold replaced ];
  repeat match goal with
         | |- context [String.eqb ?a ?b] =>
             let r := eval vm_compute in (String.eqb a b) in
             change (String.eqb a b) with r
         end;
  cbn iota.

(** The side condition of a [replace] pass over a parsed template, for
    each of the five placeholders. *)
Ltac pass_case :=
  first
    [ left; split; [ reflexivity | value_simpl; reflexivity ]
    | right; left; split; [ done | value_simpl; assumption ]
    | right; right; split; [ done | ]; split; [ value_simpl; reflexivity | ];
      eexists; split; [ reflexivity | ];
      split; [ reflexivity | intros ?; reflexivity ] ].

Ltac pass_cases Hk :=
  eapply Forall_impl; [ exact Hk | ];
  intros [?|?] Hp; cbn [knownPart] in Hp |- *;
  [ by apply Ascii.eqb_neq
  | unfold knownPlaceholders in Hp; rewrite !elem_of_cons, elem_of_nil in Hp;
    repeat (destruct Hp as [->|Hp]; [ pass_case | ]); done ].

(* ================================================================== *)
(** * Properties *)

(** ** Strings *)

Lemma lowerChar_idemp (c : ascii) : lowerChar (lowerChar c) = lowerChar c.
Proof. destruct c as [[] [] [] [] [] [] [] []]; reflexivity. Qed.

Lemma toLowerCase_idemp (s : string) : toLowerCase (toLowerCase s) = toLowerCase s.
Proof.
  induction s as [|c s IH]; simpl; [reflexivity|].
  by rewrite lowerChar_idemp, IH.
Qed.

Lemma startsWith_spec (p s : string) :
  startsWith p s = true ↔ ∃ r, s = p +:+ r.
Proof.
  revert s. induction p as [|a p IH]; intros s; simpl.
  - split; [intros _; by exists s | done].
  - destruct s as [|b s].
    + split; [done | intros [r Hr]; discriminate].
    + rewrite andb_true_iff, Ascii.eqb_eq, IH. split.
      * intros [-> [r ->]]. by exists r.
      * intros [r Hr]. injection Hr as -> ->. eauto.
Qed.

Lemma includes_spec (s p : string) :
  includes s p = true ↔ ∃ a b, s = a +:+ p +:+ b.
Proof.
  induction s as [|c s IH]; simpl.
  - rewrite orb_false_r, startsWith_spec. split.
    + intros [r Hr]. by exists EmptyString, r.
    + intros [a [b Hab]]. destruct a; [by exists b | discriminate].
  - rewrite orb_true_iff, startsWith_spec, IH. split.
    + intros [[r Hr] | [a [b Hab]]].
      * by exists EmptyString, r.
      * exists (String c a), b. simpl. by rewrite Hab.
    + intros [a [b Hab]]. destruct a as [|c' a]; simpl in Hab.
      * left. by exists b.
      * right. injection Hab as -> ->. eauto.
Qed.

Lemma existsb_elem_of {A} (f : A → bool) (l : list A) :
  existsb f l = true ↔ ∃ x, x ∈ l ∧ f x = true.
Proof.
  rewrite existsb_exists. split; intros [x [Hx Hf]]; exists x;
    (split; [by apply list_elem_of_In | done]).
Qed.

(** ** Termination detector *)

(** C5.  [shouldEndCall] is a case-insensitive substring match against
    the fixed list [terminationPhrases]: an utterance and its lowercased
    form get the same answer, two utterances that differ only in case get
    the same answer, the answer is yes exactly when the lowercased
    utterance contains one of the phrases, and the two utterances of the
    specification get yes and no. *)
Theorem shouldEndCall_case_insensitive :
  (∀ s, shouldEndCall s = shouldEndCall (toLowerCase s)) ∧
  (∀ s t, toLowerCase s = toLowerCase t → shouldEndCall s = shouldEndCall t) ∧
  (∀ s, shouldEndCall s = true ↔
        ∃ phrase a b, phrase ∈ terminationPhrases ∧
                      toLowerCase s = a +:+ phrase +:+ b) ∧
  shouldEndCall "please remove me from your list" = true ∧
  shouldEndCall "I'm interested, tell me more" = false.
Proof.
  repeat split.
  - intros s. unfold shouldEndCall. by rewrite toLowerCase_idemp.
  - intros s t H. unfold shouldEndCall. by rewrite H.
  - unfold shouldEndCall. rewrite existsb_elem_of.
    intros [phrase [Hin Hinc]]. apply includes_spec in Hinc as [a [b Hab]].
    by exists phrase, a, b.
  - intros [phrase [a [b [Hin Hab]]]]. unfold shouldEndCall.
    apply existsb_elem_of. exists phrase. split; [done|].
    apply includes_spec. by exists a, b.
Qed.

(** ** Outcome resolver *)

Lemma determineCallOutcome_customer_requested h info :
  determineCallOutcome h info "customer-requested" = Normal "not-interested".
Proof. reflexivity. Qed.

Lemma determineCallOutcome_signal h info reason :
  reason ≠ "customer-requested" →
  (truthy (getProp info "nextSteps") || truthy (getProp info "interests")) = true →
  determineCallOutcome h info reason = Normal "interested".
Proof.
  intros Hr Hs. unfold determineCallOutcome.
  destruct (String.eqb_spec reason "customer-requested") as [->|_]; [done|].
  by rewrite Hs.
Qed.

Lemma determineCallOutcome_no_signal h info reason :
  reason ≠ "customer-requested" →
  (truthy (getProp info "nextSteps") || truthy (getProp info "interests")) = false →
  determineCallOutcome h info reason =
    Normal (if (length (customerMessages h) <? 2)%nat then "no-answer"
            else if (5 <? length (customerMessages h))%nat then "interested"
            else "not-interested").
Proof.
  intros Hr Hs. unfold determineCallOutcome.
  destruct (String.eqb_spec reason "customer-requested") as [->|_]; [done|].
  rewrite Hs. apply orb_false_iff in Hs as [-> _].
  by repeat case_match.
Qed.

Lemma getProp_empty name : getProp ∅ name = JUndefined.
Proof. unfold getProp. by rewrite lookup_empty. Qed.

(** C1.  Priority of the outcome resolver: an end by customer request
    resolves to not-interested whatever the transcript and the signals
    are; with an empty signals record and any other end reason, fewer
    than 2 customer turns resolve to no-answer, more than 5 to
    interested, and 2 to 5 to not-interested. *)
Theorem determineCallOutcome_priority :
  (∀ h info, determineCallOutcome h info "customer-requested" = Normal "not-interested") ∧
  (∀ h reason, reason ≠ "customer-requested" →
     ((length (customerMessages h) < 2)%nat →
        determineCallOutcome h ∅ reason = Normal "no-answer") ∧
     ((5 < length (customerMessages h))%nat →
        determineCallOutcome h ∅ reason = Normal "interested") ∧
     ((2 ≤ length (customerMessages h) ≤ 5)%nat →
        determineCallOutcome h ∅ reason = Normal "not-interested")).
Proof.
  split; [apply determineCallOutcome_customer_requested|].
  intros h reason Hr.
  rewrite (determineCallOutcome_no_signal h ∅ reason Hr)
    by (by rewrite !getProp_empty).
  repeat split; intros Hn.
  - by apply Nat.ltb_lt in Hn as ->.
  - destruct (Nat.ltb_spec (length (customerMessages h)) 2); [lia|].
    by apply Nat.ltb_lt in Hn as ->.
  - destruct (Nat.ltb_spec (length (customerMessages h)) 2); [lia|].
    destruct (Nat.ltb_spec 5 (length (customerMessages h))); [lia|done].
Qed.

(** The three transcripts of the specification: no turn with a customer
    request, six customer turns, one customer turn. *)
Lemma determineCallOutcome_priority_witness :
  determineCallOutcome [] ∅ "customer-requested" = Normal "not-interested" ∧
  determineCallOutcome (customerTurns 6) ∅ "provider-signaled-completion"
    = Normal "interested" ∧
  determineCallOutcome (customerTurns 1) ∅ "provider-signaled-completion"
    = Normal "no-answer" ∧
  determineCallOutcome (customerTurns 3) ∅ "completed" = Normal "not-interested".
Proof.
  split; [apply (proj1 determineCallOutcome_priority)|].
  split; [apply (proj2 determineCallOutcome_priority); [done | vm_compute; lia]|].
  split; [apply (proj2 determineCallOutcome_priority); [done | vm_compute; lia]|].
  apply (proj2 determineCallOutcome_priority); [done | vm_compute; lia].
Defined.

(** C2.  The interested rule is checked before the callback rule: when
    [nextSteps] is present (truthy) and the end reason is not a customer
    request, the outcome is interested, also when [nextSteps] is a text
    or a list that mentions a callback. *)
Theorem determineCallOutcome_interested_before_callback h info reason :
  reason ≠ "customer-requested" →
  truthy (getProp info "nextSteps") = true →
  determineCallOutcome h info reason = Normal "interested".
Proof.
  intros Hr Hn. apply determineCallOutcome_signal; [done|]. by rewrite Hn.
Qed.

Lemma determineCallOutcome_interested_before_callback_witness :
  jsIncludes (JStr "please callback tomorrow") "callback" = Normal true ∧
  determineCallOutcome (customerTurns 3)
    (<["nextSteps" := JStr "please callback tomorrow"]> ∅) "completed"
    = Normal "interested".
Proof.
  split; [reflexivity|].
  apply determineCallOutcome_interested_before_callback; [done|].
  unfold getProp. by rewrite lookup_insert_eq.
Defined.

(** The callback rule stands behind a rule that has already returned
    when its own condition holds: no input resolves to callback. *)
Lemma determineCallOutcome_never_callback h info reason :
  determineCallOutcome h info reason ≠ Normal "callback".
Proof.
  destruct (String.eqb_spec reason "customer-requested") as [->|Hr]; [done|].
  destruct (truthy (getProp info "nextSteps") || truthy (getProp info "interests"))
    eqn:Hs.
  - by rewrite determineCallOutcome_signal.
  - rewrite determineCallOutcome_no_signal by done. by repeat case_match.
Qed.

(** The resolver never throws: its [includes] call is only reached
    behind a test that has failed. *)
Lemma determineCallOutcome_returns h info reason :
  ∃ o, determineCallOutcome h info reason = Normal o.
Proof.
  destruct (String.eqb_spec reason "customer-requested") as [->|Hr]; [by eexists|].
  destruct (truthy (getProp info "nextSteps") || truthy (getProp info "interests"))
    eqn:Hs.
  - rewrite determineCallOutcome_signal by done. by eexists.
  - rewrite determineCallOutcome_no_signal by done. by eexists.
Qed.

(** C10.  The outcome resolver always returns, and what it returns is
    one of not-interested, interested, callback, no-answer: never sale,
    voicemail or wrong-number, which the Call schema also lists as
    outcomes. *)
Theorem determineCallOutcome_range h info reason :
  ∃ o, determineCallOutcome h info reason = Normal o ∧
       o ∈ ["not-interested"; "interested"; "callback"; "no-answer"] ∧
       o ∈ callOutcomeEnum ∧
       (o ∉ ["sale"; "voicemail"; "wrong-number"]) ∧
       ["sale"; "voicemail"; "wrong-number"] ⊆ callOutcomeEnum.
Proof.
  destruct (String.eqb_spec reason "customer-requested") as [->|Hr].
  { exists "not-interested". split; [done | decide_all]. }
  destruct (truthy (getProp info "nextSteps") || truthy (getProp info "interests"))
    eqn:Hs.
  { exists "interested". rewrite determineCallOutcome_signal by done.
    split; [done | decide_all]. }
  rewrite determineCallOutcome_no_signal by done.
  eexists. split; [reflexivity|].
  repeat case_match; decide_all.
Qed.

(** ** Lead feedback *)

Lemma outcomeSwitch_delta lead o :
  (outcomeSwitch lead o).1 = specOutcomeDelta o.
Proof. unfold outcomeSwitch, specOutcomeDelta. by repeat case_match. Qed.

Lemma outcomeSwitch_score lead o :
  score (outcomeSwitch lead o).2 = score lead.
Proof. unfold outcomeSwitch. by repeat case_match. Qed.

Lemma outcomeSwitch_doNotCall lead o :
  doNotCall lead = true → doNotCall (outcomeSwitch lead o).2 = true.
Proof. intros H. unfold outcomeSwitch. by repeat case_match. Qed.

Lemma sentimentAdjust_delta change sentiment :
  sentimentAdjust change sentiment = change + specSentimentDelta sentiment.
Proof.
  unfold sentimentAdjust, specSentimentDelta.
  destruct sentiment as [[ov sc]|]; simpl; [|lia].
  destruct ov as [| | | |s| |]; simpl; try lia.
  repeat case_match; lia.
Qed.

Lemma updateScore_score lead o sentiment now :
  score (updateScore lead o sentiment now) =
    Z.max 0 (Z.min 100 (score lead + (specOutcomeDelta o + specSentimentDelta sentiment))).
Proof.
  unfold updateScore.
  pose proof (outcomeSwitch_delta lead o) as Hd.
  pose proof (outcomeSwitch_score lead o) as Hs.
  destruct (outcomeSwitch lead o) as [change lead1]. simpl in *.
  by rewrite sentimentAdjust_delta, Hd, Hs.
Qed.

Lemma updateScore_doNotCall lead o sentiment now :
  doNotCall lead = true → doNotCall (updateScore lead o sentiment now) = true.
Proof.
  intros H. unfold updateScore.
  pose proof (outcomeSwitch_doNotCall lead o H) as Hd.
  by destruct (outcomeSwitch lead o) as [change lead1].
Qed.

(** C7.  [updateScore] moves the score by the outcome's entry of the
    table (sale +30, interested +20, callback +10, not-interested -15,
    wrong-number -30, any other outcome -5), plus 5 for a positive and
    minus 5 for a negative overall sentiment, and clamps the result to
    0..100.  A wrong-number outcome on a score of 50 with no sentiment
    gives 20, sets [doNotCall] and the status do-not-call, so that the
    lead is not callable; no later [updateScore] makes it callable
    again. *)
Theorem updateScore_table :
  (∀ lead o sentiment now,
     score (updateScore lead o sentiment now) =
       Z.max 0 (Z.min 100 (score lead + (specOutcomeDelta o + specSentimentDelta sentiment)))
     ∧ 0 ≤ score (updateScore lead o sentiment now) ≤ 100) ∧
  (specOutcomeDelta "sale" = 30 ∧ specOutcomeDelta "interested" = 20 ∧
   specOutcomeDelta "callback" = 10 ∧ specOutcomeDelta "not-interested" = -15 ∧
   specOutcomeDelta "wrong-number" = -30 ∧
   ∀ o, o ∉ ["sale"; "interested"; "callback"; "not-interested"; "wrong-number"] →
        specOutcomeDelta o = -5) ∧
  (∀ lead now, score lead = 50 →
     let lead' := updateScore lead "wrong-number" None now in
     score lead' = 20 ∧ doNotCall lead' = true ∧ status lead' = "do-not-call" ∧
     isCallable lead' = false ∧
     ∀ o sentiment later, isCallable (updateScore lead' o sentiment later) = false).
Proof.
  split; [|split].
  - intros. rewrite updateScore_score. lia.
  - repeat split. intros o Ho. unfold specOutcomeDelta.
    rewrite !elem_of_cons, elem_of_nil in Ho.
    repeat match goal with
           | |- context [String.eqb o ?x] =>
               destruct (String.eqb_spec o x); [tauto|]
           end.
    done.
  - intros lead now H50 lead'.
    assert (Hd : doNotCall lead' = true) by done.
    repeat split; try done.
    + subst lead'. rewrite updateScore_score, H50. done.
    + intros. unfold isCallable. by rewrite updateScore_doNotCall.
Qed.

Lemma updateScore_table_witness :
  score (updateScore ana "wrong-number" None 1000) = 20 ∧
  doNotCall (updateScore ana "wrong-number" None 1000) = true ∧
  status (updateScore ana "wrong-number" None 1000) = "do-not-call".
Proof.
  pose proof (proj2 (proj2 updateScore_table) ana 1000 eq_refl) as H.
  simpl in H. tauto.
Defined.

(** ** Conversation orchestrator *)

Lemma lookupConversation_None w sid :
  activeConversations w !! sid = None → lookupConversation w sid = None.
Proof. intros H. unfold lookupConversation. by rewrite H. Qed.

Lemma lookupConversation_Some w sid l c :
  lookupConversation w sid = Some (l, c) →
  activeConversations w !! sid = Some l ∧ heap w !! l = Some c.
Proof.
  unfold lookupConversation. intros H.
  destruct (activeConversations w !! sid) as [l'|]; [|done].
  destruct (heap w !! l') as [c'|] eqn:Hh; [|done].
  by injection H as -> ->.
Qed.

(** C3 as the code has it.  A customer turn for a call SID without an
    active conversation does not make [handleCustomerSpeech] fail: it
    writes the error line and returns, without consulting the response
    generator, the document that says goodbye and hangs up.  It creates
    nothing: the active map, the conversation objects, the Call
    collection and the Lead collection are as before, so the SID still
    has no state and no call record has come into existence. *)
Theorem handleCustomerSpeech_unknown_call baseUrl sid speech env w :
  activeConversations w !! sid = None →
  handleCustomerSpeech_begin baseUrl sid speech env w =
    Replied (generateHangupTwiML "Thank you for calling. Goodbye!")
            (logMsg LError "No active conversation found" w) ∧
  (handleCustomerSpeech_promise baseUrl sid speech env w).1 =
    Normal [Say "alice" "en-US" "Thank you for calling. Goodbye!"; Hangup] ∧
  (handleCustomerSpeech baseUrl sid speech env w).1 =
    [Say "alice" "en-US" "Thank you for calling. Goodbye!"; Hangup] ∧
  let w' := (handleCustomerSpeech baseUrl sid speech env w).2 in
  activeConversations w' = activeConversations w ∧
  heap w' = heap w ∧
  callDocs w' = callDocs w ∧
  leadDocs w' = leadDocs w ∧
  logs w' = logs w ++ [(LError, "No active conversation found")] ∧
  activeConversations w' !! sid = None ∧
  lookupConversation w' sid = None.
Proof.
  intros Hnone.
  unfold handleCustomerSpeech_promise, handleCustomerSpeech, handleCustomerSpeech_begin.
  rewrite (lookupConversation_None _ _ Hnone). simpl.
  repeat split; try done.
  by apply lookupConversation_None.
Qed.

Lemma handleCustomerSpeech_unknown_call_witness :
  handleCustomerSpeech "https://host" "CALL-X" "hello" quietSpeech emptyWorld =
    ([Say "alice" "en-US" "Thank you for calling. Goodbye!"; Hangup],
     mkWorld ∅ [] [] ∅ [(LError, "No active conversation found")]).
Proof.
  pose proof (handleCustomerSpeech_unknown_call "https://host" "CALL-X" "hello"
                quietSpeech emptyWorld (lookup_empty _)) as [_ [_ [Ht Hw]]].
  destruct (handleCustomerSpeech "https://host" "CALL-X" "hello" quietSpeech emptyWorld)
    as [twiml [a h c d g]].
  simpl in *. destruct Hw as (-> & -> & -> & -> & -> & _). by rewrite Ht.
Defined.

(** C3, refuted as stated: the turn for the call SID "CALL-X", which
    was never initialized, is not answered with an error.  The promise
    of [handleCustomerSpeech] is fulfilled, with a document that says
    goodbye and hangs up. *)
Lemma handleCustomerSpeech_unknown_call_fulfilled :
  handleCustomerSpeech_promise "https://host" "CALL-X" "hello" quietSpeech emptyWorld
    = (Normal [Say "alice" "en-US" "Thank you for calling. Goodbye!"; Hangup],
       logMsg LError "No active conversation found" emptyWorld).
Proof. reflexivity. Qed.

Lemma initializeConversation_lookup sid lead0 campaign0 now hour w :
  (initializeConversation sid lead0 campaign0 now hour w).1 = Normal (length (heap w)) ∧
  lookupConversation (initializeConversation sid lead0 campaign0 now hour w).2 sid =
    Some (length (heap w), freshConversation sid lead0 campaign0 now hour).
Proof.
  split; [done|]. unfold lookupConversation. simpl.
  rewrite lookup_insert_eq.
  by rewrite lookup_app_r, Nat.sub_diag by lia.
Qed.

(** C4 as the code has it.  [initializeConversation] has no check for an
    existing conversation: on a call SID that already has one it
    returns normally, and the SID then names a new object with an empty
    history, step opening and the new start time; the earlier object is
    left as it was but is no longer reachable through the active map. *)
Theorem initializeConversation_replaces sid lead0 campaign0 now hour w l c :
  lookupConversation w sid = Some (l, c) →
  ∃ l', (initializeConversation sid lead0 campaign0 now hour w).1 = Normal l' ∧
        l' ≠ l ∧
        lookupConversation (initializeConversation sid lead0 campaign0 now hour w).2 sid
          = Some (l', freshConversation sid lead0 campaign0 now hour) ∧
        conversationHistory (freshConversation sid lead0 campaign0 now hour) = [] ∧
        currentStep (freshConversation sid lead0 campaign0 now hour) = "opening" ∧
        startTime (freshConversation sid lead0 campaign0 now hour) = now ∧
        heap (initializeConversation sid lead0 campaign0 now hour w).2 !! l = Some c.
Proof.
  intros Hl. apply lookupConversation_Some in Hl as [_ Hh].
  exists (length (heap w)).
  destruct (initializeConversation_lookup sid lead0 campaign0 now hour w) as [H1 H2].
  repeat split; try done.
  - apply lookup_lt_Some in Hh. lia.
  - simpl. by apply lookup_app_l_Some.
Qed.

Lemma initializeConversation_replaces_witness :
  ∃ l', (initializeConversation "CA1" ana acme 5000 15 connectedWorld).1 = Normal l' ∧
        lookupConversation
          (initializeConversation "CA1" ana acme 5000 15 connectedWorld).2 "CA1"
          = Some (l', freshConversation "CA1" ana acme 5000 15).
Proof.
  destruct (initializeConversation_replaces "CA1" ana acme 5000 15 connectedWorld 0%nat
              (mkConversation "CA1" "L1" "K1" ana acme
                 [mkTurn agent "Hi Ana, is this Ana Lee?" 2000] "opening" 1000
                 (mkCallContext 1 "morning"))
              eq_refl) as (l' & H1 & _ & H2 & _).
  exists l'. by split.
Defined.

(** C4, refuted as stated: the second [initializeConversation] for
    "CA1" is not rejected, and the transcript and start time that the
    call had are not what its state holds afterwards. *)
Lemma initializeConversation_duplicate_accepted :
  (conversationHistory <$> (snd <$> lookupConversation connectedWorld "CA1"))
    = Some [mkTurn agent "Hi Ana, is this Ana Lee?" 2000] ∧
  (startTime <$> (snd <$> lookupConversation connectedWorld "CA1")) = Some 1000 ∧
  (initializeConversation "CA1" ana acme 5000 15 connectedWorld).1 = Normal 1%nat ∧
  (conversationHistory <$>
     (snd <$> lookupConversation
                (initializeConversation "CA1" ana acme 5000 15 connectedWorld).2 "CA1"))
    = Some [] ∧
  (startTime <$>
     (snd <$> lookupConversation
                (initializeConversation "CA1" ana acme 5000 15 connectedWorld).2 "CA1"))
    = Some 5000.
Proof. repeat split. Qed.

(** An [endConversation] on an active call, when nothing else runs
    during its waits. *)
Lemma endConversation_active sid reason env w l c :
  lookupConversation w sid = Some (l, c) →
  endConversation sid reason env w =
    endConversation_resume sid reason l
      ((endTime env - startTime c + 500) / 1000)
      (analyzeSentiment (conversationHistory c) (sentimentReply env)) env w.
Proof. intros H. unfold endConversation, endConversation_begin. by rewrite H. Qed.

Lemma endConversation_absent sid reason env w :
  activeConversations w !! sid = None →
  endConversation sid reason env w =
    (Normal None, logMsg LWarn "Attempted to end non-existent conversation" w).
Proof.
  intros H. unfold endConversation, endConversation_begin.
  by rewrite (lookupConversation_None _ _ H).
Qed.

(** The second half of [endConversation] with an outcome and a database
    that accepts the call document: what it has done up to and after the
    update of the campaign statistics. *)
Lemma endConversation_resume_saved sid reason l seconds sentiment env w c o :
  heap w !! l = Some c →
  determineCallOutcomeOf (conversationHistory c)
    (extractInformation (extractionReply env)) reason = Normal o →
  callSaved env = true →
  callDocs (endConversation_resume sid reason l seconds sentiment env w).2
    = callDocs w ++ [completedCallDoc sid c env seconds sentiment o] ∧
  heap (endConversation_resume sid reason l seconds sentiment env w).2
    = alter (withLead (updateLeadFromConversation (lead c)
                         (extractInformation (extractionReply env))
                         o sentiment env).1.1) l (heap w) ∧
  (statsUpdated env = false →
   (endConversation_resume sid reason l seconds sentiment env w).1
     = Throw "campaign.updateStats() rejected" ∧
   activeConversations (endConversation_resume sid reason l seconds sentiment env w).2
     = activeConversations w) ∧
  (statsUpdated env = true →
   (endConversation_resume sid reason l seconds sentiment env w).1
     = (if nullish sentiment
        then Throw "TypeError: Cannot read properties of null (reading 'score')"
        else Normal (Some (mkCallSummary (newCallId env) o seconds sentiment
                             (extractInformation (extractionReply env))))) ∧
   activeConversations (endConversation_resume sid reason l seconds sentiment env w).2
     = delete sid (activeConversations w)).
Proof.
  intros Hc Ho Hs. unfold endConversation_resume. rewrite Hc, Ho, Hs. cbn [negb].
  destruct (updateLeadFromConversation _ _ _ _ _) as [[leadAfter written] finished].
  destruct (statsUpdated env); cbn [negb fst snd].
  - split; [by destruct written, finished, (nullish sentiment)|].
    split; [by destruct written, finished, (nullish sentiment)|].
    split; [done|]. intros _.
    by destruct written, finished, (nullish sentiment).
  - split; [by destruct written, finished|].
    split; [by destruct written, finished|].
    split; [|done]. intros _. by destruct written, finished.
Qed.

(** The second half of [endConversation] without an outcome, or with a
    database that refuses the call document: nothing but the log has
    changed. *)
Lemma endConversation_resume_unsaved sid reason l seconds sentiment env w c :
  heap w !! l = Some c →
  (∃ e, determineCallOutcomeOf (conversationHistory c)
          (extractInformation (extractionReply env)) reason = Throw e)
  ∨ callSaved env = false →
  (∃ e, (endConversation_resume sid reason l seconds sentiment env w).1 = Throw e) ∧
  (endConversation_resume sid reason l seconds sentiment env w).2
    = logMsg LError "Failed to end conversation" w.
Proof.
  intros Hc H. unfold endConversation_resume. rewrite Hc.
  destruct H as [[e ->]|Hs]; [by eauto|].
  rewrite Hs. destruct (determineCallOutcomeOf _ _ _); by eauto.
Qed.

(** What a successful [endConversation] has done. *)
Lemma endConversation_success_inv sid reason env w summary w1 :
  endConversation sid reason env w = (Normal (Some summary), w1) →
  ∃ l c,
    lookupConversation w sid = Some (l, c) ∧
    callSaved env = true ∧ statsUpdated env = true ∧
    determineCallOutcomeOf (conversationHistory c)
      (extractInformation (extractionReply env)) reason = Normal (outcome summary) ∧
    duration summary = (endTime env - startTime c + 500) / 1000 ∧
    summarySentiment summary
      = analyzeSentiment (conversationHistory c) (sentimentReply env) ∧
    nullish (summarySentiment summary) = false ∧
    callDocs w1
      = callDocs w ++ [completedCallDoc sid c env (duration summary)
                         (summarySentiment summary) (outcome summary)] ∧
    activeConversations w1 = delete sid (activeConversations w) ∧
    heap w1 = alter (withLead (updateLeadFromConversation (lead c)
                                 (extractInformation (extractionReply env))
                                 (outcome summary) (summarySentiment summary) env).1.1)
                l (heap w).
Proof.
  intros H.
  destruct (lookupConversation w sid) as [[l c]|] eqn:Hl.
  2:{ unfold endConversation, endConversation_begin in H. by rewrite Hl in H. }
  rewrite (endConversation_active _ _ _ _ _ _ Hl) in H.
  pose proof Hl as Hl0. apply lookupConversation_Some in Hl0 as [_ Hc].
  destruct (determineCallOutcomeOf (conversationHistory c)
              (extractInformation (extractionReply env)) reason) as [o|e] eqn:Ho.
  2:{ unfold endConversation_resume in H. by rewrite Hc, Ho in H. }
  destruct (callSaved env) eqn:Hs.
  2:{ unfold endConversation_resume in H. by rewrite Hc, Ho, Hs in H. }
  destruct (endConversation_resume_saved sid reason l
              ((endTime env - startTime c + 500) / 1000)
              (analyzeSentiment (conversationHistory c) (sentimentReply env))
              env w c o Hc Ho Hs) as (Hd & Hh & Hno & Hok).
  rewrite H in Hd, Hh, Hno, Hok. cbn [fst snd] in *.
  destruct (statsUpdated env).
  2:{ by destruct (Hno eq_refl). }
  destruct (Hok eq_refl) as [Hr Ha].
  destruct (nullish (analyzeSentiment (conversationHistory c) (sentimentReply env)))
    eqn:Hn; [done|].
  injection Hr as ->. cbn [outcome duration summarySentiment].
  exists l, c. by rewrite Hn.
Qed.

(** An active call is finalized when an outcome is found, the database
    accepts the call document and the campaign statistics, and the
    sentiment is not [null]. *)
Lemma endConversation_succeeds sid reason env w l c o :
  lookupConversation w sid = Some (l, c) →
  determineCallOutcomeOf (conversationHistory c)
    (extractInformation (extractionReply env)) reason = Normal o →
  callSaved env = true → statsUpdated env = true →
  nullish (analyzeSentiment (conversationHistory c) (sentimentReply env)) = false →
  (endConversation sid reason env w).1
    = Normal (Some (mkCallSummary (newCallId env) o
                      ((endTime env - startTime c + 500) / 1000)
                      (analyzeSentiment (conversationHistory c) (sentimentReply env))
                      (extractInformation (extractionReply env)))).
Proof.
  intros Hl Ho Hs Hu Hn. rewrite (endConversation_active _ _ _ _ _ _ Hl).
  apply lookupConversation_Some in Hl as [_ Hc].
  destruct (endConversation_resume_saved sid reason l
              ((endTime env - startTime c + 500) / 1000)
              (analyzeSentiment (conversationHistory c) (sentimentReply env))
              env w c o Hc Ho Hs) as (_ & _ & _ & Hok).
  destruct (Hok Hu) as [-> _]. by rewrite Hn.
Qed.

Lemma endConversation_inactive sid reason env w :
  lookupConversation w sid = None →
  endConversation sid reason env w =
    (Normal None, logMsg LWarn "Attempted to end non-existent conversation" w).
Proof. intros H. unfold endConversation, endConversation_begin. by rewrite H. Qed.

(** [endConversation] on an active call with an outcome and a database
    that accepts the call document, up to and after the update of the
    campaign statistics. *)
Lemma endConversation_saved sid reason env w l c o :
  lookupConversation w sid = Some (l, c) →
  determineCallOutcomeOf (conversationHistory c)
    (extractInformation (extractionReply env)) reason = Normal o →
  callSaved env = true →
  let seconds := (endTime env - startTime c + 500) / 1000 in
  let sentiment := analyzeSentiment (conversationHistory c) (sentimentReply env) in
  callDocs (endConversation sid reason env w).2
    = callDocs w ++ [completedCallDoc sid c env seconds sentiment o] ∧
  heap (endConversation sid reason env w).2
    = alter (withLead (updateLeadFromConversation (lead c)
                         (extractInformation (extractionReply env))
                         o sentiment env).1.1) l (heap w) ∧
  (statsUpdated env = false →
   (endConversation sid reason env w).1 = Throw "campaign.updateStats() rejected" ∧
   activeConversations (endConversation sid reason env w).2 = activeConversations w) ∧
  (statsUpdated env = true →
   (endConversation sid reason env w).1
     = (if nullish sentiment
        then Throw "TypeError: Cannot read properties of null (reading 'score')"
        else Normal (Some (mkCallSummary (newCallId env) o seconds sentiment
                             (extractInformation (extractionReply env))))) ∧
   activeConversations (endConversation sid reason env w).2
     = delete sid (activeConversations w)).
Proof.
  intros Hl Ho Hs seconds sentiment.
  rewrite (endConversation_active _ _ _ _ _ _ Hl).
  apply lookupConversation_Some in Hl as [_ Hc].
  by apply endConversation_resume_saved.
Qed.

(** [endConversation] on an active call without an outcome, or with a
    database that refuses the call document. *)
Lemma endConversation_unsaved sid reason env w l c :
  lookupConversation w sid = Some (l, c) →
  (∃ e, determineCallOutcomeOf (conversationHistory c)
          (extractInformation (extractionReply env)) reason = Throw e)
  ∨ callSaved env = false →
  (∃ e, (endConversation sid reason env w).1 = Throw e) ∧
  (endConversation sid reason env w).2 = logMsg LError "Failed to end conversation" w.
Proof.
  intros Hl H. rewrite (endConversation_active _ _ _ _ _ _ Hl).
  apply lookupConversation_Some in Hl as [_ Hc].
  by apply (endConversation_resume_unsaved _ _ _ _ _ _ _ c).
Qed.

(** C8 as the code has it.  An [endConversation] that returns a summary
    has added one document for the call SID to the Call collection,
    completed and carrying the outcome it returns, and has removed the
    SID from the active map.  An [endConversation] for that SID that
    follows it returns null and writes a warning line and nothing else:
    no call document, no lead document and no conversation object is
    touched, and the SID stays absent. *)
Theorem endConversation_idempotent sid reason env w summary w1 :
  endConversation sid reason env w = (Normal (Some summary), w1) →
  (∃ doc, callDocs w1 = callDocs w ++ [doc] ∧
          doc_callSid doc = sid ∧ doc_status doc = "completed" ∧
          doc_outcome doc = outcome summary) ∧
  activeConversations w1 !! sid = None ∧
  lookupConversation w1 sid = None ∧
  ∀ reason' env',
    (endConversation sid reason' env' w1).1 = Normal None ∧
    let w2 := (endConversation sid reason' env' w1).2 in
    callDocs w2 = callDocs w1 ∧
    leadDocs w2 = leadDocs w1 ∧
    heap w2 = heap w1 ∧
    activeConversations w2 = activeConversations w1 ∧
    logs w2 = logs w1 ++ [(LWarn, "Attempted to end non-existent conversation")].
Proof.
  intros H.
  apply endConversation_success_inv in H
    as (l & c & _ & _ & _ & _ & _ & _ & _ & Hdocs & Hact & _).
  assert (Hnone : activeConversations w1 !! sid = None).
  { rewrite Hact. apply lookup_delete_eq. }
  split; [by eexists|]. split; [done|].
  split; [by apply lookupConversation_None|].
  intros reason' env'. by rewrite (endConversation_absent _ _ _ _ Hnone).
Qed.

Lemma endConversation_idempotent_witness :
  (endConversation "CA1" "completed" quietEnd connectedWorld).1
    = Normal (Some (mkCallSummary "D1" "no-answer" 8 neutral ∅)) ∧
  (endConversation "CA1" "completed" quietEnd
     (endConversation "CA1" "completed" quietEnd connectedWorld).2).1 = Normal None ∧
  length (callDocs (endConversation "CA1" "completed" quietEnd
     (endConversation "CA1" "completed" quietEnd connectedWorld).2).2) = 1%nat.
Proof.
  split; [reflexivity|].
  pose proof (endConversation_idempotent "CA1" "completed" quietEnd connectedWorld
                (mkCallSummary "D1" "no-answer" 8 neutral ∅)
                (endConversation "CA1" "completed" quietEnd connectedWorld).2
                eq_refl) as (_ & _ & _ & H).
  destruct (H "completed" quietEnd) as [H1 [H2 _]].
  split; [exact H1|]. rewrite H2. reflexivity.
Defined.

(** C8, refuted as stated: the outcome persisted for a call SID need
    not be the only one.  The first [endConversation] of the sample call
    stores its call document and then fails on the campaign statistics:
    it throws and the call stays active.  The second one succeeds, and
    the Call collection then holds two completed documents with an
    outcome for the one call SID.  With a database that refuses a second
    document for the SID, the second [endConversation] throws instead
    and the state of the call is not removed. *)
Lemma endConversation_second_outcome :
  failedEnd.1 = Throw "campaign.updateStats() rejected" ∧
  (fst <$> lookupConversation failedEnd.2 "CA1") = Some 0%nat ∧
  ((λ d, (doc_callSid d, doc_status d, doc_outcome d)) <$> callDocs failedEnd.2)
    = [("CA1", "completed", "no-answer")] ∧
  retriedEnd.1 = Normal (Some (mkCallSummary "D1" "no-answer" 8 neutral ∅)) ∧
  lookupConversation retriedEnd.2 "CA1" = None ∧
  ((λ d, (doc_callSid d, doc_status d, doc_outcome d)) <$> callDocs retriedEnd.2)
    = [("CA1", "completed", "no-answer"); ("CA1", "completed", "no-answer")] ∧
  refusedEnd.1 = Throw "call.save() rejected" ∧
  (fst <$> lookupConversation refusedEnd.2 "CA1") = Some 0%nat.
Proof. repeat split. Qed.

Lemma updateFirstDoc_stored sid history docs docs' :
  updateFirstDoc sid history docs = Some docs' →
  ∃ doc, doc ∈ docs' ∧ doc_callSid doc = sid ∧
         doc_status doc = "in-progress" ∧ doc_conversation doc = history.
Proof.
  revert docs'. induction docs as [|d rest IH]; intros docs' H; simpl in H; [done|].
  destruct (String.eqb_spec (doc_callSid d) sid) as [Heq|Hne].
  - injection H as <-. eexists. split; [apply list_elem_of_here|]. by simpl.
  - destruct (updateFirstDoc sid history rest) as [rest'|]; [|done].
    injection H as <-. destruct (IH rest' eq_refl) as (doc & Hin & Hrest).
    exists doc. split; [by apply list_elem_of_further | done].
Qed.

Lemma upsertConversation_stored sid history docs :
  ∃ doc, doc ∈ upsertConversation sid history docs ∧ doc_callSid doc = sid ∧
         doc_status doc = "in-progress" ∧ doc_conversation doc = history.
Proof.
  unfold upsertConversation.
  destruct (updateFirstDoc sid history docs) as [docs'|] eqn:H.
  - by apply (updateFirstDoc_stored sid history docs).
  - eexists. split; [apply elem_of_app; right; apply list_elem_of_here|]. by simpl.
Qed.

(** What a suspended [handleCustomerSpeech] has done. *)
Lemma handleCustomerSpeech_begin_suspended baseUrl sid speech env w l w1 :
  handleCustomerSpeech_begin baseUrl sid speech env w = AwaitingResponse l w1 →
  ∃ c, lookupConversation w sid = Some (l, c) ∧
       shouldEndCall speech = false ∧
       lookupConversation w1 sid =
         Some (l, withHistory (conversationHistory c
                                 ++ [mkTurn customer speech (heardAt env)]) c) ∧
       callDocs w1 = callDocs w.
Proof.
  unfold handleCustomerSpeech_begin. intros H.
  destruct (lookupConversation w sid) as [[l0 c]|] eqn:Hl; [|done].
  destruct (shouldEndCall speech) eqn:Hend.
  { destruct (endConversation _ _ _ _) as [[r|e] w3]; done. }
  injection H as <- <-. exists c. repeat split; try done.
  apply lookupConversation_Some in Hl as [Ha Hh].
  unfold lookupConversation. simpl. rewrite Ha.
  by rewrite list_lookup_alter_eq, Hh.
Qed.

(** C9 as the code has it.  Nothing orders an end of the call against a
    speech handler that waits for the response generator, and the
    handler does not look at the active map again when the answer
    comes.  When the call is ended and finalized during the wait, the
    SID is and stays removed from the active map, but the late answer
    is still appended as an agent turn to the conversation object the
    handler holds, behind the transcript that was finalized, and
    [saveConversationState] writes that longer transcript, with status
    in-progress, to a call document of the SID. *)
Theorem late_response_is_appended baseUrl sid speech env reason endEnv w l w1 summary w2 :
  handleCustomerSpeech_begin baseUrl sid speech env w = AwaitingResponse l w1 →
  endConversation sid reason endEnv w1 = (Normal (Some summary), w2) →
  let w3 := (handleCustomerSpeech_resume baseUrl sid l env w2).2 in
  let late := mkTurn agent (generatorAnswer env) (answeredAt env) in
  activeConversations w2 !! sid = None ∧
  activeConversations w3 !! sid = None ∧
  ∃ c2, heap w2 !! l = Some c2 ∧
        (∃ doc, last (callDocs w2) = Some doc ∧ doc_callSid doc = sid ∧
                doc_conversation doc = conversationHistory c2) ∧
        (conversationHistory <$> heap w3 !! l)
          = Some (conversationHistory c2 ++ [late]) ∧
        (stateStored env = true →
         ∃ doc, doc ∈ callDocs w3 ∧ doc_callSid doc = callSid c2 ∧
                doc_status doc = "in-progress" ∧
                doc_conversation doc = conversationHistory c2 ++ [late]).
Proof.
  intros Hb He w3 late.
  apply handleCustomerSpeech_begin_suspended in Hb as (c & _ & _ & Hl1 & _).
  apply endConversation_success_inv in He
    as (l' & c1 & Hl1' & _ & _ & _ & _ & _ & _ & Hdocs & Hact & Hheap).
  rewrite Hl1 in Hl1'. injection Hl1' as <- <-.
  apply lookupConversation_Some in Hl1 as [_ Hh1].
  set (c1 := withHistory _ c) in *.
  set (doc := completedCallDoc _ _ _ _ _ _) in Hdocs.
  set (leadAfter := (updateLeadFromConversation _ _ _ _ _).1.1) in Hheap.
  assert (Hh2 : heap w2 !! l = Some (withLead leadAfter c1)).
  { by rewrite Hheap, list_lookup_alter_eq, Hh1. }
  assert (Hnone : activeConversations w2 !! sid = None).
  { rewrite Hact. apply lookup_delete_eq. }
  assert (Hlt : (l < length (heap w2))%nat) by (by apply lookup_lt_Some in Hh2).
  subst w3. unfold handleCustomerSpeech_resume. simpl. rewrite Hh2.
  split; [done|]. split.
  { unfold saveConversationState. by destruct (stateStored env). }
  exists (withLead leadAfter c1). split; [done|]. split.
  { exists doc. by rewrite Hdocs, last_snoc. }
  split.
  { unfold saveConversationState. destruct (stateStored env); simpl;
      by rewrite list_lookup_insert_eq. }
  intros ->. unfold saveConversationState. simpl.
  apply upsertConversation_stored.
Qed.

Lemma late_response_is_appended_witness :
  ∃ c2, heap raceEnded.2 !! 0%nat = Some c2 ∧
        (conversationHistory <$>
           heap (handleCustomerSpeech_resume "https://host" "CA1" 0 quietSpeech
                   raceEnded.2).2 !! 0%nat)
          = Some (conversationHistory c2
                    ++ [mkTurn agent (generatorAnswer quietSpeech)
                          (answeredAt quietSpeech)]).
Proof.
  destruct (late_response_is_appended "https://host" "CA1" "tell me more"
              quietSpeech "completed" quietEnd connectedWorld 0%nat
              (logMsg LInfo "Customer speech received"
                 (pushTurn 0 (mkTurn customer "tell me more" 3000) connectedWorld))
              (mkCallSummary "D1" "no-answer" 8 neutral ∅)
              raceEnded.2 eq_refl eq_refl) as (_ & _ & c2 & Hc2 & _ & H3 & _).
  exists c2. split; [exact Hc2 | exact H3].
Defined.

(** C9, refuted as stated: in the race of the sample call the state is
    ended and finalized with a transcript of two turns, and the
    generator's late answer then becomes a third turn, an agent turn,
    of that transcript, in the conversation object and in the call
    document; the document is back to status in-progress. *)
Lemma late_response_not_discarded :
  raceSuspended =
    AwaitingResponse 0
      (logMsg LInfo "Customer speech received"
         (pushTurn 0 (mkTurn customer "tell me more" 3000) connectedWorld)) ∧
  raceEnded.1 = Normal (Some (mkCallSummary "D1" "no-answer" 8 neutral ∅)) ∧
  activeConversations raceEnded.2 !! "CA1" = None ∧
  (doc_conversation <$> callDocs raceEnded.2)
    = [[mkTurn agent "Hi Ana, is this Ana Lee?" 2000;
        mkTurn customer "tell me more" 3000]] ∧
  (conversationHistory <$> heap raceResumed.2 !! 0%nat)
    = Some [mkTurn agent "Hi Ana, is this Ana Lee?" 2000;
            mkTurn customer "tell me more" 3000;
            mkTurn agent "Sure, what is your budget?" 9500] ∧
  ((λ d, (doc_callSid d, doc_status d, doc_conversation d)) <$> callDocs raceResumed.2)
    = [("CA1", "in-progress",
        [mkTurn agent "Hi Ana, is this Ana Lee?" 2000;
         mkTurn customer "tell me more" 3000;
         mkTurn agent "Sure, what is your budget?" 9500])].
Proof. repeat split. Qed.

(** ** Placeholder substitution *)

Lemma dropStr_app (w s : string) : dropStr (String.length w) (w +:+ s) = s.
Proof. induction w as [|c w IH]; simpl; [by destruct s | done]. Qed.

Lemma startsWith_app (p s : string) : startsWith p (p +:+ s) = true.
Proof. apply startsWith_spec. by exists s. Qed.

Lemma occurs_app c (a b : string) :
  occurs c (a +:+ b) = occurs c a || occurs c b.
Proof. induction a as [|d a IH]; simpl; [done|]. by rewrite IH, orb_assoc. Qed.

Lemma occurs_trimStart c s : occurs c (trimStart s) = true → occurs c s = true.
Proof.
  induction s as [|d s IH]; simpl; [done|].
  destruct (isWhiteSpace d); [|done].
  intros H. rewrite (IH H). apply orb_true_r.
Qed.

Lemma occurs_trimEnd c s : occurs c (trimEnd s) = true → occurs c s = true.
Proof.
  induction s as [|d s IH]; simpl; [done|].
  destruct (trimEnd s) as [|e r] eqn:Hr.
  - destruct (isWhiteSpace d); simpl; [done|].
    rewrite orb_false_r. by intros ->.
  - simpl in *. intros H. apply orb_true_iff in H as [->|H]; [done|].
    rewrite (IH H). apply orb_true_r.
Qed.

Lemma occurs_trim c s : occurs c s = false → occurs c (trim s) = false.
Proof.
  intros H. destruct (occurs c (trim s)) eqn:Ht; [|done].
  apply occurs_trimEnd, occurs_trimStart in Ht. congruence.
Qed.

(** Without a dollar sign the replacement text stands for itself. *)
Lemma getSubstitution_plain matched before after repl :
  occurs "$" repl = false → getSubstitution matched before after repl = repl.
Proof.
  induction repl as [|c r IH]; [done|].
  cbn [occurs getSubstitution]. intros H.
  apply orb_false_iff in H as [Hc Hr].
  rewrite Ascii.eqb_sym in Hc. rewrite Hc. by rewrite IH.
Qed.

(** A text in which the pattern does not occur is left as it is. *)
Lemma replaceFrom_absent pat repl before s :
  includes s pat = false → replaceFrom pat repl 0 before s = s.
Proof.
  revert before. induction s as [|c s IH]; intros before; [done|].
  cbn [includes replaceFrom]. intros H. apply orb_false_iff in H as [Hs Hi].
  rewrite Hs. by rewrite IH.
Qed.

Section Pass.
Variables (pat' repl : string).
Hypothesis repl_no_brace : occurs "{" repl = false.
Hypothesis repl_no_dollar : occurs "$" repl = false.

Lemma replaceFrom_skip w s before :
  ∃ before', replaceFrom (String "{" pat') repl (String.length w) before (w +:+ s)
             = replaceFrom (String "{" pat') repl 0 before' s.
Proof.
  revert before. induction w as [|c w IH]; intros before; simpl.
  - by exists before.
  - apply IH.
Qed.

Lemma replaceFrom_match s before :
  ∃ before', replaceFrom (String "{" pat') repl 0 before (String "{" pat' +:+ s)
             = repl +:+ replaceFrom (String "{" pat') repl 0 before' s.
Proof.
  change (String "{" pat' +:+ s) with (String "{" (pat' +:+ s)).
  cbn [replaceFrom].
  change (String "{" (pat' +:+ s)) with (String "{" pat' +:+ s).
  rewrite startsWith_app, getSubstitution_plain by done.
  cbn [String.length].
  replace (S (String.length pat') - 1)%nat with (String.length pat') by lia.
  destruct (replaceFrom_skip pat' s (before +:+ String "{" EmptyString)) as [b' Hb].
  exists b'. by rewrite Hb.
Qed.

Lemma replaceFrom_plain w s before :
  occurs "{" w = false →
  ∃ before', replaceFrom (String "{" pat') repl 0 before (w +:+ s)
             = w +:+ replaceFrom (String "{" pat') repl 0 before' s.
Proof.
  revert before. induction w as [|c w IH]; intros before.
  - intros _. by exists before.
  - cbn [occurs]. intros H. apply orb_false_iff in H as [Hc Hw].
    destruct (IH (before +:+ String c EmptyString) Hw) as [b' Hb].
    exists b'.
    change (String c w +:+ s) with (String c (w +:+ s)).
    cbn [replaceFrom]. cbn [startsWith].
    rewrite Hc. cbn [andb]. by rewrite Hb.
Qed.

Lemma Template_plain Q w s :
  occurs "{" w = false → Template Q s → Template Q (w +:+ s).
Proof.
  induction w as [|c w IH]; simpl; [done|].
  intros H Hs. apply orb_false_iff in H as [Hc Hw].
  apply template_char; [by rewrite Ascii.eqb_sym | by apply IH].
Qed.

(** One [replace] pass over a template: the placeholder of the pass is
    gone, the others stay. *)
Lemma replaceFrom_Template P Q s :
  (∀ p, p ∈ P →
        p = String "{" pat' ∨
        (p ∈ Q ∧ ∃ p', p = String "{" p' ∧ occurs "{" p' = false ∧
                       ∀ x, startsWith (String "{" pat') (p +:+ x) = false)) →
  Template P s →
  ∀ before, Template Q (replaceFrom (String "{" pat') repl 0 before s).
Proof.
  intros HP Hs. induction Hs as [|c s Hc Hs IH|p s Hp Hs IH]; intros before.
  - apply template_end.
  - cbn [replaceFrom]. cbn [startsWith].
    rewrite Ascii.eqb_sym, Hc. cbn [andb].
    by apply template_char.
  - destruct (HP p Hp) as [->|(HQ & p' & -> & Hp' & Hno)].
    + destruct (replaceFrom_match s before) as [b' ->].
      by apply Template_plain.
    + change (String "{" p' +:+ s) with (String "{" (p' +:+ s)).
      cbn [replaceFrom].
      change (String "{" (p' +:+ s)) with (String "{" p' +:+ s).
      rewrite Hno.
      destruct (replaceFrom_plain p' s (before +:+ String "{" EmptyString) Hp')
        as [b' ->].
      change (String "{" (p' +:+ replaceFrom (String "{" pat') repl 0 b' s))
        with (String "{" p' +:+ replaceFrom (String "{" pat') repl 0 b' s).
      by apply template_placeholder.
Qed.
(** One [replace] pass over a parsed template: the placeholder of the
    pass takes its value, the values put in by earlier passes and the
    placeholders of later passes stay. *)
Lemma replaceFrom_renderWith value parts :
  Forall (λ part,
            match part with
            | Lit c => Ascii.eqb c "{" = false
            | Placeholder p =>
                (p = String "{" pat' ∧ value p = p) ∨
                (p ≠ String "{" pat' ∧ occurs "{" (value p) = false) ∨
                (p ≠ String "{" pat' ∧ value p = p ∧
                 ∃ p', p = String "{" p' ∧ occurs "{" p' = false ∧
                       ∀ x, startsWith (String "{" pat') (p +:+ x) = false)
            end) parts →
  ∀ before,
    replaceFrom (String "{" pat') repl 0 before (renderWith value parts)
    = renderWith (replaced (String "{" pat') repl value) parts.
Proof.
  induction 1 as [|part parts Hpart Hparts IH]; intros before; [done|].
  destruct part as [c|p]; cbn [renderWith].
  - cbn [replaceFrom startsWith]. rewrite Ascii.eqb_sym, Hpart. cbn [andb].
    by rewrite IH.
  - unfold replaced at 1.
    destruct Hpart as [[-> Hv]|[[Hne Hv]|(Hne & Hv & p' & -> & Hp' & Hno)]].
    + rewrite Hv, String.eqb_refl.
      destruct (replaceFrom_match (renderWith value parts) before) as [b' ->].
      by rewrite IH.
    + apply String.eqb_neq in Hne. rewrite Hne.
      destruct (replaceFrom_plain (value p) (renderWith value parts) before Hv)
        as [b' ->].
      by rewrite IH.
    + apply String.eqb_neq in Hne. rewrite Hne, Hv.
      change (String "{" p' +:+ renderWith value parts)
        with (String "{" (p' +:+ renderWith value parts)).
      cbn [replaceFrom].
      change (String "{" (p' +:+ renderWith value parts))
        with (String "{" p' +:+ renderWith value parts).
      rewrite Hno.
      destruct (replaceFrom_plain p' (renderWith value parts)
                  (before +:+ String "{" EmptyString) Hp') as [b' ->].
      by rewrite IH.
Qed.
End Pass.

Lemma knownOnlyFrom_Template s :
  ∀ k, knownOnlyFrom k s = true → Template knownPlaceholders (dropStr k s).
Proof.
  induction s as [|c s IH]; intros k H.
  - destruct k; apply template_end.
  - destruct k as [|k]; cbn [knownOnlyFrom dropStr] in *; [|by apply IH].
    destruct (Ascii.eqb c "{") eqn:Hc.
    + destruct (List.find _ knownPlaceholders) as [p|] eqn:Hf; [|done].
      apply find_some in Hf as [Hin Hp]. apply list_elem_of_In in Hin.
      apply startsWith_spec in Hp as [r Hr].
      destruct p as [|a p'].
      { exfalso. unfold knownPlaceholders in Hin.
        rewrite !elem_of_cons, elem_of_nil in Hin.
        by repeat destruct Hin as [Hin|Hin]. }
      injection Hr as -> ->. cbn [String.length] in H.
      replace (S (String.length p') - 1)%nat with (String.length p') in H by lia.
      apply IH in H. rewrite dropStr_app in H.
      change (String a (p' +:+ r)) with (String a p' +:+ r).
      by apply template_placeholder.
    + apply template_char; [done|]. by apply (IH 0%nat).
Qed.

Lemma Template_nil_no_brace s : Template [] s → occurs "{" s = false.
Proof.
  induction 1 as [|c s Hc Hs IH|p s Hp Hs IH].
  - done.
  - cbn [occurs]. by rewrite Ascii.eqb_sym, Hc.
  - by apply elem_of_nil in Hp.
Qed.

Lemma no_brace_no_placeholder s :
  occurs "{" s = false → containsPlaceholder s = false.
Proof.
  induction s as [|c s IH]; [done|].
  cbn [occurs containsPlaceholder].
  intros H. apply orb_false_iff in H as [Hc Hs].
  rewrite Ascii.eqb_sym in Hc. by rewrite Hc, IH.
Qed.

Lemma cleanValue_spec s :
  cleanValue s = true → occurs "{" s = false ∧ occurs "$" s = false.
Proof.
  unfold cleanValue. intros H. apply andb_true_iff in H as [H1 H2].
  by apply negb_true_iff in H1, H2.
Qed.

Lemma cleanLead_fullName x :
  cleanLead x = true →
  occurs "{" (fullName x) = false ∧ occurs "$" (fullName x) = false.
Proof.
  unfold cleanLead. rewrite !andb_true_iff. intros [[[Hf Hl] _] _].
  apply cleanValue_spec in Hf as [Hf1 Hf2], Hl as [Hl1 Hl2].
  unfold fullName. split; apply occurs_trim; rewrite !occurs_app;
    simpl; by rewrite ?Hf1, ?Hf2, ?Hl1, ?Hl2.
Qed.

Lemma replacePlaceholders_no_brace text x :
  knownOnly text = true → cleanLead x = true →
  occurs "{" (replacePlaceholders text x) = false.
Proof.
  intros Ht Hx.
  pose proof (cleanLead_fullName x Hx) as [Hn1 Hn2].
  unfold cleanLead in Hx. rewrite !andb_true_iff in Hx.
  destruct Hx as [[[Hf Hl] Hc] Hj].
  apply cleanValue_spec in Hf as [Hf1 Hf2], Hl as [Hl1 Hl2],
      Hc as [Hc1 Hc2], Hj as [Hj1 Hj2].
  apply (knownOnlyFrom_Template text 0%nat) in Ht. cbn [dropStr] in Ht.
  apply Template_nil_no_brace. unfold replacePlaceholders, replaceAll.
  apply (replaceFrom_Template "jobTitle}" _ Hj1 Hj2 ["{jobTitle}"]); [placeholder_cases|].
  apply (replaceFrom_Template "company}" _ Hc1 Hc2 ["{company}"; "{jobTitle}"]);
    [placeholder_cases|].
  apply (replaceFrom_Template "fullName}" _ Hn1 Hn2
           ["{fullName}"; "{company}"; "{jobTitle}"]); [placeholder_cases|].
  apply (replaceFrom_Template "lastName}" _ Hl1 Hl2
           ["{lastName}"; "{fullName}"; "{company}"; "{jobTitle}"]);
    [placeholder_cases|].
  by apply (replaceFrom_Template "firstName}" _ Hf1 Hf2 knownPlaceholders);
    [unfold knownPlaceholders; placeholder_cases|].
Qed.

Lemma replacePlaceholders_absent text x :
  (∀ p, p ∈ knownPlaceholders → includes text p = false) →
  replacePlaceholders text x = text.
Proof.
  intros H. unfold replacePlaceholders, replaceAll.
  rewrite (replaceFrom_absent "{firstName}") by (apply H; decide_all).
  rewrite (replaceFrom_absent "{lastName}") by (apply H; decide_all).
  rewrite (replaceFrom_absent "{fullName}") by (apply H; decide_all).
  rewrite (replaceFrom_absent "{company}") by (apply H; decide_all).
  by rewrite (replaceFrom_absent "{jobTitle}") by (apply H; decide_all).
Qed.

Lemma renderWith_ext value1 value2 parts :
  (∀ p, Placeholder p ∈ parts → value1 p = value2 p) →
  renderWith value1 parts = renderWith value2 parts.
Proof.
  induction parts as [|[c|p] parts IH]; intros H; cbn [renderWith]; [done| |].
  - rewrite IH; [done|]. intros p Hp. apply H. by apply list_elem_of_further.
  - rewrite (H p) by apply list_elem_of_here.
    rewrite IH; [done|]. intros q Hq. apply H. by apply list_elem_of_further.
Qed.

(** The five passes over a parsed template put the five values of the
    specification in the places of the placeholders. *)
Lemma replacePlaceholders_render parts x :
  Forall knownPart parts → cleanLead x = true →
  replacePlaceholders (templateText parts) x = render parts x.
Proof.
  intros Hk Hx.
  pose proof (cleanLead_fullName x Hx) as [Hn1 Hn2].
  unfold cleanLead in Hx. rewrite !andb_true_iff in Hx.
  destruct Hx as [[[Hf Hl] Hc] Hj].
  apply cleanValue_spec in Hf as [Hf1 Hf2], Hl as [Hl1 Hl2],
      Hc as [Hc1 Hc2], Hj as [Hj1 Hj2].
  unfold replacePlaceholders, replaceAll, templateText, render.
  rewrite (replaceFrom_renderWith "firstName}" _ Hf2 (λ p, p))
    by pass_cases Hk.
  rewrite (replaceFrom_renderWith "lastName}" _ Hl2) by pass_cases Hk.
  rewrite (replaceFrom_renderWith "fullName}" _ Hn2) by pass_cases Hk.
  rewrite (replaceFrom_renderWith "company}" _ Hc2) by pass_cases Hk.
  rewrite (replaceFrom_renderWith "jobTitle}" _ Hj2) by pass_cases Hk.
  apply renderWith_ext. intros p Hp.
  rewrite Forall_forall in Hk. apply Hk in Hp. cbn [knownPart] in Hp.
  unfold knownPlaceholders in Hp. rewrite !elem_of_cons, elem_of_nil in Hp.
  repeat (destruct Hp as [->|Hp]; [reflexivity|]). destruct Hp.
Qed.

(** A text whose opening braces all start a known placeholder is the
    text of a parsed template. *)
Lemma Template_parts s :
  Template knownPlaceholders s →
  ∃ parts, Forall knownPart parts ∧ templateText parts = s.
Proof.
  induction 1 as [|c s Hc Hs (parts & Hk & <-)|p s Hp Hs (parts & Hk & <-)].
  - by exists [].
  - exists (Lit c :: parts). split; [|done].
    constructor; [|done]. cbn. apply Ascii.eqb_neq in Hc. congruence.
  - exists (Placeholder p :: parts). split; [|done]. by constructor.
Qed.

(** C6 as the code has it.  [replacePlaceholders] runs five [replace]
    passes, one per known placeholder, and has no pass for any other
    text in braces.  For a template made of code units other than the
    opening brace and of the five known placeholders, and a lead whose
    values hold no opening brace and no dollar sign, the output is the
    template with the first name, the last name, the full name, the
    company and the job title of the lead in the places of their
    placeholders, the empty string for an absent last name, company or
    job title; every text whose opening braces all start a known
    placeholder is such a template, and the output then holds no
    placeholder.  A template without any of the five placeholders is
    returned as it is, so an unknown placeholder stays in the output.
    The template "Hi {firstName}, is this {fullName}?" for a lead named
    Ana Lee renders "Hi Ana, is this Ana Lee?". *)
Theorem replacePlaceholders_known_placeholders :
  (∀ parts x, Forall knownPart parts → cleanLead x = true →
     replacePlaceholders (templateText parts) x = render parts x) ∧
  (∀ text, knownOnly text = true →
     ∃ parts, Forall knownPart parts ∧ templateText parts = text) ∧
  (∀ text x, knownOnly text = true → cleanLead x = true →
     containsPlaceholder (replacePlaceholders text x) = false) ∧
  (∀ text x, (∀ p, p ∈ knownPlaceholders → includes text p = false) →
     replacePlaceholders text x = text) ∧
  (∀ x, firstName x = "Ana" → lastName x = Some "Lee" →
     replacePlaceholders "Hi {firstName}, is this {fullName}?" x
       = "Hi Ana, is this Ana Lee?").
Proof.
  split; [apply replacePlaceholders_render|].
  split; [|split; [|split]].
  - intros text Ht. apply Template_parts.
    by apply (knownOnlyFrom_Template text 0%nat).
  - intros text x Ht Hx.
    by apply no_brace_no_placeholder, replacePlaceholders_no_brace.
  - apply replacePlaceholders_absent.
  - intros x Hf Hl. unfold replacePlaceholders, fullName. rewrite Hf, Hl.
    change (replaceAll "{fullName}" _ _) with "Hi Ana, is this Ana Lee?".
    unfold replaceAll. by rewrite !replaceFrom_absent by reflexivity.
Qed.

Lemma replacePlaceholders_known_placeholders_witness :
  replacePlaceholders "{lastName}, {firstName} ({fullName}): {jobTitle}, {company}" lee
    = "Lee, Ana (Ana Lee): CTO, Acme" ∧
  replacePlaceholders "{lastName}, {firstName} ({fullName}): {jobTitle}, {company}"
    (named "Bo")
    = ", Bo (Bo): , " ∧
  containsPlaceholder
    (replacePlaceholders "Hi {firstName}, is this {fullName}?" ana) = false ∧
  replacePlaceholders "press {0} now" ana = "press {0} now" ∧
  replacePlaceholders "Hi {firstName}, is this {fullName}?" ana
    = "Hi Ana, is this Ana Lee?".
Proof.
  assert (Hk : Forall knownPart
                 [Placeholder "{lastName}"; Lit ","; Lit " ";
                  Placeholder "{firstName}"; Lit " "; Lit "(";
                  Placeholder "{fullName}"; Lit ")"; Lit ":"; Lit " ";
                  Placeholder "{jobTitle}"; Lit ","; Lit " ";
                  Placeholder "{company}"]).
  { repeat (apply Forall_cons; split; [first [done | decide_all]|]).
    apply Forall_nil_2. }
  split; [|split; [|split; [|split]]].
  - exact (proj1 replacePlaceholders_known_placeholders _ lee Hk eq_refl).
  - exact (proj1 replacePlaceholders_known_placeholders _ (named "Bo") Hk eq_refl).
  - apply (proj1 (proj2 (proj2 replacePlaceholders_known_placeholders))); reflexivity.
  - apply (proj1 (proj2 (proj2 (proj2 replacePlaceholders_known_placeholders)))).
    intros p Hp. unfold knownPlaceholders in Hp.
    rewrite !elem_of_cons, elem_of_nil in Hp.
    repeat (destruct Hp as [->|Hp]; [reflexivity|]). destruct Hp.
  - apply (proj2 (proj2 (proj2 (proj2 replacePlaceholders_known_placeholders))));
      reflexivity.
Defined.

(** C6, refuted as stated: a placeholder that is not one of the five is
    neither replaced nor removed. *)
Lemma replacePlaceholders_unknown_kept :
  replacePlaceholders "Hi {firstName}, write to {email}" ana
    = "Hi Ana, write to {email}" ∧
  containsPlaceholder (replacePlaceholders "Hi {firstName}, write to {email}" ana)
    = true.
Proof. split; reflexivity. Qed.

(** The two conditions of the statement above are needed: a value is
    spliced in as a replacement pattern, and the text around a
    placeholder can close up to a placeholder. *)
Example replacePlaceholders_dollar :
  replacePlaceholders "Hi {firstName}" (named "A$&") = "Hi A{firstName}".
Proof. reflexivity. Qed.

Example replacePlaceholders_nested :
  replacePlaceholders "{fir{firstName}tName}" (named "s") = "{firstName}".
Proof. reflexivity. Qed.

(* ================================================================== *)
(** * Further properties of the code *)

(** ** Outcome resolver and step classifier *)

Lemma customerMessages_length_agent t h :
  speaker t = agent →
  length (customerMessages (t :: h)) = length (customerMessages h).
Proof.
  intros H. unfold customerMessages. rewrite filter_cons.
  destruct (decide (speaker t = customer)) as [Hc|_]; [congruence | done].
Qed.

(** X2.  The outcome depends on the transcript only through the number
    of customer turns: what was said, by whom else and in which order
    plays no part. *)
Theorem determineCallOutcome_count_only h h' info reason :
  length (customerMessages h) = length (customerMessages h') →
  determineCallOutcome h info reason = determineCallOutcome h' info reason.
Proof.
  intros H.
  destruct (String.eqb_spec reason "customer-requested") as [->|Hr]; [done|].
  destruct (truthy (getProp info "nextSteps") || truthy (getProp info "interests"))
    eqn:Hs.
  - by rewrite !determineCallOutcome_signal.
  - rewrite !determineCallOutcome_no_signal by done. by rewrite H.
Qed.

Lemma determineCallOutcome_count_only_witness :
  determineCallOutcome
    [mkTurn agent "Hello" 1; mkTurn customer "who is this" 2;
     mkTurn agent "Acme" 3; mkTurn customer "fine, go on" 4] ∅ "completed"
  = determineCallOutcome (customerTurns 2) ∅ "completed".
Proof. apply determineCallOutcome_count_only. reflexivity. Defined.

Lemma firstStep_range entries lower step :
  firstStep entries lower = Some step → step ∈ entries.*1.
Proof.
  induction entries as [|[name keywords] rest IH]; simpl; [done|].
  destruct (existsb _ keywords).
  - intros [= <-]. apply list_elem_of_here.
  - intros H. apply list_elem_of_further. by apply IH.
Qed.

Lemma firstStep_none entries lower :
  (∀ entry keyword, entry ∈ entries → keyword ∈ entry.2 →
                    includes lower keyword = false) →
  firstStep entries lower = None.
Proof.
  induction entries as [|[name keywords] rest IH]; intros H; simpl; [done|].
  destruct (existsb _ keywords) eqn:He.
  - apply existsb_elem_of in He as (k & Hk & Hi).
    rewrite (H (name, keywords) k) in Hi; [done | apply list_elem_of_here | done].
  - apply IH. intros entry k He' Hk. apply (H entry k); [|done].
    by apply list_elem_of_further.
Qed.

(** X3.  The step classifier looks at the lowercased response only; the
    new step is the old one or one of qualification, presentation,
    objection, closing, and it is the old one when no keyword of any
    step occurs; a qualification keyword wins over the keywords of the
    later steps. *)
Theorem updateConversationStep_classifies :
  (∀ step response,
     updateConversationStep step response
       = updateConversationStep step (toLowerCase response)) ∧
  (∀ step response,
     updateConversationStep step response = step ∨
     updateConversationStep step response
       ∈ ["qualification"; "presentation"; "objection"; "closing"]) ∧
  (∀ step response,
     (∀ entry keyword, entry ∈ stepKeywords → keyword ∈ entry.2 →
                       includes (toLowerCase response) keyword = false) →
     updateConversationStep step response = step) ∧
  (∀ step response keyword,
     keyword ∈ ["qualify"; "budget"; "timeline"; "decision"] →
     includes (toLowerCase response) keyword = true →
     updateConversationStep step response = "qualification").
Proof.
  repeat split.
  - intros. unfold updateConversationStep. by rewrite toLowerCase_idemp.
  - intros step response. unfold updateConversationStep.
    destruct (firstStep stepKeywords (toLowerCase response)) as [new|] eqn:H;
      [right | by left].
    by apply firstStep_range in H.
  - intros step response H. unfold updateConversationStep.
    by rewrite firstStep_none.
  - intros step response keyword Hk Hi. unfold updateConversationStep.
    cbn [stepKeywords firstStep].
    assert (existsb (λ k, includes (toLowerCase response) k)
              ["qualify"; "budget"; "timeline"; "decision"] = true) as ->; [|done].
    apply existsb_elem_of. by exists keyword.
Qed.

Lemma updateConversationStep_classifies_witness :
  updateConversationStep "opening" "Shall we SCHEDULE a call about your Budget?"
    = "qualification" ∧
  updateConversationStep "objection" "I see." = "objection".
Proof.
  split.
  - apply (proj2 (proj2 (proj2 updateConversationStep_classifies))
             "opening" _ "budget"); [decide_all | reflexivity].
  - apply (proj1 (proj2 (proj2 updateConversationStep_classifies))).
    intros entry keyword He Hk. unfold stepKeywords in He.
    rewrite !elem_of_cons, elem_of_nil in He.
    repeat (destruct He as [->|He];
            [ cbn [snd] in Hk; rewrite !elem_of_cons, elem_of_nil in Hk;
              repeat (destruct Hk as [->|Hk]; [reflexivity|]); destruct Hk | ]).
    destruct He.
Defined.

(** ** Termination detector *)

Lemma toLowerCase_app (a b : string) :
  toLowerCase (a +:+ b) = toLowerCase a +:+ toLowerCase b.
Proof. induction a as [|c a IH]; simpl; [done | by rewrite IH]. Qed.

Lemma string_app_assoc (a b c : string) : (a +:+ b) +:+ c = a +:+ (b +:+ c).
Proof.
  induction a as [|x a IH]; [done|].
  change (String x ((a +:+ b) +:+ c) = String x (a +:+ (b +:+ c))).
  by rewrite IH.
Qed.

(** X4.  Whatever is said before and after a phrase that ends the
    call, the call still ends: the detector cannot be talked out of a
    termination by more words in the same utterance. *)
Theorem shouldEndCall_embedded before s after :
  shouldEndCall s = true → shouldEndCall (before +:+ s +:+ after) = true.
Proof.
  unfold shouldEndCall. rewrite !existsb_elem_of.
  intros (phrase & Hin & Hi). exists phrase. split; [done|].
  apply includes_spec in Hi as (a & b & Hab). apply includes_spec.
  exists (toLowerCase before +:+ a), (b +:+ toLowerCase after).
  rewrite !toLowerCase_app, Hab. by rewrite !string_app_assoc.
Qed.

Lemma shouldEndCall_embedded_witness :
  shouldEndCall ("I am interested, so do " +:+ "Not Interested" +:+ " people call back?")
    = true.
Proof. apply shouldEndCall_embedded. reflexivity. Defined.

Lemma determineCallOutcome_values h info reason o :
  determineCallOutcome h info reason = Normal o →
  o = "not-interested" ∨ o = "interested" ∨ o = "no-answer".
Proof.
  destruct (String.eqb_spec reason "customer-requested") as [->|Hr].
  { intros [= <-]. by left. }
  destruct (truthy (getProp info "nextSteps") || truthy (getProp info "interests"))
    eqn:Hs.
  - rewrite determineCallOutcome_signal by done. intros [= <-]. right. by left.
  - rewrite determineCallOutcome_no_signal by done.
    intros [= <-]. repeat case_match; tauto.
Qed.

(** X1.  The resolver has three results only: not-interested,
    interested and no-answer.  The callback rule can never fire, because
    the rule before it has already returned whenever [nextSteps] is
    present. *)
Theorem determineCallOutcome_three_results h info reason :
  ∃ o, determineCallOutcome h info reason = Normal o ∧
       o ∈ ["not-interested"; "interested"; "no-answer"].
Proof.
  destruct (determineCallOutcome_returns h info reason) as [o Ho].
  exists o. split; [done|].
  apply determineCallOutcome_values in Ho as [-> | [-> | ->]]; decide_all.
Qed.

(** ** Phone numbers *)

Lemma removeNonDigits_idemp s :
  removeNonDigits (removeNonDigits s) = removeNonDigits s.
Proof.
  induction s as [|c s IH]; simpl; [done|].
  destruct (isDigit c) eqn:Hc; simpl; [|done]. by rewrite Hc, IH.
Qed.

Lemma formatPhoneNumber_cases p :
  let d := removeNonDigits p in
  (String.length d = 10%nat ∧ formatPhoneNumber p = String "+" (String "1" d)) ∨
  (String.length d = 11%nat ∧ startsWith "1" d = true ∧
   formatPhoneNumber p = String "+" d) ∨
  ((11 < String.length d)%nat ∧ formatPhoneNumber p = String "+" d) ∨
  (String.length d ≠ 10%nat ∧ ¬ (11 < String.length d)%nat ∧
   (String.length d = 11%nat → startsWith "1" d = false) ∧
   formatPhoneNumber p = p).
Proof.
  intros d. unfold formatPhoneNumber. fold d.
  destruct (Nat.eqb_spec (String.length d) 10) as [H10|H10]; [by left|].
  destruct (Nat.eqb_spec (String.length d) 11) as [H11|H11]; cbn [andb].
  - destruct (startsWith "1" d) eqn:H1; [right; by left|].
    destruct (Nat.ltb_spec 11 (String.length d)); [lia|].
    right. right. right. split; [done|]. split; [lia|]. split; [done|].
    reflexivity.
  - destruct (Nat.ltb_spec 11 (String.length d)).
    + right. right. by left.
    + right. right. right. split; [done|]. split; [lia|]. split; [done|].
      reflexivity.
Qed.

Lemma removeNonDigits_plus s : removeNonDigits (String "+" s) = removeNonDigits s.
Proof. reflexivity. Qed.

Lemma removeNonDigits_one s :
  removeNonDigits (String "1" s) = String "1" (removeNonDigits s).
Proof. reflexivity. Qed.

(** X5.  Formatting a phone number twice gives what formatting it once
    gives. *)
Theorem formatPhoneNumber_idempotent p :
  formatPhoneNumber (formatPhoneNumber p) = formatPhoneNumber p.
Proof.
  pose proof (removeNonDigits_idemp p) as Hd.
  destruct (formatPhoneNumber_cases p)
    as [[Hl ->]|[(Hl & H1 & ->)|[[Hl ->]|(_ & _ & _ & Hf)]]];
    [| | |by rewrite !Hf].
  - unfold formatPhoneNumber.
    rewrite removeNonDigits_plus, removeNonDigits_one, Hd.
    cbn [String.length]. rewrite Hl. reflexivity.
  - unfold formatPhoneNumber. rewrite removeNonDigits_plus, Hd, Hl, H1.
    reflexivity.
  - unfold formatPhoneNumber. rewrite removeNonDigits_plus, Hd.
    destruct (Nat.eqb_spec (String.length (removeNonDigits p)) 10); [lia|].
    destruct (Nat.eqb_spec (String.length (removeNonDigits p)) 11); [lia|].
    cbn [andb]. by apply Nat.ltb_lt in Hl as ->.
Qed.

(** X6.  A formatted phone number is either the input itself, returned
    when it has fewer than ten digits or eleven digits that do not start
    with 1, or a plus sign followed by at least eleven digits and nothing
    else: the digits of the input, with a 1 put in front when there are
    ten of them. *)
Theorem formatPhoneNumber_shape p :
  (formatPhoneNumber p = p ∧
   ((String.length (removeNonDigits p) < 10)%nat ∨
    (String.length (removeNonDigits p) = 11%nat ∧
     startsWith "1" (removeNonDigits p) = false))) ∨
  (∃ d, formatPhoneNumber p = "+" +:+ d ∧ removeNonDigits d = d ∧
        (11 ≤ String.length d)%nat ∧
        (d = removeNonDigits p ∨
         (d = "1" +:+ removeNonDigits p ∧
          String.length (removeNonDigits p) = 10%nat))).
Proof.
  pose proof (removeNonDigits_idemp p) as Hd.
  destruct (formatPhoneNumber_cases p)
    as [[Hl ->]|[(Hl & H1 & ->)|[[Hl ->]|(H10 & H11 & H1 & ->)]]].
  - right. exists (String "1" (removeNonDigits p)). split; [done|].
    split; [by rewrite removeNonDigits_one, Hd|].
    split; [cbn [String.length]; lia | by right].
  - right. exists (removeNonDigits p).
    split; [done|]. split; [done|]. split; [lia | by left].
  - right. exists (removeNonDigits p).
    split; [done|]. split; [done|]. split; [lia | by left].
  - left. split; [done|].
    destruct (decide (String.length (removeNonDigits p) = 11%nat)) as [He|Hne].
    + right. split; [done | by apply H1].
    + left. lia.
Qed.

(** ** Lead model *)

Lemma specSentimentDelta_bounds sentiment : -5 ≤ specSentimentDelta sentiment ≤ 5.
Proof.
  unfold specSentimentDelta. destruct sentiment as [[ov sc]|]; simpl; [|lia].
  destruct ov; try lia. repeat case_match; lia.
Qed.

Lemma specOutcomeDelta_positive o :
  o ∈ ["sale"; "interested"; "callback"] → 10 ≤ specOutcomeDelta o.
Proof.
  rewrite !elem_of_cons, elem_of_nil. intros [->|[->|[->|[]]]]; by vm_compute.
Qed.

Lemma specOutcomeDelta_negative o :
  o ∉ ["sale"; "interested"; "callback"] → specOutcomeDelta o ≤ -5.
Proof.
  rewrite !elem_of_cons, elem_of_nil. intros H. unfold specOutcomeDelta.
  repeat match goal with
         | |- context [String.eqb o ?x] =>
             destruct (String.eqb_spec o x); [tauto || lia|]
         end.
  lia.
Qed.

(** X7.  For a lead whose score lies within 0..100, the outcomes sale,
    interested and callback raise the score, or leave it at 100, whatever
    the sentiment is; every other outcome never raises it. *)
Theorem updateScore_direction lead o sentiment now :
  0 ≤ score lead ≤ 100 →
  (o ∈ ["sale"; "interested"; "callback"] →
     score lead < score (updateScore lead o sentiment now) ∨
     score (updateScore lead o sentiment now) = 100) ∧
  (o ∉ ["sale"; "interested"; "callback"] →
     score (updateScore lead o sentiment now) ≤ score lead).
Proof.
  intros Hs. rewrite updateScore_score.
  pose proof (specSentimentDelta_bounds sentiment) as Hb.
  split; intros Ho.
  - apply specOutcomeDelta_positive in Ho. lia.
  - apply specOutcomeDelta_negative in Ho. lia.
Qed.

Lemma updateScore_direction_witness :
  (score ana < score (updateScore ana "callback"
                        (Some (mkSentiment (JStr "negative") (JNum 0))) 7) ∨
   score (updateScore ana "callback"
            (Some (mkSentiment (JStr "negative") (JNum 0))) 7) = 100) ∧
  score (updateScore ana "voicemail"
           (Some (mkSentiment (JStr "positive") (JNum 1))) 7) ≤ score ana.
Proof.
  split.
  - apply updateScore_direction; [by vm_compute | decide_all].
  - apply updateScore_direction; [by vm_compute | decide_all].
Defined.

Lemma updateScore_fields lead o sentiment now :
  let lead' := updateScore lead o sentiment now in
  lead_id lead' = lead_id lead ∧ firstName lead' = firstName lead ∧
  lastName lead' = lastName lead ∧ phoneNumber lead' = phoneNumber lead ∧
  company lead' = company lead ∧ jobTitle lead' = jobTitle lead ∧
  nextCallDate lead' = nextCallDate lead ∧ profile lead' = profile lead ∧
  totalCalls lead' = totalCalls lead + 1 ∧ lastCallDate lead' = Some now.
Proof.
  intros lead'. subst lead'. unfold updateScore, outcomeSwitch.
  repeat case_match; simplify_eq; done.
Qed.

Lemma updateScore_status lead o sentiment now :
  let lead' := updateScore lead o sentiment now in
  (o = "sale" ∧ status lead' = "converted" ∧ doNotCall lead' = doNotCall lead) ∨
  (o ∈ ["interested"; "callback"; "not-interested"] ∧ status lead' = o ∧
   doNotCall lead' = doNotCall lead) ∨
  (o = "wrong-number" ∧ status lead' = "do-not-call" ∧ doNotCall lead' = true) ∨
  ((o ∉ ["sale"; "interested"; "callback"; "not-interested"; "wrong-number"]) ∧
   status lead' = status lead ∧ doNotCall lead' = doNotCall lead).
Proof.
  intros lead'. subst lead'. unfold updateScore, outcomeSwitch.
  destruct (String.eqb_spec o "sale") as [->|H1]; [by left|].
  destruct (String.eqb_spec o "interested") as [->|H2].
  { right. left. split; [decide_all | done]. }
  destruct (String.eqb_spec o "callback") as [->|H3].
  { right. left. split; [decide_all | done]. }
  destruct (String.eqb_spec o "not-interested") as [->|H4].
  { right. left. split; [decide_all | done]. }
  destruct (String.eqb_spec o "wrong-number") as [->|H5].
  { right. right. by left. }
  right. right. right. split; [|done].
  rewrite !elem_of_cons, elem_of_nil. tauto.
Qed.

(** X8.  After [updateScore] a lead can be called exactly when it was
    not flagged do-not-call before, the outcome is neither sale nor
    wrong-number, and either the outcome is one of interested, callback,
    not-interested or the lead could be called before.  So a lead that
    an earlier sale had converted is callable again after such a later
    outcome, while the do-not-call flag is never lifted. *)
Theorem updateScore_callable lead o sentiment now :
  isCallable (updateScore lead o sentiment now) = true ↔
  doNotCall lead = false ∧ o ≠ "sale" ∧ o ≠ "wrong-number" ∧
  (o ∈ ["interested"; "callback"; "not-interested"] ∨ isCallable lead = true).
Proof.
  destruct (updateScore_status lead o sentiment now)
    as [(-> & Hs & Hd)|[(Ho & Hs & Hd)|[(-> & Hs & Hd)|(Ho & Hs & Hd)]]];
    unfold isCallable; rewrite Hs, Hd.
  - split; [by destruct (doNotCall lead) | intros (_ & H & _); done].
  - assert (o ≠ "sale" ∧ o ≠ "wrong-number" ∧
            String.eqb o "do-not-call" = false ∧ String.eqb o "converted" = false)
      as (H1 & H2 & -> & ->).
    { revert Ho. rewrite !elem_of_cons, elem_of_nil.
      intros [->|[->|[->|[]]]]; done. }
    destruct (doNotCall lead).
    + split; [done | intros [? _]; done].
    + split; [|done]. intros _. repeat split; try done. by left.
  - split; [done | intros (_ & _ & H & _); done].
  - assert (o ≠ "sale" ∧ o ≠ "wrong-number") as [H1 H2].
    { revert Ho. rewrite !elem_of_cons, elem_of_nil.
      split; intros ->; tauto. }
    destruct (doNotCall lead).
    + split; [done | intros [? _]; done].
    + split.
      * intros H. repeat split; try done. by right.
      * intros (_ & _ & _ & [Hin|Hc]); [|done].
        revert Ho Hin. rewrite !elem_of_cons, !elem_of_nil. tauto.
Qed.

Lemma trimEnd_idemp s : trimEnd (trimEnd s) = trimEnd s.
Proof.
  induction s as [|c s IH]; [done|]. cbn [trimEnd].
  destruct (trimEnd s) as [|d r] eqn:Hr.
  - destruct (isWhiteSpace c) eqn:Hc; [done|]. cbn [trimEnd]. by rewrite Hc.
  - cbn [trimEnd] in *. by rewrite IH.
Qed.

Lemma trimStart_head s :
  match trimStart s with
  | EmptyString => True
  | String c _ => isWhiteSpace c = false
  end.
Proof.
  induction s as [|c s IH]; [done|]. cbn [trimStart].
  by destruct (isWhiteSpace c) eqn:Hc.
Qed.

Lemma trimEnd_head t :
  match t with EmptyString => True | String c _ => isWhiteSpace c = false end →
  match trimEnd t with EmptyString => True | String c _ => isWhiteSpace c = false end.
Proof.
  destruct t as [|c t]; [done|]. cbn [trimEnd]. intros Hc.
  destruct (trimEnd t); by rewrite ?Hc.
Qed.

Lemma trimStart_fixed t :
  match t with EmptyString => True | String c _ => isWhiteSpace c = false end →
  trimStart t = t.
Proof. destruct t as [|c t]; [done|]. cbn [trimStart]. by intros ->. Qed.

Lemma trim_idemp s : trim (trim s) = trim s.
Proof.
  unfold trim.
  rewrite (trimStart_fixed (trimEnd (trimStart s)))
    by apply trimEnd_head, trimStart_head.
  apply trimEnd_idemp.
Qed.

Lemma trimEnd_app_space s : trimEnd (s +:+ " ") = trimEnd s.
Proof.
  induction s as [|c s IH]; [done|].
  change (String c s +:+ " ") with (String c (s +:+ " ")).
  cbn [trimEnd]. by rewrite IH.
Qed.

Lemma trim_app_space s : trim (s +:+ " ") = trim s.
Proof.
  unfold trim. induction s as [|c s IH]; [done|].
  change (String c s +:+ " ") with (String c (s +:+ " ")).
  cbn [trimStart]. destruct (isWhiteSpace c); [done|].
  change (String c (s +:+ " ")) with (String c s +:+ " ").
  apply trimEnd_app_space.
Qed.

Lemma trimEnd_app_fixed a b :
  trimEnd b = b → b ≠ EmptyString → trimEnd (a +:+ b) = a +:+ b.
Proof.
  intros Hb Hne. induction a as [|c a IH]; [done|].
  change (String c a +:+ b) with (String c (a +:+ b)).
  cbn [trimEnd]. rewrite IH.
  destruct (a +:+ b) eqn:Hab; [|done]. by destruct a.
Qed.

(** X20.  The full name of a lead carries no space at its ends: for a
    lead without a last name it is the trimmed first name, and trimming
    it again changes nothing; for a first name that does not start, and a
    last name that does not end, with white space it is the two names with
    one space between them. *)
Theorem fullName_trimmed :
  (∀ x, orEmpty (lastName x) = "" → fullName x = trim (firstName x)) ∧
  (∀ x, trim (fullName x) = fullName x) ∧
  (∀ x c rest l,
     firstName x = String c rest → isWhiteSpace c = false →
     lastName x = Some l → l ≠ "" → trimEnd l = l →
     fullName x = firstName x +:+ " " +:+ l).
Proof.
  split; [|split].
  - intros x H. unfold fullName. rewrite H. apply trim_app_space.
  - intros x. apply trim_idemp.
  - intros x c rest l Hf Hc Hl Hne Ht. unfold fullName, trim.
    rewrite Hl, Hf. change (orEmpty (Some l)) with l.
    change (String c rest +:+ " " +:+ l) with (String c (rest +:+ " " +:+ l)).
    cbn [trimStart]. rewrite Hc.
    change (String c (rest +:+ " " +:+ l)) with ((String c rest) +:+ (" " +:+ l)).
    apply trimEnd_app_fixed; [|done].
    change (" " +:+ l) with (String " " l). cbn [trimEnd]. rewrite Ht.
    by destruct l.
Qed.

Lemma fullName_trimmed_witness :
  fullName (named "Ana  ") = trim "Ana  " ∧
  fullName ana = firstName ana +:+ " " +:+ "Lee".
Proof.
  split.
  - apply (proj1 fullName_trimmed). reflexivity.
  - apply (proj2 (proj2 fullName_trimmed) ana "A"%char "na" "Lee"); reflexivity || done.
Defined.

Lemma saveLead_lead x written env : (saveLead x written env).1.1 = x.
Proof. unfold saveLead. by destruct (leadSaved env). Qed.

Lemma updateLeadFromConversation_fields lead0 info o sentiment env :
  let lead' := (updateLeadFromConversation lead0 info o sentiment env).1.1 in
  let scored := updateScore lead0 o (sentimentOf sentiment) (scoreTime env) in
  lead_id lead' = lead_id lead0 ∧ firstName lead' = firstName lead0 ∧
  lastName lead' = lastName lead0 ∧ phoneNumber lead' = phoneNumber lead0 ∧
  score lead' = score scored ∧ status lead' = status scored ∧
  doNotCall lead' = doNotCall scored ∧ totalCalls lead' = totalCalls lead0 + 1.
Proof.
  intros lead' scored. subst lead'.
  pose proof (updateScore_fields lead0 o (sentimentOf sentiment) (scoreTime env))
    as (H1 & H2 & H3 & H4 & _ & _ & _ & _ & H9 & _).
  fold scored in H1, H2, H3, H4, H9.
  unfold updateLeadFromConversation, scheduleNextCall. fold scored.
  repeat case_match; rewrite ?saveLead_lead; simplify_eq; done.
Qed.

Lemma updateLeadFromConversation_schedule lead0 info o sentiment env :
  let r := updateLeadFromConversation lead0 info o sentiment env in
  (o ≠ "callback" → nextCallDate r.1.1 = nextCallDate lead0) ∧
  (o = "callback" → r.2 = true →
   nextCallDate r.1.1
     = Some (setHoursNine (localTZA env)
               (setDateNextDay (localTZA env) (scheduleTime env)))).
Proof.
  intros r. subst r.
  pose proof (updateScore_fields lead0 o (sentimentOf sentiment) (scoreTime env))
    as (_ & _ & _ & _ & _ & _ & Hn & _).
  pose proof (updateScore_status lead0 o (sentimentOf sentiment) (scoreTime env)) as Hs.
  cbn zeta in Hn, Hs.
  unfold updateLeadFromConversation.
  set (scored := updateScore lead0 o (sentimentOf sentiment) (scoreTime env)) in *.
  destruct (scoreSaved env); cbn [negb].
  2:{ cbn [fst snd]. rewrite Hn. by split. }
  destruct (props info) as [fields|].
  2:{ cbn [fst snd]. rewrite Hn. by split. }
  destruct (pushTrimmed _ (topics _)).
  2:{ cbn [fst snd nextCallDate withProfile]. rewrite Hn. by split. }
  destruct (pushTrimmed _ (objections _)).
  2:{ cbn [fst snd nextCallDate withProfile]. rewrite Hn. by split. }
  destruct (String.eqb_spec o "callback") as [->|Hcb].
  - assert (Hst : status scored = "callback").
    { destruct Hs as [(? & _)|[(_ & Hst & _)|[(? & _)|(Hno & _)]]]; try done;
        exfalso; apply Hno; decide_all. }
    unfold scheduleNextCall. cbn [status withProfile]. rewrite Hst.
    cbn [String.eqb Ascii.eqb Bool.eqb].
    destruct (scheduleSaved env); [|by split].
    rewrite saveLead_lead. by split.
  - destruct (String.eqb_spec o "interested") as [->|Hi].
    + assert (Hst : status scored = "interested").
      { destruct Hs as [(? & _)|[(_ & Hst & _)|[(? & _)|(Hno & _)]]]; try done;
          exfalso; apply Hno; decide_all. }
      unfold scheduleNextCall. cbn [status withProfile]. rewrite Hst.
      cbn [String.eqb Ascii.eqb Bool.eqb orb].
      destruct (scheduleSaved env);
        [|cbn [fst snd nextCallDate withProfile]; rewrite Hn; by split].
      rewrite saveLead_lead. cbn [nextCallDate withProfile]. rewrite Hn. by split.
    + rewrite saveLead_lead. cbn [nextCallDate withProfile]. rewrite Hn. by split.
Qed.

(** In a time zone with a fixed offset, nine o'clock of the day after
    [now]. *)
Lemma setHoursNine_next_day tz offset now :
  (∀ t isUTC, tz t isUTC = offset) →
  Day (LocalTime tz (setHoursNine tz (setDateNextDay tz now)))
    = Day (LocalTime tz now) + 1 ∧
  TimeWithinDay (LocalTime tz (setHoursNine tz (setDateNextDay tz now)))
    = 9 * msPerHour ∧
  now + 9 * msPerHour < setHoursNine tz (setDateNextDay tz now)
                      ≤ now + 33 * msPerHour.
Proof.
  intros Htz.
  unfold setHoursNine, setDateNextDay, LocalTime, UTC, Day, TimeWithinDay,
    msPerDay, msPerHour.
  rewrite !Htz.
  replace (now + offset + 86400000 - offset + offset)
    with (now + offset + 1 * 86400000) by lia.
  rewrite Z.div_add by lia.
  replace (((now + offset) / 86400000 + 1) * 86400000 + 9 * 3600000 - offset + offset)
    with (32400000 + ((now + offset) / 86400000 + 1) * 86400000) by lia.
  rewrite Z.div_add, Z.mod_add by lia.
  change (32400000 / 86400000) with 0. change (32400000 mod 86400000) with 32400000.
  pose proof (Z.div_mod (now + offset) 86400000 ltac:(lia)).
  pose proof (Z.mod_pos_bound (now + offset) 86400000 ltac:(lia)).
  lia.
Qed.

(** X10.  Of the outcomes only callback sets the next call date, when
    the update runs to its end: to [setDate(getDate() + 1)] and
    [setHours(9, 0, 0, 0)] of the time of the call, which in a time zone
    with a fixed offset is nine o'clock local time of the next local
    day, more than 9 and at most 33 hours ahead.  For an interested
    outcome [scheduleNextCall(72)] is called but finds the status
    interested, which neither of its branches covers: the next call date
    stays as it was, as it does for every other outcome. *)
Theorem updateLeadFromConversation_next_call lead0 info o sentiment env :
  (o ≠ "callback" →
   nextCallDate (updateLeadFromConversation lead0 info o sentiment env).1.1
     = nextCallDate lead0) ∧
  (o = "callback" →
   (updateLeadFromConversation lead0 info o sentiment env).2 = true →
   ∃ next,
     nextCallDate (updateLeadFromConversation lead0 info o sentiment env).1.1
       = Some next ∧
     next = setHoursNine (localTZA env)
              (setDateNextDay (localTZA env) (scheduleTime env)) ∧
     ∀ offset, (∀ t isUTC, localTZA env t isUTC = offset) →
       Day (LocalTime (localTZA env) next)
         = Day (LocalTime (localTZA env) (scheduleTime env)) + 1 ∧
       TimeWithinDay (LocalTime (localTZA env) next) = 9 * msPerHour ∧
       scheduleTime env + 9 * msPerHour < next ≤ scheduleTime env + 33 * msPerHour).
Proof.
  destruct (updateLeadFromConversation_schedule lead0 info o sentiment env)
    as (H1 & H2).
  split; [done|]. intros Ho Hf. eexists. split; [by apply H2|]. split; [done|].
  intros offset Htz. by apply (setHoursNine_next_day _ offset).
Qed.

Lemma updateLeadFromConversation_next_call_witness :
  nextCallDate (updateLeadFromConversation ana ∅ "interested" neutral quietEnd).1.1
    = nextCallDate ana ∧
  ∃ next,
    nextCallDate (updateLeadFromConversation ana ∅ "callback" neutral quietEnd).1.1
      = Some next ∧
    Day (LocalTime utc next) = Day (LocalTime utc 9200) + 1 ∧
    TimeWithinDay (LocalTime utc next) = 9 * msPerHour.
Proof.
  split.
  - by apply (proj1 (updateLeadFromConversation_next_call
                       ana ∅ "interested" neutral quietEnd)).
  - destruct (proj2 (updateLeadFromConversation_next_call
                       ana ∅ "callback" neutral quietEnd) eq_refl)
      as (next & H1 & _ & H2); [vm_compute; reflexivity|].
    exists next. split; [exact H1|].
    destruct (H2 0 (fun _ _ => eq_refl)) as (H3 & H4 & _).
    split; [exact H3 | exact H4].
Defined.

(** ** Conversation state across operations *)

Lemma continues_refl c : continues c c.
Proof. by repeat split. Qed.

Lemma continues_trans c1 c2 c3 : continues c1 c2 → continues c2 c3 → continues c1 c3.
Proof.
  intros (A1 & A2 & A3 & A4 & A5) (B1 & B2 & B3 & B4 & B5).
  repeat split; try congruence. by etrans.
Qed.

Lemma continues_withHistory c turns :
  continues c (withHistory (conversationHistory c ++ turns) c).
Proof. repeat split. by apply prefix_app_r. Qed.

Lemma continues_withLead c x : continues c (withLead x c).
Proof. by repeat split. Qed.

Lemma continues_withStep c step : continues c (withStep step c).
Proof. by repeat split. Qed.

Lemma grows_refl w : grows w w.
Proof. split; [|done]. intros l c H. exists c. split; [done | apply continues_refl]. Qed.

Lemma grows_trans w1 w2 w3 : grows w1 w2 → grows w2 w3 → grows w1 w3.
Proof.
  intros [H1 L1] [H2 L2]. split; [|lia].
  intros l c Hc. destruct (H1 l c Hc) as (c2 & Hc2 & K1).
  destruct (H2 l c2 Hc2) as (c3 & Hc3 & K2).
  exists c3. split; [done | by eapply continues_trans].
Qed.

Lemma grows_alter w w' f l :
  heap w' = alter f l (heap w) → (∀ c, continues c (f c)) →
  (length (callDocs w) ≤ length (callDocs w'))%nat → grows w w'.
Proof.
  intros Hh Hf Hd. split; [|done]. intros l' c Hc. rewrite Hh.
  destruct (decide (l = l')) as [->|Hne].
  - exists (f c). by rewrite list_lookup_alter_eq, Hc.
  - exists c. rewrite list_lookup_alter_ne by done. split; [done | apply continues_refl].
Qed.

Lemma grows_same_heap w w' :
  heap w' = heap w → (length (callDocs w) ≤ length (callDocs w'))%nat → grows w w'.
Proof.
  intros Hh Hd. split; [|done]. intros l c Hc. exists c.
  rewrite Hh. split; [done | apply continues_refl].
Qed.

Lemma upsertConversation_length sid history docs :
  (length docs ≤ length (upsertConversation sid history docs) ≤ length docs + 1)%nat.
Proof.
  unfold upsertConversation.
  assert (H : ∀ docs', updateFirstDoc sid history docs = Some docs' →
                       length docs' = length docs).
  { induction docs as [|d rest IH]; intros docs' Hu; simpl in Hu; [done|].
    destruct (String.eqb (doc_callSid d) sid); [by injection Hu as <-|].
    destruct (updateFirstDoc sid history rest) as [rest'|]; [|done].
    injection Hu as <-. simpl. by rewrite (IH rest'). }
  destruct (updateFirstDoc sid history docs) as [docs'|].
  - rewrite (H docs') by done. lia.
  - rewrite length_app. simpl. lia.
Qed.

(** What [endConversation] can have changed, whatever its result. *)
Lemma endConversation_effect sid reason env w :
  let r := endConversation sid reason env w in
  (activeConversations r.2 = activeConversations w ∨
   activeConversations r.2 = delete sid (activeConversations w)) ∧
  (heap r.2 = heap w ∨
   ∃ l c x, lookupConversation w sid = Some (l, c) ∧
            heap r.2 = alter (withLead x) l (heap w)) ∧
  (callDocs r.2 = callDocs w ∨
   ∃ doc, callDocs r.2 = callDocs w ++ [doc] ∧ doc_callSid doc = sid).
Proof.
  intros r. subst r.
  destruct (lookupConversation w sid) as [[l c]|] eqn:Hl.
  2:{ unfold endConversation, endConversation_begin. rewrite Hl. cbn.
      repeat split; by left. }
  rewrite (endConversation_active _ _ _ _ _ _ Hl).
  pose proof Hl as Hl0. apply lookupConversation_Some in Hl0 as [_ Hc].
  set (seconds := (endTime env - startTime c + 500) / 1000).
  set (sentiment := analyzeSentiment (conversationHistory c) (sentimentReply env)).
  destruct (determineCallOutcomeOf (conversationHistory c)
              (extractInformation (extractionReply env)) reason) as [o|e] eqn:Ho.
  2:{ destruct (endConversation_resume_unsaved sid reason l seconds sentiment env w c Hc)
        as [_ ->]; [left; by eexists|].
      repeat split; by left. }
  destruct (callSaved env) eqn:Hs.
  2:{ destruct (endConversation_resume_unsaved sid reason l seconds sentiment env w c Hc)
        as [_ ->]; [by right|].
      repeat split; by left. }
  destruct (endConversation_resume_saved sid reason l seconds sentiment env w c o Hc Ho Hs)
    as (Hd & Hh & Hno & Hok).
  split; [|split].
  - destruct (statsUpdated env); [right; by apply Hok | left; by apply Hno].
  - right. by eexists l, c, _.
  - right. by eexists.
Qed.

Lemma endConversation_grows sid reason env w :
  grows w (endConversation sid reason env w).2.
Proof.
  destruct (endConversation_effect sid reason env w) as (_ & Hh & Hd).
  assert (length (callDocs w) ≤ length (callDocs (endConversation sid reason env w).2))%nat.
  { destruct Hd as [->|(doc & -> & _)]; [done|]. rewrite length_app. lia. }
  destruct Hh as [Hh|(l & c & x & _ & Hh)].
  - by apply grows_same_heap.
  - eapply grows_alter; [exact Hh | intros c'; apply continues_withLead | done].
Qed.

Lemma pushTurn_grows l turn w : grows w (pushTurn l turn w).
Proof.
  eapply grows_alter; [reflexivity | | done].
  intros c. apply (continues_withHistory c [turn]).
Qed.

Lemma logMsg_grows level text w : grows w (logMsg level text w).
Proof. by apply grows_same_heap. Qed.

Lemma initializeConversation_grows sid lead0 campaign0 now hour w :
  grows w (initializeConversation sid lead0 campaign0 now hour w).2.
Proof.
  split; [|done]. intros l c Hc. exists c. split; [|apply continues_refl].
  cbn. by apply lookup_app_l_Some.
Qed.

Lemma generateOpeningMessage_grows baseUrl l now w :
  grows w (generateOpeningMessage baseUrl l now w).2.
Proof.
  unfold generateOpeningMessage. destruct (heap w !! l); [|apply grows_refl].
  cbn [snd]. eapply grows_trans; [apply pushTurn_grows | apply logMsg_grows].
Qed.

Lemma saveConversationState_grows c stored w :
  grows w (saveConversationState c stored w).
Proof.
  unfold saveConversationState. destruct stored; [|apply logMsg_grows].
  apply grows_same_heap; [done|]. cbn. apply upsertConversation_length.
Qed.

Lemma handleCustomerSpeech_begin_grows baseUrl sid speech env w :
  match handleCustomerSpeech_begin baseUrl sid speech env w with
  | Replied _ w' | AwaitingResponse _ w' => grows w w'
  end.
Proof.
  unfold handleCustomerSpeech_begin.
  destruct (lookupConversation w sid) as [[l c]|]; [|apply logMsg_grows].
  assert (Hg : grows w (logMsg LInfo "Customer speech received"
                          (pushTurn l (mkTurn customer speech (heardAt env)) w))).
  { eapply grows_trans; [apply pushTurn_grows | apply logMsg_grows]. }
  destruct (shouldEndCall speech); [|done].
  pose proof (endConversation_grows sid "customer-requested" (endAnswers env)
                (logMsg LInfo "Customer speech received"
                   (pushTurn l (mkTurn customer speech (heardAt env)) w))) as He.
  destruct (endConversation _ _ _ _) as [[r|e] w3]; cbn [snd] in He.
  - by eapply grows_trans.
  - eapply grows_trans; [|apply logMsg_grows]. by eapply grows_trans.
Qed.

Lemma handleCustomerSpeech_resume_grows baseUrl sid l env w :
  grows w (handleCustomerSpeech_resume baseUrl sid l env w).2.
Proof.
  unfold handleCustomerSpeech_resume. cbn [heap logMsg].
  destruct (heap w !! l) as [c|] eqn:Hc; cbn [snd].
  { eapply grows_trans; [|apply saveConversationState_grows].
    split; [|done]. intros l' c' Hc'. cbn.
    destruct (decide (l = l')) as [->|Hne].
    - rewrite list_lookup_insert_eq by (by apply lookup_lt_Some in Hc).
      eexists. split; [done|]. rewrite Hc in Hc'. injection Hc' as <-.
      eapply continues_trans; [|apply continues_withStep].
      apply (continues_withHistory c [_]).
    - rewrite list_lookup_insert_ne by done. exists c'.
      split; [done | apply continues_refl]. }
  eapply grows_trans; apply logMsg_grows.
Qed.

Lemma handleCustomerSpeech_grows baseUrl sid speech env w :
  grows w (handleCustomerSpeech baseUrl sid speech env w).2.
Proof.
  unfold handleCustomerSpeech.
  pose proof (handleCustomerSpeech_begin_grows baseUrl sid speech env w) as Hb.
  destruct (handleCustomerSpeech_begin baseUrl sid speech env w) as [t w'|l w']; [done|].
  eapply grows_trans; [exact Hb | apply handleCustomerSpeech_resume_grows].
Qed.

(** X14.  Transcripts are append-only and conversation objects keep
    their identity under every operation of the service: whatever the
    inputs and the collaborators' answers, each conversation object that
    existed before still exists with the same call SID, lead, campaign
    and start time and with a transcript that extends the earlier one,
    and no call document has been removed. *)
Theorem service_grows :
  (∀ sid lead0 campaign0 now hour w,
     grows w (initializeConversation sid lead0 campaign0 now hour w).2) ∧
  (∀ baseUrl l now w, grows w (generateOpeningMessage baseUrl l now w).2) ∧
  (∀ baseUrl sid speech env w,
     grows w (handleCustomerSpeech baseUrl sid speech env w).2) ∧
  (∀ sid reason env w, grows w (endConversation sid reason env w).2).
Proof.
  split; [apply initializeConversation_grows|].
  split; [apply generateOpeningMessage_grows|].
  split; [apply handleCustomerSpeech_grows | apply endConversation_grows].
Qed.

Lemma lookupConversation_pushTurn w sid l c turn :
  lookupConversation w sid = Some (l, c) →
  lookupConversation (pushTurn l turn w) sid
    = Some (l, withHistory (conversationHistory c ++ [turn]) c).
Proof.
  intros H. apply lookupConversation_Some in H as [Ha Hh].
  unfold lookupConversation. cbn. rewrite Ha.
  by rewrite list_lookup_alter_eq, Hh.
Qed.

(** The world after the second half of [handleCustomerSpeech]. *)
Lemma handleCustomerSpeech_resume_world baseUrl sid l env w c :
  lookupConversation w sid = Some (l, c) →
  (handleCustomerSpeech_resume baseUrl sid l env w).2 =
    let conversation :=
      withStep (updateConversationStep (currentStep c) (generatorAnswer env))
        (withHistory (conversationHistory c
                      ++ [mkTurn agent (generatorAnswer env) (answeredAt env)]) c) in
    saveConversationState conversation (stateStored env)
      (setHeap (<[l := conversation]> (heap w))
         (logMsg LDebug "AI response generated" w)).
Proof.
  intros H. apply lookupConversation_Some in H as [_ Hh].
  unfold handleCustomerSpeech_resume. cbn [heap logMsg]. by rewrite Hh.
Qed.

Lemma handleCustomerSpeech_resume_reply baseUrl sid l env w c :
  lookupConversation w sid = Some (l, c) →
  (handleCustomerSpeech_resume baseUrl sid l env w).1 =
    generateTwiML (generatorAnswer env)
      (mkTwiMLOptions
         (orElseStr (voiceSetting (campaign c)) "alice")
         (orElseStr (languageSetting (campaign c)) "en-US")
         (Some (gatherUrl baseUrl sid)) true (Some (gatherUrl baseUrl sid)) (Some 5)
         (Some "I didn't hear anything. Are you still there?")).
Proof.
  intros H. apply lookupConversation_Some in H as [_ Hh].
  unfold handleCustomerSpeech_resume. cbn [heap logMsg]. by rewrite Hh.
Qed.

(** What [handleCustomerSpeech] can have changed outside the
    conversation it is called for. *)
Lemma handleCustomerSpeech_effect baseUrl sid speech env w :
  let w' := (handleCustomerSpeech baseUrl sid speech env w).2 in
  (activeConversations w' = activeConversations w ∨
   (shouldEndCall speech = true ∧
    activeConversations w' = delete sid (activeConversations w))) ∧
  (∀ l', (∀ c, lookupConversation w sid ≠ Some (l', c)) →
         heap w' !! l' = heap w !! l').
Proof.
  intros w'. subst w'. unfold handleCustomerSpeech, handleCustomerSpeech_begin.
  destruct (lookupConversation w sid) as [[l c]|] eqn:Hl.
  2:{ cbn. split; [by left | done]. }
  set (turn := mkTurn customer speech (heardAt env)).
  set (w2 := logMsg LInfo "Customer speech received" (pushTurn l turn w)).
  assert (Hl2 : lookupConversation w2 sid
                = Some (l, withHistory (conversationHistory c ++ [turn]) c)).
  { by apply (lookupConversation_pushTurn w sid l c turn). }
  assert (Hh2 : ∀ l', l' ≠ l → heap w2 !! l' = heap w !! l').
  { intros l' Hne. cbn. by rewrite list_lookup_alter_ne. }
  destruct (shouldEndCall speech) eqn:Hend.
  - destruct (endConversation_effect sid "customer-requested" (endAnswers env) w2)
      as (Ha & Hh & _).
    destruct (endConversation sid "customer-requested" (endAnswers env) w2)
      as [[r|e] w3]; cbn [fst snd] in *.
    + split; [destruct Ha as [->| ->]; [by left | right; by split]|].
      intros l' Hl'. assert (l' ≠ l) by (intros ->; by apply (Hl' c)).
      destruct Hh as [->|(l0 & c0 & x & Hl0 & ->)]; [by apply Hh2|].
      rewrite Hl2 in Hl0. injection Hl0 as <- <-.
      rewrite list_lookup_alter_ne by done. by apply Hh2.
    + cbn [activeConversations heap logMsg].
      split; [destruct Ha as [->| ->]; [by left | right; by split]|].
      intros l' Hl'. assert (l' ≠ l) by (intros ->; by apply (Hl' c)).
      destruct Hh as [->|(l0 & c0 & x & Hl0 & ->)]; [by apply Hh2|].
      rewrite Hl2 in Hl0. injection Hl0 as <- <-.
      rewrite list_lookup_alter_ne by done. by apply Hh2.
  - rewrite (handleCustomerSpeech_resume_world baseUrl sid l env w2 _ Hl2).
    split.
    + left. unfold saveConversationState. by destruct (stateStored env).
    + intros l' Hl'. assert (l' ≠ l) by (intros ->; by apply (Hl' c)).
      unfold saveConversationState. destruct (stateStored env); cbn;
        rewrite list_lookup_insert_ne by done; by rewrite list_lookup_alter_ne.
Qed.

Lemma wellFormed_step w w' :
  wellFormed w → grows w w' →
  (∀ sid l, activeConversations w' !! sid = Some l →
            activeConversations w !! sid = Some l) →
  wellFormed w'.
Proof.
  intros Hwf [Hg _] Hm sid l Hs.
  destruct (Hwf sid l (Hm sid l Hs)) as (c & Hc & Hsid).
  destruct (Hg l c Hc) as (c' & Hc' & Hcont & _).
  exists c'. split; [done | congruence].
Qed.

Lemma wellFormed_initializeConversation sid lead0 campaign0 now hour w :
  wellFormed w → wellFormed (initializeConversation sid lead0 campaign0 now hour w).2.
Proof.
  intros Hwf sid' l. cbn. rewrite lookup_insert.
  destruct (decide (sid = sid')) as [<-|Hne].
  - intros [= <-]. exists (freshConversation sid lead0 campaign0 now hour).
    split; [|reflexivity]. by rewrite lookup_app_r, Nat.sub_diag by lia.
  - intros Hs. destruct (Hwf sid' l Hs) as (c & Hc & Hsid).
    exists c. split; [by apply lookup_app_l_Some | done].
Qed.

Lemma wellFormed_endConversation sid reason env w :
  wellFormed w → wellFormed (endConversation sid reason env w).2.
Proof.
  intros Hwf. apply (wellFormed_step w); [done | apply endConversation_grows|].
  destruct (endConversation_effect sid reason env w) as ([->| ->] & _ & _);
    [done|].
  intros s l H. by apply lookup_delete_Some in H as [_ H].
Qed.

Lemma wellFormed_handleCustomerSpeech baseUrl sid speech env w :
  wellFormed w → wellFormed (handleCustomerSpeech baseUrl sid speech env w).2.
Proof.
  intros Hwf. apply (wellFormed_step w); [done | apply handleCustomerSpeech_grows|].
  destruct (handleCustomerSpeech_effect baseUrl sid speech env w)
    as ([->|[_ ->]] & _); [done|].
  intros s l H. by apply lookup_delete_Some in H as [_ H].
Qed.

Lemma wellFormed_generateOpeningMessage baseUrl l now w :
  wellFormed w → wellFormed (generateOpeningMessage baseUrl l now w).2.
Proof.
  intros Hwf. apply (wellFormed_step w); [done | apply generateOpeningMessage_grows|].
  unfold generateOpeningMessage. by destruct (heap w !! l).
Qed.

(** X12.  In every state the service can reach from the empty one, each
    call SID of the active map names a conversation object that carries
    this SID: the property holds at the start and every operation keeps
    it. *)
Theorem service_wellFormed :
  wellFormed emptyWorld ∧
  (∀ sid lead0 campaign0 now hour w,
     wellFormed w → wellFormed (initializeConversation sid lead0 campaign0 now hour w).2) ∧
  (∀ baseUrl l now w,
     wellFormed w → wellFormed (generateOpeningMessage baseUrl l now w).2) ∧
  (∀ baseUrl sid speech env w,
     wellFormed w → wellFormed (handleCustomerSpeech baseUrl sid speech env w).2) ∧
  (∀ sid reason env w,
     wellFormed w → wellFormed (endConversation sid reason env w).2).
Proof.
  split; [by intros sid l H|].
  split; [apply wellFormed_initializeConversation|].
  split; [apply wellFormed_generateOpeningMessage|].
  split; [apply wellFormed_handleCustomerSpeech | apply wellFormed_endConversation].
Qed.

Lemma service_wellFormed_witness :
  wellFormed connectedWorld ∧
  wellFormed (handleCustomerSpeech "https://host" "CA1" "tell me more" quietSpeech
                connectedWorld).2.
Proof.
  assert (H : wellFormed connectedWorld).
  { apply (proj1 (proj2 (proj2 service_wellFormed))).
    apply (proj1 (proj2 service_wellFormed)).
    apply (proj1 service_wellFormed). }
  split; [exact H|].
  by apply (proj1 (proj2 (proj2 (proj2 service_wellFormed)))).
Defined.

Lemma lookupConversation_frame w w' sid sid' :
  wellFormed w → sid' ≠ sid →
  activeConversations w' !! sid' = activeConversations w !! sid' →
  (∀ l' c', heap w !! l' = Some c' →
            (∀ c, lookupConversation w sid ≠ Some (l', c)) →
            heap w' !! l' = Some c') →
  lookupConversation w' sid' = lookupConversation w sid'.
Proof.
  intros Hwf Hne Hm Hh. unfold lookupConversation. rewrite Hm.
  destruct (activeConversations w !! sid') as [l'|] eqn:Hs; [|done].
  destruct (Hwf sid' l' Hs) as (c' & Hc' & Hsid').
  rewrite Hc', (Hh l' c' Hc'); [done|].
  intros c Hl. apply lookupConversation_Some in Hl as [Ha Hc].
  destruct (Hwf sid l' Ha) as (c0 & Hc0 & Hsid0). congruence.
Qed.

(** X13.  Calls are isolated from each other: in a well-formed state,
    initializing, serving a customer turn of, or ending the call [sid]
    leaves the conversation of every other call SID exactly as it was. *)
Theorem service_isolation w sid sid' :
  wellFormed w → sid' ≠ sid →
  (∀ lead0 campaign0 now hour,
     lookupConversation (initializeConversation sid lead0 campaign0 now hour w).2 sid'
       = lookupConversation w sid') ∧
  (∀ baseUrl speech env,
     lookupConversation (handleCustomerSpeech baseUrl sid speech env w).2 sid'
       = lookupConversation w sid') ∧
  (∀ reason env,
     lookupConversation (endConversation sid reason env w).2 sid'
       = lookupConversation w sid').
Proof.
  intros Hwf Hne. split; [|split].
  - intros. apply (lookupConversation_frame w _ sid sid'); [done | done | |].
    + cbn. by rewrite lookup_insert_ne.
    + intros l' c' Hc' _. cbn. by apply lookup_app_l_Some.
  - intros.
    destruct (handleCustomerSpeech_effect baseUrl sid speech env w) as (Ha & Hh).
    apply (lookupConversation_frame w _ sid sid'); [done | done | |].
    + destruct Ha as [->|[_ ->]]; [done | by rewrite lookup_delete_ne].
    + intros l' c' Hc' Hl'. by rewrite Hh.
  - intros.
    destruct (endConversation_effect sid reason env w) as (Ha & Hh & _).
    apply (lookupConversation_frame w _ sid sid'); [done | done | |].
    + destruct Ha as [->| ->]; [done | by rewrite lookup_delete_ne].
    + intros l' c' Hc' Hl'.
      destruct Hh as [->|(l & c & x & Hl & ->)]; [done|].
      rewrite list_lookup_alter_ne; [done|]. intros <-. by apply (Hl' c).
Qed.

(** ** Counting active conversations *)

(** X21.  The number of active conversations goes up by one when a
    call SID without a conversation is initialized and stays when the SID
    already has one.  It goes down by one exactly when [endConversation]
    gets as far as its delete, which is when it finds the conversation
    and an outcome and the database accepts the call document and the
    campaign statistics: then it returns a summary, or, for a null
    sentiment, throws at the line after the delete.  The number stays
    when [endConversation] returns null or throws earlier.
    [handleCustomerSpeech] never raises it and keeps it when the customer
    does not ask to end the call. *)
Theorem getActiveConversationCount_changes :
  (∀ sid lead0 campaign0 now hour w,
     getActiveConversationCount (initializeConversation sid lead0 campaign0 now hour w).2
       = match activeConversations w !! sid with
         | Some _ => getActiveConversationCount w
         | None => S (getActiveConversationCount w)
         end) ∧
  (∀ sid reason env w,
     let after := getActiveConversationCount (endConversation sid reason env w).2 in
     (∀ l c o,
        lookupConversation w sid = Some (l, c) →
        determineCallOutcomeOf (conversationHistory c)
          (extractInformation (extractionReply env)) reason = Normal o →
        callSaved env = true → statsUpdated env = true →
        getActiveConversationCount w = S after) ∧
     (∀ summary,
        (endConversation sid reason env w).1 = Normal (Some summary) →
        getActiveConversationCount w = S after) ∧
     ((endConversation sid reason env w).1 = Normal None →
      after = getActiveConversationCount w) ∧
     (∀ e,
        (endConversation sid reason env w).1 = Throw e →
        after = getActiveConversationCount w ∨
        (getActiveConversationCount w = S after ∧
         callSaved env = true ∧ statsUpdated env = true ∧
         ∃ l c, lookupConversation w sid = Some (l, c) ∧
                nullish (analyzeSentiment (conversationHistory c)
                           (sentimentReply env)) = true))) ∧
  (∀ baseUrl sid speech env w,
     (getActiveConversationCount (handleCustomerSpeech baseUrl sid speech env w).2
        ≤ getActiveConversationCount w)%nat ∧
     (shouldEndCall speech = false →
      getActiveConversationCount (handleCustomerSpeech baseUrl sid speech env w).2
        = getActiveConversationCount w)).
Proof.
  unfold getActiveConversationCount. split; [|split].
  - intros. cbn. rewrite map_size_insert. by destruct (_ !! sid).
  - intros sid reason env w.
    assert (Hdrop : ∀ l c,
              lookupConversation w sid = Some (l, c) →
              activeConversations (endConversation sid reason env w).2
                = delete sid (activeConversations w) →
              size (activeConversations w)
                = S (size (activeConversations (endConversation sid reason env w).2))).
    { intros l c Hl ->. apply lookupConversation_Some in Hl as [Ha _].
      rewrite map_size_delete, Ha.
      assert (size (activeConversations w) ≠ 0%nat); [|lia].
      intros H0. apply map_size_empty_inv in H0. by rewrite H0 in Ha. }
    destruct (lookupConversation w sid) as [[l c]|] eqn:Hl.
    2:{ rewrite (endConversation_inactive _ _ _ _ Hl). cbn.
        repeat split; try done; intros ? ?; by left. }
    destruct (determineCallOutcomeOf (conversationHistory c)
                (extractInformation (extractionReply env)) reason) as [o|e0] eqn:Ho.
    2:{ destruct (endConversation_unsaved sid reason env w l c Hl) as [[e He] Hw];
          [left; by eexists|].
        rewrite He, Hw. cbn.
        split; [intros l0 c0 o' [= <- <-] Ho'; congruence|].
        split; [done|]. split; [done|]. intros ? ?; by left. }
    destruct (callSaved env) eqn:Hs.
    2:{ destruct (endConversation_unsaved sid reason env w l c Hl) as [[e He] Hw];
          [by right|].
        rewrite He, Hw. cbn.
        split; [done|]. split; [done|]. split; [done|]. intros ? ?; by left. }
    destruct (endConversation_saved sid reason env w l c o Hl Ho Hs)
      as (_ & _ & Hno & Hok).
    destruct (statsUpdated env) eqn:Hu.
    + destruct (Hok eq_refl) as [Hr Ha]. pose proof (Hdrop l c eq_refl Ha) as Hsz.
      split; [by intros|]. split; [by intros|].
      rewrite Hr.
      destruct (nullish (analyzeSentiment (conversationHistory c) (sentimentReply env)))
        eqn:Hn; [|done].
      split; [done|]. intros e _. right. by eauto 10.
    + destruct (Hno eq_refl) as [Hr Ha]. rewrite Hr, Ha.
      split; [done|]. split; [done|]. split; [done|]. intros ? ?; by left.
  - intros.
    destruct (handleCustomerSpeech_effect baseUrl sid speech env w)
      as ([->|[Hend ->]] & _).
    + by split.
    + split; [|congruence]. rewrite map_size_delete.
      destruct (_ !! sid); unfold id; lia.
Qed.

Lemma wellFormed_twoCalls : wellFormed twoCalls.
Proof.
  apply wellFormed_initializeConversation, wellFormed_generateOpeningMessage,
    wellFormed_initializeConversation.
  by intros sid l H.
Qed.

Lemma service_isolation_witness :
  lookupConversation (endConversation "CA1" "completed" quietEnd twoCalls).2 "CA2"
    = lookupConversation twoCalls "CA2" ∧
  lookupConversation
    (handleCustomerSpeech "https://host" "CA1" "goodbye" quietSpeech twoCalls).2 "CA2"
    = lookupConversation twoCalls "CA2".
Proof.
  assert (Hne : "CA2" ≠ "CA1") by done.
  destruct (service_isolation twoCalls "CA1" "CA2" wellFormed_twoCalls Hne)
    as (_ & H2 & H3).
  split; [apply H3 | apply H2].
Defined.

(** ** Finalizing a call *)

Lemma determineCallOutcomeOf_values h extracted reason o :
  determineCallOutcomeOf h extracted reason = Normal o →
  o = "not-interested" ∨ o = "interested" ∨ o = "no-answer".
Proof.
  unfold determineCallOutcomeOf. destruct (props extracted) as [info|].
  - apply determineCallOutcome_values.
  - destruct (String.eqb reason "customer-requested"); [|done].
    intros [= <-]. by left.
Qed.

Lemma determineCallOutcomeOf_customer_requested h extracted :
  determineCallOutcomeOf h extracted "customer-requested" = Normal "not-interested".
Proof. unfold determineCallOutcomeOf. by destruct (props extracted). Qed.

(** X11.  What a successful [endConversation] has done to the lead of
    the call: one more call is counted, the score lies within 0..100, the
    status is the outcome, or is unchanged for a no-answer outcome; the
    do-not-call flag and the next call date are as they were, since the
    resolver yields neither wrong-number nor callback. *)
Theorem endConversation_lead sid reason env w summary w1 l c :
  endConversation sid reason env w = (Normal (Some summary), w1) →
  lookupConversation w sid = Some (l, c) →
  ∃ c1, heap w1 !! l = Some c1 ∧
        lead_id (lead c1) = lead_id (lead c) ∧
        totalCalls (lead c1) = totalCalls (lead c) + 1 ∧
        0 ≤ score (lead c1) ≤ 100 ∧
        doNotCall (lead c1) = doNotCall (lead c) ∧
        nextCallDate (lead c1) = nextCallDate (lead c) ∧
        (status (lead c1) = outcome summary ∨
         (outcome summary = "no-answer" ∧ status (lead c1) = status (lead c))).
Proof.
  intros He Hl.
  apply endConversation_success_inv in He
    as (l' & c' & Hl' & _ & _ & Ho & _ & _ & _ & _ & _ & Hh).
  rewrite Hl in Hl'. injection Hl' as <- <-.
  apply lookupConversation_Some in Hl as [_ Hc].
  set (o := outcome summary) in *.
  set (info := extractInformation (extractionReply env)) in *.
  set (sentiment := summarySentiment summary) in *.
  set (x := (updateLeadFromConversation _ _ _ _ _).1.1) in Hh.
  exists (withLead x c). split; [by rewrite Hh, list_lookup_alter_eq, Hc|].
  cbn [lead withLead].
  pose proof (updateLeadFromConversation_fields (lead c) info o sentiment env)
    as (F1 & _ & _ & _ & F5 & F6 & F7 & F8).
  pose proof (updateLeadFromConversation_schedule (lead c) info o sentiment env)
    as (S1 & _).
  cbn zeta in F1, F5, F6, F7, F8, S1. fold x in F1, F5, F6, F7, F8, S1.
  pose proof (updateScore_status (lead c) o (sentimentOf sentiment)
                (scoreTime env)) as Hst. cbn zeta in Hst.
  rewrite F1, F8, F5, F6, F7, updateScore_score.
  apply determineCallOutcomeOf_values in Ho.
  split; [done|]. split; [done|]. split; [lia|].
  assert (Hcb : o ≠ "callback") by (destruct Ho as [-> | [-> | ->]]; done).
  rewrite (S1 Hcb).
  destruct Hst as [(E & _)|[(_ & Hs & Hd)|[(E & _)|(Hno & Hs & Hd)]]].
  - exfalso. destruct Ho as [H|[H|H]]; congruence.
  - rewrite Hs, Hd. repeat split; try done. by left.
  - exfalso. destruct Ho as [H|[H|H]]; congruence.
  - rewrite Hs, Hd. repeat split; try done.
    destruct Ho as [-> | [-> | ->]]; [| |by right];
      exfalso; apply Hno; decide_all.
Qed.

Lemma endConversation_lead_witness :
  ∃ c1, heap (endConversation "CA1" "completed" quietEnd connectedWorld).2 !! 0%nat
          = Some c1 ∧
        totalCalls (lead c1) = totalCalls ana + 1 ∧
        doNotCall (lead c1) = doNotCall ana.
Proof.
  destruct (endConversation_lead "CA1" "completed" quietEnd connectedWorld
              (mkCallSummary "D1" "no-answer" 8 neutral ∅)
              (endConversation "CA1" "completed" quietEnd connectedWorld).2 0%nat
              (mkConversation "CA1" "L1" "K1" ana acme
                 [mkTurn agent "Hi Ana, is this Ana Lee?" 2000] "opening" 1000
                 (mkCallContext 1 "morning"))
              eq_refl eq_refl) as (c1 & H1 & _ & H3 & _ & H5 & _).
  exists c1. split; [exact H1|]. split; [exact H3 | exact H5].
Defined.

(** X18.  [endConversation] is not undone when it fails half way.  If
    no outcome is found (the extraction is null and the reason has not
    decided) or the call document cannot be written, it throws and
    nothing but the log has changed.  If the document is written and the
    campaign statistics then fail, it throws with the document stored,
    the lead updated and the conversation still active; a later
    [endConversation] that gets past the campaign statistics stores a
    second document for the same call SID, counts the call a second time
    on the lead and removes the conversation, and it returns a summary
    unless its sentiment is null. *)
Theorem endConversation_partial_failure sid reason env w l c :
  lookupConversation w sid = Some (l, c) →
  ((∃ e, determineCallOutcomeOf (conversationHistory c)
           (extractInformation (extractionReply env)) reason = Throw e)
   ∨ callSaved env = false →
   (∃ e, (endConversation sid reason env w).1 = Throw e) ∧
   activeConversations (endConversation sid reason env w).2 = activeConversations w ∧
   heap (endConversation sid reason env w).2 = heap w ∧
   callDocs (endConversation sid reason env w).2 = callDocs w ∧
   leadDocs (endConversation sid reason env w).2 = leadDocs w) ∧
  (∀ o,
     determineCallOutcomeOf (conversationHistory c)
       (extractInformation (extractionReply env)) reason = Normal o →
     callSaved env = true → statsUpdated env = false →
     (endConversation sid reason env w).1 = Throw "campaign.updateStats() rejected" ∧
     (∃ doc, callDocs (endConversation sid reason env w).2 = callDocs w ++ [doc] ∧
             doc_callSid doc = sid ∧ doc_status doc = "completed" ∧
             doc_outcome doc = o) ∧
     (∃ c1, lookupConversation (endConversation sid reason env w).2 sid = Some (l, c1) ∧
            conversationHistory c1 = conversationHistory c ∧
            totalCalls (lead c1) = totalCalls (lead c) + 1) ∧
     ∀ reason' env' o',
       determineCallOutcomeOf (conversationHistory c)
         (extractInformation (extractionReply env')) reason' = Normal o' →
       callSaved env' = true → statsUpdated env' = true →
       let again := endConversation sid reason' env' (endConversation sid reason env w).2 in
       (nullish (analyzeSentiment (conversationHistory c) (sentimentReply env')) = false →
        ∃ summary, again.1 = Normal (Some summary) ∧ outcome summary = o') ∧
       lookupConversation again.2 sid = None ∧
       (∃ doc1 doc2, callDocs again.2 = callDocs w ++ [doc1; doc2] ∧
                     doc_callSid doc1 = sid ∧ doc_callSid doc2 = sid ∧
                     doc_outcome doc1 = o ∧ doc_outcome doc2 = o') ∧
       (∃ c2, heap again.2 !! l = Some c2 ∧
              totalCalls (lead c2) = totalCalls (lead c) + 2)).
Proof.
  intros Hl. split.
  - intros H.
    destruct (endConversation_unsaved sid reason env w l c Hl H) as [He ->].
    by split.
  - intros o Ho Hs Hu.
    destruct (endConversation_saved sid reason env w l c o Hl Ho Hs)
      as (Hd & Hh & Hfail & _).
    destruct (Hfail Hu) as [Hr Ha].
    pose proof Hl as Hl0. apply lookupConversation_Some in Hl0 as [Hact Hc].
    set (x := (updateLeadFromConversation (lead c)
                 (extractInformation (extractionReply env)) o
                 (analyzeSentiment (conversationHistory c) (sentimentReply env))
                 env).1.1) in *.
    assert (Hx : totalCalls x = totalCalls (lead c) + 1).
    { apply (updateLeadFromConversation_fields (lead c)
               (extractInformation (extractionReply env)) o
               (analyzeSentiment (conversationHistory c) (sentimentReply env)) env). }
    assert (Hl1 : lookupConversation (endConversation sid reason env w).2 sid
                  = Some (l, withLead x c)).
    { unfold lookupConversation. by rewrite Ha, Hact, Hh, list_lookup_alter_eq, Hc. }
    split; [done|]. split; [by eexists|]. split; [by eexists|].
    intros reason' env' o' Ho' Hs' Hu' again. subst again.
    destruct (endConversation_saved sid reason' env'
                (endConversation sid reason env w).2 l (withLead x c) o' Hl1 Ho' Hs')
      as (Hd' & Hh' & _ & Hok).
    destruct (Hok Hu') as [Hr' Ha'].
    split; [|split; [|split]].
    + cbn [conversationHistory withLead] in Hr'. intros Hn. rewrite Hn in Hr'.
      by eexists.
    + apply lookupConversation_None. rewrite Ha'. apply lookup_delete_eq.
    + eexists _, _. rewrite Hd', Hd, <- app_assoc. by split.
    + eexists. rewrite Hh', list_lookup_alter_eq, Hh, list_lookup_alter_eq, Hc.
      split; [done|]. cbn [lead withLead fmap option_fmap option_map].
      pose proof (updateLeadFromConversation_fields x
                    (extractInformation (extractionReply env')) o'
                    (analyzeSentiment (conversationHistory (withLead x c))
                       (sentimentReply env')) env') as (_&_&_&_&_&_&_& F).
      cbn zeta in F. cbn [lead withLead]. rewrite F, Hx. lia.
Qed.

Lemma endConversation_partial_failure_witness :
  (∃ e, (endConversation "CA1" "completed" saveFail connectedWorld).1 = Throw e) ∧
  (∃ doc1 doc2,
     callDocs (endConversation "CA1" "completed" quietEnd
                 (endConversation "CA1" "completed" statsFail connectedWorld).2).2
       = callDocs connectedWorld ++ [doc1; doc2] ∧
     doc_callSid doc1 = "CA1" ∧ doc_callSid doc2 = "CA1" ∧
     doc_outcome doc1 = "no-answer" ∧ doc_outcome doc2 = "no-answer").
Proof.
  pose proof (endConversation_partial_failure "CA1" "completed" saveFail connectedWorld
                0%nat
                (mkConversation "CA1" "L1" "K1" ana acme
                   [mkTurn agent "Hi Ana, is this Ana Lee?" 2000] "opening" 1000
                   (mkCallContext 1 "morning")) eq_refl) as [H1 _].
  pose proof (endConversation_partial_failure "CA1" "completed" statsFail connectedWorld
                0%nat
                (mkConversation "CA1" "L1" "K1" ana acme
                   [mkTurn agent "Hi Ana, is this Ana Lee?" 2000] "opening" 1000
                   (mkCallContext 1 "morning")) eq_refl) as [_ H2].
  split; [exact (proj1 (H1 (or_intror eq_refl)))|].
  destruct (H2 "no-answer" eq_refl eq_refl eq_refl) as (_ & _ & _ & H3).
  exact (proj1 (proj2 (proj2 (H3 "completed" quietEnd "no-answer"
                                eq_refl eq_refl eq_refl)))).
Defined.

(** X24.  Nothing keeps a second [endConversation] from starting while
    the first one for the same call SID waits for the model: both find
    the conversation in the active map.  When the first has then run to
    its end and removed the call, the second goes on all the same with
    the conversation object it holds: it stores a call document of its
    own, updates the lead once more and returns a summary.  The call SID
    then has two completed documents and the lead counts two calls. *)
Theorem endConversation_overlapping sid reason1 reason2 env1 env2 w l c o1 o2 :
  lookupConversation w sid = Some (l, c) →
  determineCallOutcomeOf (conversationHistory c)
    (extractInformation (extractionReply env1)) reason1 = Normal o1 →
  determineCallOutcomeOf (conversationHistory c)
    (extractInformation (extractionReply env2)) reason2 = Normal o2 →
  callSaved env1 = true → statsUpdated env1 = true →
  callSaved env2 = true → statsUpdated env2 = true →
  nullish (analyzeSentiment (conversationHistory c) (sentimentReply env1)) = false →
  nullish (analyzeSentiment (conversationHistory c) (sentimentReply env2)) = false →
  let seconds1 := (endTime env1 - startTime c + 500) / 1000 in
  let seconds2 := (endTime env2 - startTime c + 500) / 1000 in
  let sentiment1 := analyzeSentiment (conversationHistory c) (sentimentReply env1) in
  let sentiment2 := analyzeSentiment (conversationHistory c) (sentimentReply env2) in
  let first := endConversation_resume sid reason1 l seconds1 sentiment1 env1 w in
  let second := endConversation_resume sid reason2 l seconds2 sentiment2 env2 first.2 in
  endConversation_begin sid env1 w = AwaitingAnalysis l seconds1 sentiment1 w ∧
  endConversation_begin sid env2 w = AwaitingAnalysis l seconds2 sentiment2 w ∧
  (∃ summary1, first.1 = Normal (Some summary1) ∧ outcome summary1 = o1) ∧
  lookupConversation first.2 sid = None ∧
  (∃ summary2, second.1 = Normal (Some summary2) ∧ outcome summary2 = o2) ∧
  (∃ doc1 doc2, callDocs second.2 = callDocs w ++ [doc1; doc2] ∧
                doc_callSid doc1 = sid ∧ doc_status doc1 = "completed" ∧
                doc_outcome doc1 = o1 ∧
                doc_callSid doc2 = sid ∧ doc_status doc2 = "completed" ∧
                doc_outcome doc2 = o2) ∧
  (∃ c2, heap second.2 !! l = Some c2 ∧
         totalCalls (lead c2) = totalCalls (lead c) + 2).
Proof.
  intros Hl Ho1 Ho2 Hs1 Hu1 Hs2 Hu2 Hn1 Hn2 seconds1 seconds2 sentiment1 sentiment2
    first second.
  pose proof Hl as Hl0. apply lookupConversation_Some in Hl0 as [Hact Hc].
  destruct (endConversation_resume_saved sid reason1 l seconds1 sentiment1 env1 w c o1
              Hc Ho1 Hs1) as (Hd & Hh & _ & Hok).
  destruct (Hok Hu1) as [Hr Ha]. fold first in Hd, Hh, Hr, Ha.
  set (x := (updateLeadFromConversation (lead c)
               (extractInformation (extractionReply env1)) o1 sentiment1 env1).1.1) in *.
  assert (Hx : totalCalls x = totalCalls (lead c) + 1).
  { apply (updateLeadFromConversation_fields (lead c)
             (extractInformation (extractionReply env1)) o1 sentiment1 env1). }
  assert (Hc1 : heap first.2 !! l = Some (withLead x c)).
  { by rewrite Hh, list_lookup_alter_eq, Hc. }
  destruct (endConversation_resume_saved sid reason2 l seconds2 sentiment2 env2 first.2
              (withLead x c) o2 Hc1 Ho2 Hs2) as (Hd' & Hh' & _ & Hok').
  destruct (Hok' Hu2) as [Hr' Ha']. fold second in Hd', Hh', Hr', Ha'.
  split; [unfold endConversation_begin; by rewrite Hl|].
  split; [unfold endConversation_begin; by rewrite Hl|].
  split; [rewrite Hr; subst sentiment1; rewrite Hn1; by eexists|].
  split; [apply lookupConversation_None; rewrite Ha; apply lookup_delete_eq|].
  split; [rewrite Hr'; subst sentiment2; rewrite Hn2; by eexists|].
  split.
  - eexists _, _. rewrite Hd', Hd, <- app_assoc. by split.
  - eexists. rewrite Hh', list_lookup_alter_eq, Hc1. split; [done|].
    cbn [lead withLead fmap option_fmap option_map].
    pose proof (updateLeadFromConversation_fields x
                  (extractInformation (extractionReply env2)) o2 sentiment2 env2)
      as (_&_&_&_&_&_&_& F).
    cbn zeta in F. rewrite F, Hx. lia.
Qed.

Lemma endConversation_overlapping_witness :
  ∃ summary2,
    (endConversation_resume "CA1" "completed" 0 8 neutral quietEnd
       (endConversation_resume "CA1" "completed" 0 8 neutral quietEnd
          connectedWorld).2).1 = Normal (Some summary2) ∧
    outcome summary2 = "no-answer".
Proof.
  exact (proj1 (proj2 (proj2 (proj2 (proj2
           (endConversation_overlapping "CA1" "completed" "completed" quietEnd quietEnd
              connectedWorld 0%nat
              (mkConversation "CA1" "L1" "K1" ana acme
                 [mkTurn agent "Hi Ana, is this Ana Lee?" 2000] "opening" 1000
                 (mkCallContext 1 "morning"))
              "no-answer" "no-answer"
              eq_refl eq_refl eq_refl eq_refl eq_refl eq_refl eq_refl eq_refl
              eq_refl)))))).
Defined.

(** ** Scheduling the next call *)

Lemma setHoursLater_fixed_offset tz offset hours now :
  (∀ t isUTC, tz t isUTC = offset) →
  setHoursLater tz hours now = now + hours * msPerHour.
Proof. intros Htz. unfold setHoursLater, LocalTime, UTC. rewrite !Htz. lia. Qed.

(** X25.  [scheduleNextCall] looks at the status only: a lead with
    status callback is scheduled for nine o'clock of the next day, a
    lead with status new or contacted for [retryDelayHours] hours from
    now, and a lead with any other status is left as it is.  The times
    are local times: in a time zone with a fixed offset the first is
    nine o'clock local time of the next local day and the second is
    exactly that many hours after now.  Nothing but the next call date
    changes. *)
Theorem scheduleNextCall_date x hours tz now offset :
  (∀ t isUTC, tz t isUTC = offset) →
  (status x = "callback" →
   ∃ next, nextCallDate (scheduleNextCall x hours tz now) = Some next ∧
           Day (LocalTime tz next) = Day (LocalTime tz now) + 1 ∧
           TimeWithinDay (LocalTime tz next) = 9 * msPerHour) ∧
  (status x = "new" ∨ status x = "contacted" →
   nextCallDate (scheduleNextCall x hours tz now) = Some (now + hours * msPerHour)) ∧
  (status x ≠ "callback" → status x ≠ "new" → status x ≠ "contacted" →
   scheduleNextCall x hours tz now = x) ∧
  scheduleNextCall x hours tz now
    = mkLead (lead_id x) (firstName x) (lastName x) (phoneNumber x) (company x)
        (jobTitle x) (status x) (score x) (totalCalls x) (lastCallDate x)
        (nextCallDate (scheduleNextCall x hours tz now)) (doNotCall x)
        (doNotCallReason x) (profile x).
Proof.
  intros Htz. unfold scheduleNextCall.
  split; [|split; [|split]].
  - intros ->. cbn [String.eqb Ascii.eqb Bool.eqb]. eexists. split; [done|].
    destruct (setHoursNine_next_day tz offset now Htz) as (H1 & H2 & _). by split.
  - intros [-> | ->]; cbn [String.eqb Ascii.eqb Bool.eqb orb nextCallDate withNextCall];
      by rewrite (setHoursLater_fixed_offset tz offset).
  - intros H1 H2 H3.
    apply String.eqb_neq in H1, H2, H3. by rewrite H1, H2, H3.
  - destruct x. cbn [status].
    by repeat case_match.
Qed.

Lemma scheduleNextCall_date_witness :
  nextCallDate (scheduleNextCall ana 24 utc 9200) = Some (9200 + 24 * msPerHour) ∧
  scheduleNextCall (setOutcome ana "interested") 72 utc 9200 = setOutcome ana "interested".
Proof.
  destruct (scheduleNextCall_date ana 24 utc 9200 0 (fun _ _ => eq_refl))
    as (_ & H2 & _).
  destruct (scheduleNextCall_date (setOutcome ana "interested") 72 utc 9200 0
              (fun _ _ => eq_refl)) as (_ & _ & H3 & _).
  split; [apply H2; by left | by apply H3].
Defined.

(** ** What the model can answer *)

(** X26.  The extraction that [endConversation] works with is whatever
    [JSON.parse] made of the model's reply.  When the request or the
    parse fails, the outcome is resolved as for an empty record.  When
    the reply is null and the reason is not customer-requested, the read
    of [extractedInfo.nextSteps] throws before the call document is
    saved: [endConversation] throws and only its error line is written.
    When the reply is null and the reason is customer-requested, the
    call is finalized with outcome not-interested, and the update of the
    lead stops after [updateScore]: the lead, in the conversation and in
    the database, is the one [updateScore] has left, and the error line
    of the update is written. *)
Theorem endConversation_extraction sid reason env w l c :
  lookupConversation w sid = Some (l, c) →
  (∀ e, extractionReply env = Throw e →
     determineCallOutcomeOf (conversationHistory c)
       (extractInformation (extractionReply env)) reason
     = determineCallOutcome (conversationHistory c) ∅ reason) ∧
  (extractionReply env = Normal JNull → reason ≠ "customer-requested" →
   (∃ e, (endConversation sid reason env w).1 = Throw e) ∧
   (endConversation sid reason env w).2
     = logMsg LError "Failed to end conversation" w) ∧
  (extractionReply env = Normal JNull → reason = "customer-requested" →
   callSaved env = true → scoreSaved env = true → statsUpdated env = true →
   let scored :=
     updateScore (lead c) "not-interested"
       (sentimentOf (analyzeSentiment (conversationHistory c) (sentimentReply env)))
       (scoreTime env) in
   lookupConversation (endConversation sid reason env w).2 sid = None ∧
   (∃ doc, callDocs (endConversation sid reason env w).2 = callDocs w ++ [doc] ∧
           doc_callSid doc = sid ∧ doc_outcome doc = "not-interested") ∧
   heap (endConversation sid reason env w).2 !! l = Some (withLead scored c) ∧
   leadDocs (endConversation sid reason env w).2
     = <[lead_id scored := scored]> (leadDocs w) ∧
   (LError, "Failed to update lead from conversation")
     ∈ logs (endConversation sid reason env w).2).
Proof.
  intros Hl. pose proof Hl as Hl0. apply lookupConversation_Some in Hl0 as [Ha Hc].
  split; [|split].
  - by intros e ->.
  - intros Hx Hr. apply (endConversation_unsaved sid reason env w l c Hl).
    left. rewrite Hx. unfold determineCallOutcomeOf. cbn [extractInformation props].
    apply String.eqb_neq in Hr. rewrite Hr. by eexists.
  - intros Hx -> Hs Hsc Hu scored.
    rewrite (endConversation_active _ _ _ _ _ _ Hl).
    unfold endConversation_resume.
    rewrite Hc, Hx, determineCallOutcomeOf_customer_requested, Hs, Hu.
    unfold updateLeadFromConversation. rewrite Hsc.
    cbn [negb extractInformation props]. fold scored.
    split; [|split; [|split; [|split]]].
    + apply lookupConversation_None.
      destruct (nullish _); cbn; apply lookup_delete_eq.
    + eexists. destruct (nullish _); cbn; by split.
    + destruct (nullish _); cbn; by rewrite list_lookup_alter_eq, Hc.
    + by destruct (nullish _).
    + destruct (nullish _); cbn; rewrite !elem_of_app, !list_elem_of_singleton;
        naive_solver.
Qed.

Lemma endConversation_extraction_witness :
  (∃ e, (endConversation "CA1" "completed" nullEnd connectedWorld).1 = Throw e) ∧
  (endConversation "CA1" "completed" nullEnd connectedWorld).2
    = logMsg LError "Failed to end conversation" connectedWorld.
Proof.
  apply (proj1 (proj2 (endConversation_extraction "CA1" "completed" nullEnd
                         connectedWorld 0%nat
                         (mkConversation "CA1" "L1" "K1" ana acme
                            [mkTurn agent "Hi Ana, is this Ana Lee?" 2000] "opening" 1000
                            (mkCallContext 1 "morning")) eq_refl)));
    [reflexivity | done].
Defined.

(** X27.  [updateLeadFromConversation] writes the lead in up to three
    saves and swallows the failure of each.  When the save of
    [updateScore] is rejected nothing is written, though the lead object
    carries the new score.  Otherwise the database holds the lead at
    least as [updateScore] has left it, whatever fails afterwards, and
    what it holds is that lead or the lead object as it is in the end;
    it is the latter whenever the update has run to its end, which
    needs the last save to succeed. *)
Theorem updateLeadFromConversation_saves lead0 info o sentiment env :
  let r := updateLeadFromConversation lead0 info o sentiment env in
  let scored := updateScore lead0 o (sentimentOf sentiment) (scoreTime env) in
  (scoreSaved env = false → r = (scored, None, false)) ∧
  (scoreSaved env = true →
   ∃ written, r.1.2 = Some written ∧ (written = scored ∨ written = r.1.1)) ∧
  (r.2 = true →
   scoreSaved env = true ∧ leadSaved env = true ∧ r.1.2 = Some r.1.1) ∧
  (scoreSaved env = true → leadSaved env = false →
   o ≠ "callback" → o ≠ "interested" →
   r.1.2 = Some scored ∧ r.2 = false).
Proof.
  intros r scored. subst r. unfold updateLeadFromConversation, saveLead.
  fold scored.
  split; [by intros ->|]. split; [|split].
  - intros ->. cbn [negb]. repeat case_match; cbn [fst snd]; eauto.
  - destruct (scoreSaved env); cbn [negb]; [|done].
    repeat case_match; cbn [fst snd]; done.
  - intros -> Hl Hcb Hi. cbn [negb].
    apply String.eqb_neq in Hcb, Hi. rewrite Hcb, Hi, Hl.
    repeat case_match; cbn [fst snd]; done.
Qed.

Lemma updateLeadFromConversation_saves_witness :
  updateLeadFromConversation ana ∅ "not-interested" neutral
    (mkEndEnv 9000 (Normal neutral) (Normal ∅) "Call completed." true "D1"
       9100 false 9200 utc true true true)
  = (updateScore ana "not-interested" (sentimentOf neutral) 9100, None, false).
Proof.
  exact (proj1 (updateLeadFromConversation_saves ana ∅ "not-interested" neutral
                  (mkEndEnv 9000 (Normal neutral) (Normal ∅) "Call completed." true "D1"
                     9100 false 9200 utc true true true)) eq_refl).
Defined.

(** ** Serving a customer turn *)

Lemma answered_eq c speech env :
  withStep
    (updateConversationStep
       (currentStep (withHistory (conversationHistory c ++ [mkTurn customer speech (heardAt env)]) c))
       (generatorAnswer env))
    (withHistory
       (conversationHistory
          (withHistory (conversationHistory c ++ [mkTurn customer speech (heardAt env)]) c)
        ++ [mkTurn agent (generatorAnswer env) (answeredAt env)])
       (withHistory (conversationHistory c ++ [mkTurn customer speech (heardAt env)]) c))
  = answered c speech env.
Proof. unfold answered, withStep, withHistory. cbn. by rewrite <- app_assoc. Qed.

Lemma generateTwiML_gather text voice language url timeout noInput :
  ∃ rest, generateTwiML text
            (mkTwiMLOptions voice language (Some url) true (Some url) timeout noInput)
          = Gather (Some url) (default 5 timeout) voice language text :: rest ∧
          Hangup ∉ rest.
Proof.
  unfold generateTwiML. cbn. eexists. split; [reflexivity|].
  destruct noInput as [m|]; [destruct (String.eqb m "")|];
    cbn; rewrite ?elem_of_cons, ?elem_of_nil; intros H; by repeat destruct H as [H|H].
Qed.

(** X15.  A customer turn on an active call that does not ask to end
    it: the transcript gains the customer's turn and then the agent's
    answer, the step is reclassified from that answer, the call stays
    active, the reply gathers the next speech with the answer as its
    prompt and does not hang up, and the transcript is written to a call
    document of the call, unless the database refuses, in which case the
    Call collection is left as it was. *)
Theorem handleCustomerSpeech_continues baseUrl sid speech env w l c :
  lookupConversation w sid = Some (l, c) → shouldEndCall speech = false →
  lookupConversation (handleCustomerSpeech baseUrl sid speech env w).2 sid
    = Some (l, answered c speech env) ∧
  conversationHistory (answered c speech env)
    = conversationHistory c
      ++ [mkTurn customer speech (heardAt env);
          mkTurn agent (generatorAnswer env) (answeredAt env)] ∧
  currentStep (answered c speech env)
    = updateConversationStep (currentStep c) (generatorAnswer env) ∧
  (∃ action timeout voice language rest,
     (handleCustomerSpeech baseUrl sid speech env w).1
       = Gather action timeout voice language (generatorAnswer env) :: rest ∧
     Hangup ∉ rest) ∧
  (stateStored env = true →
   ∃ doc, doc ∈ callDocs (handleCustomerSpeech baseUrl sid speech env w).2 ∧
          doc_callSid doc = callSid c ∧ doc_status doc = "in-progress" ∧
          doc_conversation doc = conversationHistory (answered c speech env)) ∧
  (stateStored env = false →
   callDocs (handleCustomerSpeech baseUrl sid speech env w).2 = callDocs w) ∧
  leadDocs (handleCustomerSpeech baseUrl sid speech env w).2 = leadDocs w.
Proof.
  intros Hl Hend.
  set (turn := mkTurn customer speech (heardAt env)).
  set (w2 := logMsg LInfo "Customer speech received" (pushTurn l turn w)).
  assert (Hl2 : lookupConversation w2 sid
                = Some (l, withHistory (conversationHistory c ++ [turn]) c)).
  { by apply (lookupConversation_pushTurn w sid l c turn). }
  assert (Hrun : handleCustomerSpeech baseUrl sid speech env w
                 = handleCustomerSpeech_resume baseUrl sid l env w2).
  { unfold handleCustomerSpeech, handleCustomerSpeech_begin. by rewrite Hl, Hend. }
  rewrite Hrun, (handleCustomerSpeech_resume_world baseUrl sid l env w2 _ Hl2),
    (handleCustomerSpeech_resume_reply baseUrl sid l env w2 _ Hl2).
  cbn zeta. unfold turn. rewrite answered_eq.
  pose proof Hl2 as Hl3. apply lookupConversation_Some in Hl3 as [Ha Hh].
  split.
  { unfold lookupConversation, saveConversationState.
    destruct (stateStored env); cbn [activeConversations heap setCallDocs setHeap logMsg];
      rewrite Ha; by rewrite list_lookup_insert_eq by (by apply lookup_lt_Some in Hh). }
  split; [done|]. split; [done|]. split.
  { destruct (generateTwiML_gather (generatorAnswer env)
                (orElseStr (voiceSetting (campaign c)) "alice")
                (orElseStr (languageSetting (campaign c)) "en-US")
                (gatherUrl baseUrl sid) (Some 5)
                (Some "I didn't hear anything. Are you still there?"))
      as (rest & Hrest & Hno).
    eexists _, _, _, _, rest. split; [exact Hrest | exact Hno]. }
  split; [|split].
  - intros ->. unfold saveConversationState. cbn [callDocs setCallDocs].
    apply upsertConversation_stored.
  - intros ->. by unfold saveConversationState.
  - unfold saveConversationState. by destruct (stateStored env).
Qed.

Lemma handleCustomerSpeech_continues_witness :
  lookupConversation
    (handleCustomerSpeech "https://host" "CA1" "tell me more" quietSpeech
       connectedWorld).2 "CA1"
  = Some (0%nat,
          answered (mkConversation "CA1" "L1" "K1" ana acme
                      [mkTurn agent "Hi Ana, is this Ana Lee?" 2000] "opening" 1000
                      (mkCallContext 1 "morning"))
            "tell me more" quietSpeech).
Proof.
  by apply (handleCustomerSpeech_continues "https://host" "CA1" "tell me more"
              quietSpeech connectedWorld).
Defined.

Lemma handleCustomerSpeech_ending baseUrl sid speech env w l c :
  lookupConversation w sid = Some (l, c) → shouldEndCall speech = true →
  let w2 := logMsg LInfo "Customer speech received"
              (pushTurn l (mkTurn customer speech (heardAt env)) w) in
  handleCustomerSpeech baseUrl sid speech env w =
    match endConversation sid "customer-requested" (endAnswers env) w2 with
    | (Normal _, w3) =>
        (generateHangupTwiML
           (orElseStr (scriptClosing (campaign c)) "Thank you for your time. Goodbye!"),
         w3)
    | (Throw _, w3) =>
        (repeatTwiML baseUrl sid, logMsg LError "Failed to handle customer speech" w3)
    end.
Proof.
  intros Hl Hend w2. unfold handleCustomerSpeech, handleCustomerSpeech_begin.
  rewrite Hl, Hend. fold w2.
  by destruct (endConversation sid "customer-requested" (endAnswers env) w2)
    as [[r|e] w3].
Qed.

(** X16.  A customer turn that asks to end an active call, with a
    database that accepts the writes.  The call is finalized: it is
    removed from the active map; exactly one call document is added,
    completed, with outcome not-interested and the transcript up to and
    including this turn; the lead gets the status not-interested and
    keeps its do-not-call flag as it was, whichever of the phrases was
    said.  The reply says the campaign's closing line, or the default
    one, and hangs up, unless the sentiment of the transcript is null:
    then [endConversation] has thrown after finalizing, and the reply
    asks the customer to repeat and does not hang up. *)
Theorem handleCustomerSpeech_customer_ends baseUrl sid speech env w l c :
  lookupConversation w sid = Some (l, c) → shouldEndCall speech = true →
  callSaved (endAnswers env) = true → statsUpdated (endAnswers env) = true →
  (handleCustomerSpeech baseUrl sid speech env w).1
    = (if nullish (analyzeSentiment
                     (conversationHistory c ++ [mkTurn customer speech (heardAt env)])
                     (sentimentReply (endAnswers env)))
       then repeatTwiML baseUrl sid
       else [Say "alice" "en-US"
               (orElseStr (scriptClosing (campaign c))
                  "Thank you for your time. Goodbye!");
             Hangup]) ∧
  activeConversations (handleCustomerSpeech baseUrl sid speech env w).2 !! sid = None ∧
  (∃ doc, callDocs (handleCustomerSpeech baseUrl sid speech env w).2
            = callDocs w ++ [doc] ∧
          doc_callSid doc = sid ∧ doc_status doc = "completed" ∧
          doc_outcome doc = "not-interested" ∧
          doc_conversation doc
            = conversationHistory c ++ [mkTurn customer speech (heardAt env)]) ∧
  (∃ c1, heap (handleCustomerSpeech baseUrl sid speech env w).2 !! l = Some c1 ∧
         status (lead c1) = "not-interested" ∧
         doNotCall (lead c1) = doNotCall (lead c)).
Proof.
  intros Hl Hend Hs Hu.
  rewrite (handleCustomerSpeech_ending baseUrl sid speech env w l c Hl Hend). cbn zeta.
  set (turn := mkTurn customer speech (heardAt env)).
  set (w2 := logMsg LInfo "Customer speech received" (pushTurn l turn w)).
  assert (Hl2 : lookupConversation w2 sid
                = Some (l, withHistory (conversationHistory c ++ [turn]) c)).
  { by apply (lookupConversation_pushTurn w sid l c turn). }
  destruct (endConversation_saved sid "customer-requested" (endAnswers env) w2 l _
              "not-interested" Hl2
              (determineCallOutcomeOf_customer_requested _ _) Hs)
    as (Hd & Hh & _ & Hok).
  destruct (Hok Hu) as [Hr Ha].
  cbn [conversationHistory withHistory] in Hr, Hh.
  set (sentiment := analyzeSentiment (conversationHistory c ++ [turn])
                      (sentimentReply (endAnswers env))) in *.
  destruct (endConversation sid "customer-requested" (endAnswers env) w2)
    as [r w3]. cbn [fst snd] in *. subst r.
  assert (Hrest :
    activeConversations w3 !! sid = None ∧
    (∃ doc, callDocs w3 = callDocs w ++ [doc] ∧
            doc_callSid doc = sid ∧ doc_status doc = "completed" ∧
            doc_outcome doc = "not-interested" ∧
            doc_conversation doc = conversationHistory c ++ [turn]) ∧
    (∃ c1, heap w3 !! l = Some c1 ∧
           status (lead c1) = "not-interested" ∧
           doNotCall (lead c1) = doNotCall (lead c))).
  { split; [rewrite Ha; apply lookup_delete_eq|]. split.
    - eexists. split; [exact Hd | done].
    - apply lookupConversation_Some in Hl2 as [_ Hc2].
      eexists. rewrite Hh, list_lookup_alter_eq, Hc2. split; [done|].
      cbn [lead withLead withHistory].
      pose proof (updateLeadFromConversation_fields (lead c)
                    (extractInformation (extractionReply (endAnswers env)))
                    "not-interested" sentiment (endAnswers env))
        as (_ & _ & _ & _ & _ & F6 & F7 & _).
      cbn zeta in F6, F7. by rewrite F6, F7. }
  by destruct (nullish sentiment).
Qed.

Lemma handleCustomerSpeech_customer_ends_witness :
  (handleCustomerSpeech "https://host" "CA1" "You have the WRONG NUMBER" quietSpeech
     connectedWorld).1
    = [Say "alice" "en-US" "Thank you for your time. Goodbye!"; Hangup] ∧
  (handleCustomerSpeech "https://host" "CA1" "You have the WRONG NUMBER"
     (speechWith nullEnd) connectedWorld).1
    = repeatTwiML "https://host" "CA1" ∧
  activeConversations
    (handleCustomerSpeech "https://host" "CA1" "You have the WRONG NUMBER"
       (speechWith nullEnd) connectedWorld).2 !! "CA1" = None ∧
  ∃ c1, heap (handleCustomerSpeech "https://host" "CA1" "You have the WRONG NUMBER"
                quietSpeech connectedWorld).2 !! 0%nat = Some c1 ∧
        status (lead c1) = "not-interested" ∧
        doNotCall (lead c1) = doNotCall ana.
Proof.
  destruct (handleCustomerSpeech_customer_ends "https://host" "CA1"
              "You have the WRONG NUMBER" quietSpeech connectedWorld 0%nat
              (mkConversation "CA1" "L1" "K1" ana acme
                 [mkTurn agent "Hi Ana, is this Ana Lee?" 2000] "opening" 1000
                 (mkCallContext 1 "morning"))
              eq_refl eq_refl eq_refl eq_refl) as (H1 & _ & _ & H4).
  destruct (handleCustomerSpeech_customer_ends "https://host" "CA1"
              "You have the WRONG NUMBER" (speechWith nullEnd) connectedWorld 0%nat
              (mkConversation "CA1" "L1" "K1" ana acme
                 [mkTurn agent "Hi Ana, is this Ana Lee?" 2000] "opening" 1000
                 (mkCallContext 1 "morning"))
              eq_refl eq_refl eq_refl eq_refl) as (N1 & N2 & _).
  split; [exact H1|]. split; [exact N1|]. split; [exact N2 | exact H4].
Defined.

Lemma repeatTwiML_no_hangup baseUrl sid : Hangup ∉ repeatTwiML baseUrl sid.
Proof.
  unfold repeatTwiML, generateTwiML. cbn.
  rewrite !elem_of_cons, elem_of_nil. intros H. by repeat destruct H as [H|H].
Qed.

(** X17.  A customer turn that asks to end the call while the call
    document or the campaign statistics cannot be written: the error of
    [endConversation] is swallowed, the reply asks the customer to repeat
    and does not hang up, and the call stays active with the customer's
    turn on its transcript. *)
Theorem handleCustomerSpeech_end_fails baseUrl sid speech env w l c :
  lookupConversation w sid = Some (l, c) → shouldEndCall speech = true →
  callSaved (endAnswers env) = false ∨ statsUpdated (endAnswers env) = false →
  (handleCustomerSpeech baseUrl sid speech env w).1 = repeatTwiML baseUrl sid ∧
  (Hangup ∉ (handleCustomerSpeech baseUrl sid speech env w).1) ∧
  ∃ c1, lookupConversation (handleCustomerSpeech baseUrl sid speech env w).2 sid
          = Some (l, c1) ∧
        conversationHistory c1
          = conversationHistory c ++ [mkTurn customer speech (heardAt env)].
Proof.
  intros Hl Hend Hfail.
  rewrite (handleCustomerSpeech_ending baseUrl sid speech env w l c Hl Hend). cbn zeta.
  set (turn := mkTurn customer speech (heardAt env)).
  set (w2 := logMsg LInfo "Customer speech received" (pushTurn l turn w)).
  assert (Hl2 : lookupConversation w2 sid
                = Some (l, withHistory (conversationHistory c ++ [turn]) c)).
  { by apply (lookupConversation_pushTurn w sid l c turn). }
  destruct (callSaved (endAnswers env)) eqn:Hs.
  - destruct Hfail as [?|Hu]; [done|].
    destruct (endConversation_saved sid "customer-requested" (endAnswers env) w2 l _
                "not-interested" Hl2
                (determineCallOutcomeOf_customer_requested _ _) Hs)
      as (_ & Hh & Hno & _).
    destruct (Hno Hu) as [Hr Ha].
    destruct (endConversation sid "customer-requested" (endAnswers env) w2)
      as [r w3]. cbn [fst snd] in *. subst r. cbn [fst snd].
    split; [done|]. split; [apply repeatTwiML_no_hangup|].
    apply lookupConversation_Some in Hl2 as [Ha2 Hc2].
    eexists. unfold lookupConversation. cbn [activeConversations heap logMsg].
    rewrite Ha, Ha2, Hh, list_lookup_alter_eq, Hc2. by split.
  - destruct (endConversation_unsaved sid "customer-requested" (endAnswers env)
                w2 l _ Hl2 (or_intror Hs)) as ([e He] & Hw).
    destruct (endConversation sid "customer-requested" (endAnswers env) w2)
      as [r w3]. cbn [fst snd] in *. subst r w3. cbn [fst snd].
    split; [done|]. split; [apply repeatTwiML_no_hangup|].
    apply lookupConversation_Some in Hl2 as [Ha2 Hc2].
    eexists. unfold lookupConversation. cbn [activeConversations heap logMsg].
    rewrite Ha2, Hc2. by split.
Qed.

Lemma handleCustomerSpeech_end_fails_witness :
  (handleCustomerSpeech "https://host" "CA1" "please remove me" (speechWith saveFail)
     connectedWorld).1 = repeatTwiML "https://host" "CA1" ∧
  ∃ c1, lookupConversation
          (handleCustomerSpeech "https://host" "CA1" "please remove me"
             (speechWith statsFail) connectedWorld).2 "CA1" = Some (0%nat, c1) ∧
        conversationHistory c1
          = [mkTurn agent "Hi Ana, is this Ana Lee?" 2000]
            ++ [mkTurn customer "please remove me" (heardAt (speechWith statsFail))].
Proof.
  split.
  - apply (handleCustomerSpeech_end_fails "https://host" "CA1" "please remove me"
             (speechWith saveFail) connectedWorld 0%nat
             (mkConversation "CA1" "L1" "K1" ana acme
                [mkTurn agent "Hi Ana, is this Ana Lee?" 2000] "opening" 1000
                (mkCallContext 1 "morning")) eq_refl eq_refl).
    by left.
  - apply (handleCustomerSpeech_end_fails "https://host" "CA1" "please remove me"
             (speechWith statsFail) connectedWorld 0%nat
             (mkConversation "CA1" "L1" "K1" ana acme
                [mkTurn agent "Hi Ana, is this Ana Lee?" 2000] "opening" 1000
                (mkCallContext 1 "morning")) eq_refl eq_refl).
    by right.
Defined.

(** ** Saving the conversation state *)






(** ** Sentiment of a silent customer *)

Lemma isBlank_app (a b : string) : isBlank (a +:+ b) = isBlank a && isBlank b.
Proof. induction a as [|c a IH]; simpl; [done|]. by rewrite IH, andb_assoc. Qed.

Lemma isBlank_joinSpace parts :
  Forall (λ s, isBlank s = true) parts → isBlank (joinSpace parts) = true.
Proof.
  induction 1 as [|s rest Hs Hrest IH]; [done|].
  destruct rest as [|s' rest']; [done|].
  change (joinSpace (s :: s' :: rest')) with (s +:+ " " +:+ joinSpace (s' :: rest')).
  by rewrite !isBlank_app, Hs, IH.
Qed.

Lemma trimEnd_nonempty c s : isWhiteSpace c = false → trimEnd (String c s) ≠ EmptyString.
Proof. intros Hc. cbn [trimEnd]. destruct (trimEnd s); by rewrite ?Hc. Qed.

Lemma trim_empty_iff s : trim s = EmptyString ↔ isBlank s = true.
Proof.
  unfold trim. induction s as [|c s IH]; [done|].
  cbn [trimStart isBlank]. destruct (isWhiteSpace c) eqn:Hc; [done|].
  split; [|done]. intros H. by apply trimEnd_nonempty in H.
Qed.

(** X22.  [analyzeSentiment] does not consult the model for a customer
    who has said nothing: when the transcript has no customer turn, or
    only customer turns of white space, the result is the neutral
    sentiment whatever the model would answer.  The neutral sentiment is
    also the result when the request or the parse of the answer fails;
    otherwise the parsed answer is returned as it is. *)
Theorem analyzeSentiment_fallback :
  (∀ h answer,
     Forall (λ t, isBlank (message t) = true) (customerMessages h) →
     analyzeSentiment h answer = neutralSentiment) ∧
  (∀ h e, analyzeSentiment h (Throw e) = neutralSentiment) ∧
  (∀ h v,
     isBlank (joinSpace (map message (customerMessages h))) = false →
     analyzeSentiment h (Normal v) = v).
Proof.
  split; [|split].
  - intros h answer Hall. unfold analyzeSentiment.
    assert (trim (joinSpace (map message (customerMessages h))) = "") as ->; [|done].
    apply trim_empty_iff, isBlank_joinSpace.
    by apply Forall_fmap.
  - intros h e. unfold analyzeSentiment. by destruct (String.eqb _ "").
  - intros h v Hb. unfold analyzeSentiment.
    destruct (String.eqb_spec (trim (joinSpace (map message (customerMessages h)))) "")
      as [He|_]; [|done].
    apply trim_empty_iff in He. congruence.
Qed.

Lemma analyzeSentiment_fallback_witness :
  analyzeSentiment [mkTurn agent "Hello?" 1; mkTurn customer "  " 2;
                    mkTurn agent "Are you there?" 3; mkTurn customer "" 4]
    (Normal (JObj [("overall", JStr "positive")])) = neutralSentiment ∧
  analyzeSentiment (customerTurns 2) (Normal (JObj [("overall", JStr "positive")]))
    = JObj [("overall", JStr "positive")].
Proof.
  split.
  - apply (proj1 analyzeSentiment_fallback). by repeat constructor.
  - by apply (proj2 (proj2 analyzeSentiment_fallback)).
Defined.

(** ** Opening a call *)

Lemma includes_no_brace s p' : occurs "{" s = false → includes s (String "{" p') = false.
Proof.
  induction s as [|c s IH]; [done|]. cbn [occurs includes startsWith].
  intros H. apply orb_false_iff in H as [Hc Hs]. by rewrite Hc, IH.
Qed.

Lemma replacePlaceholders_no_brace_text text x :
  occurs "{" text = false → replacePlaceholders text x = text.
Proof.
  intros H. apply replacePlaceholders_absent. intros p Hp.
  unfold knownPlaceholders in Hp. rewrite !elem_of_cons, elem_of_nil in Hp.
  repeat (destruct Hp as [->|Hp]; [by apply includes_no_brace|]). destruct Hp.
Qed.

(** X23.  Connecting a call: [initializeConversation] followed by
    [generateOpeningMessage] on the object it returns leaves the call SID
    with a transcript of exactly one turn, the agent's opening, which is
    the campaign's opening script, or the default greeting, after
    placeholder substitution; the reply gathers speech with that opening
    as its prompt.  For a campaign without an opening script and a first
    name without an opening brace the opening is the default greeting
    with the first name in it. *)
Theorem connect_call baseUrl sid lead0 campaign0 now hour now' w :
  let connected :=
    generateOpeningMessage baseUrl (length (heap w)) now'
      (initializeConversation sid lead0 campaign0 now hour w).2 in
  let opening :=
    replacePlaceholders
      (orElseStr (scriptOpening campaign0)
         ("Hello, this is an automated sales call. Am I speaking with "
          +:+ firstName lead0 +:+ "?")) lead0 in
  (initializeConversation sid lead0 campaign0 now hour w).1 = Normal (length (heap w)) ∧
  (∃ action timeout voice language rest,
     connected.1 = Normal (Gather action timeout voice language opening :: rest)) ∧
  (∃ c, lookupConversation connected.2 sid = Some (length (heap w), c) ∧
        conversationHistory c = [mkTurn agent opening now'] ∧
        currentStep c = "opening" ∧ startTime c = now ∧
        callNumber (callContext c) = totalCalls lead0 + 1) ∧
  (orElseStr (scriptOpening campaign0) "" = "" → occurs "{" (firstName lead0) = false →
   opening = "Hello, this is an automated sales call. Am I speaking with "
             +:+ firstName lead0 +:+ "?").
Proof.
  intros connected opening.
  destruct (initializeConversation_lookup sid lead0 campaign0 now hour w) as [H1 H2].
  pose proof H2 as H3. apply lookupConversation_Some in H3 as [Ha Hh].
  split; [done|].
  assert (Hc : connected =
    (Normal (generateTwiML opening
               (mkTwiMLOptions (orElseStr (voiceSetting campaign0) "alice")
                  (orElseStr (languageSetting campaign0) "en-US")
                  (Some (gatherUrl baseUrl sid)) true (Some (gatherUrl baseUrl sid))
                  (Some 5) (Some "Hello? Are you there?"))),
     logMsg LInfo "Opening message generated"
       (pushTurn (length (heap w)) (mkTurn agent opening now')
          (initializeConversation sid lead0 campaign0 now hour w).2))).
  { subst connected. unfold generateOpeningMessage. by rewrite Hh. }
  rewrite Hc. cbn [fst snd]. split; [|split].
  - destruct (generateTwiML_gather opening
                (orElseStr (voiceSetting campaign0) "alice")
                (orElseStr (languageSetting campaign0) "en-US")
                (gatherUrl baseUrl sid) (Some 5) (Some "Hello? Are you there?"))
      as (rest & -> & _).
    by eexists _, _, _, _, rest.
  - eexists. split.
    + apply (lookupConversation_pushTurn _ sid _ _ (mkTurn agent opening now') H2).
    + done.
  - intros Hs Hf. subst opening.
    assert (orElseStr (scriptOpening campaign0)
              ("Hello, this is an automated sales call. Am I speaking with "
               +:+ firstName lead0 +:+ "?")
            = "Hello, this is an automated sales call. Am I speaking with "
              +:+ firstName lead0 +:+ "?") as ->.
    { unfold orElseStr in Hs |- *. destruct (scriptOpening campaign0) as [s|]; [|done].
      by destruct (String.eqb_spec s ""). }
    apply replacePlaceholders_no_brace_text.
    rewrite !occurs_app, Hf. reflexivity.
Qed.

Lemma connect_call_witness :
  replacePlaceholders
    (orElseStr (scriptOpening (mkCampaign "K2" None None None None))
       ("Hello, this is an automated sales call. Am I speaking with "
        +:+ firstName ana +:+ "?")) ana
  = "Hello, this is an automated sales call. Am I speaking with "
    +:+ firstName ana +:+ "?".
Proof.
  apply (proj2 (proj2 (proj2 (connect_call "https://host" "CA9" ana
                                 (mkCampaign "K2" None None None None)
                                 1000 10 2000 emptyWorld)))); reflexivity.
Defined.

(** ** Duration of a call *)

(** X9.  The duration that an [endConversation] returns in its summary,
    and has stored in the call document, is the time from the start of
    the conversation to the end time in whole seconds, rounded to the
    nearest second with a half rounded up; the document carries that
    start and end time. *)
Theorem endConversation_duration sid reason env w summary w1 l c :
  endConversation sid reason env w = (Normal (Some summary), w1) →
  lookupConversation w sid = Some (l, c) →
  (∃ doc, last (callDocs w1) = Some doc ∧
          doc_duration doc = Some (duration summary) ∧
          doc_startedAt doc = Some (startTime c) ∧
          doc_endedAt doc = Some (endTime env)) ∧
  -500 ≤ (endTime env - startTime c) - 1000 * duration summary < 500.
Proof.
  intros He Hl.
  apply endConversation_success_inv in He
    as (l' & c' & Hl' & _ & _ & _ & Hdur & _ & _ & Hd & _).
  rewrite Hl in Hl'. injection Hl' as <- <-.
  split.
  - eexists. rewrite Hd, last_snoc. by split.
  - rewrite Hdur.
    pose proof (Z.div_mod (endTime env - startTime c + 500) 1000 ltac:(lia)).
    pose proof (Z.mod_pos_bound (endTime env - startTime c + 500) 1000 ltac:(lia)).
    lia.
Qed.

Lemma endConversation_duration_witness :
  (∃ doc,
     last (callDocs (endConversation "CA1" "completed" quietEnd connectedWorld).2)
       = Some doc ∧
     doc_duration doc = Some 8) ∧
  -500 ≤ (9000 - 1000) - 1000 * 8 < 500.
Proof.
  destruct (endConversation_duration "CA1" "completed" quietEnd connectedWorld
              (mkCallSummary "D1" "no-answer" 8 neutral ∅)
              (endConversation "CA1" "completed" quietEnd connectedWorld).2 0%nat
              (mkConversation "CA1" "L1" "K1" ana acme
                 [mkTurn agent "Hi Ana, is this Ana Lee?" 2000] "opening" 1000
                 (mkCallContext 1 "morning"))
              eq_refl eq_refl) as ((doc & H1 & H2 & _) & H3).
  split; [|exact H3]. exists doc. split; [exact H1 | exact H2].
Defined.

Lemma getActiveConversationCount_changes_witness :
  getActiveConversationCount twoCalls = 2%nat ∧
  getActiveConversationCount
    (handleCustomerSpeech "https://host" "CA1" "tell me more" quietSpeech twoCalls).2
    = getActiveConversationCount twoCalls.
Proof.
  split; [reflexivity|].
  by apply (proj2 (proj2 getActiveConversationCount_changes)).
Defined.
